(** * RAGAI: adaptive chunking and per-tenant vector retrieval

    A shallow embedding of the Python sources
    [utils/text_processing.py], [data_store/chroma_store.py],
    [rag/instance_manager.py] and the recording tail of
    [data_store/document_processor.py], with the properties of the
    segmentation engine, the tenant vector store and the instance registry.

    Conventions.
    - A Python [str] is a list of Unicode code points ([list N]).
    - Python integers are [Z]; slices follow Python's rules for negative and
      out-of-range bounds.
    - The [while] loop of [split_into_chunks] is a fuel-indexed function that
      returns [None] when the fuel runs out before the loop exits.
    - [datetime.now()], [uuid.uuid4()] and the chromadb client are outside the
      repository: the clock is an argument, the UUID source and the index
      engine are parameters. *)

From Stdlib Require Import ZArith NArith QArith Lia Ascii String.
From Stdlib Require SpecFloat.
From stdpp Require Import base option list gmap strings pretty.

Local Open Scope Z_scope.

(** ** Python strings *)

Abbreviation char := N (only parsing).
Abbreviation text := (list N) (only parsing).

(** Code points of an ASCII literal, for concrete inputs. *)
Definition of_string (s : string) : text :=
  N_of_ascii <$> list_ascii_of_string s.

Module pystr.

(** [Py_UNICODE_ISSPACE]: the characters [str.isspace], [str.strip],
    [str.split] and the regular expression class [\s] treat as whitespace. *)
Definition isspace (c : char) : bool :=
  ((9 <=? c) && (c <=? 13) || (28 <=? c) && (c <=? 32) || (c =? 133)
   || (c =? 160) || (c =? 5760) || (8192 <=? c) && (c <=? 8202)
   || (c =? 8232) || (c =? 8233) || (c =? 8239) || (c =? 8287)
   || (c =? 12288))%N.

Fixpoint lstrip (s : text) : text :=
  match s with
  | [] => []
  | c :: s' => if isspace c then lstrip s' else s
  end.

Definition rstrip (s : text) : text := reverse (lstrip (reverse s)).

(** [s.strip()] *)
Definition strip (s : text) : text := rstrip (lstrip s).

(** Bound normalisation of [s[start:stop]]: a negative bound counts from
    the end, and every bound is clamped to [0, len]. *)
Definition clamp_index (len i : Z) : Z :=
  if i <? 0 then Z.max (i + len) 0 else Z.min i len.

(** [s[start:stop]] *)
Definition slice {A} (s : list A) (start stop : Z) : list A :=
  let len := Z.of_nat (length s) in
  let lo := clamp_index len start in
  let hi := clamp_index len stop in
  take (Z.to_nat (hi - lo)) (drop (Z.to_nat lo) s).

(** [s.rfind(c)]: the highest index holding [c], or [-1]. *)
Fixpoint rfind (c : char) (s : text) : Z :=
  match s with
  | [] => -1
  | x :: s' =>
      let r := rfind c s' in
      if 0 <=? r then r + 1 else if (x =? c)%N then 0 else -1
  end.

(** Number of maximal runs of characters satisfying [p]; [in_run] tells
    whether the previous character satisfied [p]. This is the length of
    [re.findall] for the pattern of one or more [p]. *)
Fixpoint count_runs (p : char → bool) (in_run : bool) (s : text) : nat :=
  match s with
  | [] => O
  | c :: s' =>
      if p c then (if in_run then count_runs p true s' else S (count_runs p true s'))
      else count_runs p false s'
  end.

(** [re.sub] of every maximal whitespace run by one space (code 32). *)
Fixpoint sub_ws (in_run : bool) (s : text) : text :=
  match s with
  | [] => []
  | c :: s' =>
      if isspace c then (if in_run then sub_ws true s' else 32%N :: sub_ws true s')
      else c :: sub_ws false s'
  end.

End pystr.

(** ** config.py *)

Module config.

Definition CHUNK_OVERLAP : Z := 100.
Definition SMALL_CHUNK_SIZE : Z := 300.
Definition MEDIUM_CHUNK_SIZE : Z := 500.
Definition LARGE_CHUNK_SIZE : Z := 800.

(** The chunking fields of [RuntimeConfig]. *)
Record RuntimeConfig := {
  small_chunk_size : Z;
  medium_chunk_size : Z;
  large_chunk_size : Z
}.

(** [RuntimeConfig.__init__] *)
Definition runtime_config : RuntimeConfig :=
  {| small_chunk_size := SMALL_CHUNK_SIZE;
     medium_chunk_size := MEDIUM_CHUNK_SIZE;
     large_chunk_size := LARGE_CHUNK_SIZE |}.

(** [RuntimeConfig.update_chunking_settings]: a [None] argument keeps the
    field. *)
Definition update_chunking_settings (cfg : RuntimeConfig)
    (small medium large : option Z) : RuntimeConfig :=
  {| small_chunk_size := default (small_chunk_size cfg) small;
     medium_chunk_size := default (medium_chunk_size cfg) medium;
     large_chunk_size := default (large_chunk_size cfg) large |}.

End config.

(** ** utils/text_processing.py *)

Module text_processing.
Import pystr config.

Section with_unicode.

(** [Py_UNICODE_ISALNUM] outside ASCII comes from the Unicode database of
    the interpreter; it is a parameter here. *)
Variable unicode_alnum : char → bool.

(** The class [\w]: alphanumeric or underscore. *)
Definition is_word (c : char) : bool :=
  (if c <? 128 then
     (48 <=? c) && (c <=? 57) || (65 <=? c) && (c <=? 90)
     || (97 <=? c) && (c <=? 122) || (c =? 95)
   else unicode_alnum c)%N.

(** The punctuation listed in the second pattern of [clean_text]: full
    stop, comma, question mark, exclamation mark, colon, semicolon, round,
    square and curly brackets, hyphen, en dash, em dash, apostrophe, double
    quote and backtick. *)
Definition kept_punctuation : list char :=
  [46; 44; 63; 33; 58; 59; 40; 41; 91; 93; 123; 125; 45; 8211; 8212; 39; 34; 96]%N.

Definition is_kept (c : char) : bool :=
  is_word c || isspace c || bool_decide (c ∈ kept_punctuation).

Definition clean_text (t : text) : text :=
  let t := sub_ws false t in
  let t := List.filter is_kept t in
  strip t.

(** The class [[.!?]]. *)
Definition is_terminator (c : char) : bool :=
  ((c =? 46) || (c =? 33) || (c =? 63))%N.

(** [len(text.split())] *)
Definition word_count (t : text) : nat :=
  count_runs (λ c, negb (isspace c)) false t.

(** The number of maximal runs of terminators when the text has a
    terminator, and 1 otherwise. *)
Definition sentence_count (t : text) : nat :=
  if existsb is_terminator t then count_runs is_terminator false t else 1%nat.

(** The number of characters that are neither word characters nor
    whitespace. *)
Definition special_char_count (t : text) : nat :=
  length (List.filter (λ c, negb (is_word c || isspace c)) t).

(** The two quotients of [estimate_text_density]. Python computes them in
    double precision; they are exact rationals here. Division of integers
    and comparison are monotone and correctly rounded, so both readings
    give the same branch for any text shorter than 2^48 characters. *)
Definition avg_words_per_sentence (t : text) : Q :=
  Z.of_nat (word_count t) # Pos.of_nat (Nat.max (sentence_count t) 1).

Definition special_char_ratio (t : text) : Q :=
  Z.of_nat (special_char_count t) # Pos.of_nat (Nat.max (length t) 1).

Definition Qltb (a b : Q) : bool := negb (Qle_bool b a).

Definition estimate_text_density (cfg : RuntimeConfig) (t : text) : Z :=
  match t with
  | [] => medium_chunk_size cfg
  | _ =>
      if Qltb 25 (avg_words_per_sentence t) || Qltb (special_char_ratio t) (5 # 100)
      then large_chunk_size cfg
      else if Qltb (avg_words_per_sentence t) 10 || Qltb (15 # 100) (special_char_ratio t)
      then small_chunk_size cfg
      else medium_chunk_size cfg
  end.

(** Lines 59-73 of [split_into_chunks]: the split point chosen inside the
    window, or [-1]. Code points: 46 full stop, 63 question mark,
    33 exclamation mark, 10 newline. *)
Definition best_split_point (split_search_area : text) (chunk_overlap : Z) : Z :=
  let last_sentence_end_char :=
    Z.max (Z.max (rfind 46 split_search_area) (rfind 63 split_search_area))
          (rfind 33 split_search_area) in
  let last_newline := rfind 10 split_search_area in
  let best_split_point :=
    if chunk_overlap <? last_sentence_end_char then last_sentence_end_char else -1 in
  if (chunk_overlap <? last_newline) && (best_split_point <? last_newline)
  then last_newline
  else best_split_point.

(** One run of the loop body (lines 49-84): the chunk appended and the
    cursor after it. *)
Definition chunk_step (t : text) (chunk_size chunk_overlap start : Z) : text * Z :=
  let end_ := Z.min (start + chunk_size) (Z.of_nat (length t)) in
  if end_ <? Z.of_nat (length t) then
    let split_search_area :=
      slice t start (Z.min (start + chunk_size) (Z.of_nat (length t))) in
    let best := best_split_point split_search_area chunk_overlap in
    if negb (best =? -1) then
      let actual_end_in_text := start + best + 1 in
      (strip (slice t start actual_end_in_text), actual_end_in_text - chunk_overlap)
    else
      (strip (slice t start end_), end_ - chunk_overlap)
  else
    (strip (slice t start end_), end_).

(** The [while start < len(text)] loop with its closing [break]. [None]
    means that [fuel] iterations did not reach the exit. *)
Fixpoint chunk_loop (fuel : nat) (t : text) (chunk_size chunk_overlap start : Z)
    (chunks : list text) : option (list text) :=
  match fuel with
  | O => None
  | S fuel' =>
      if start <? Z.of_nat (length t) then
        let '(chunk, start') := chunk_step t chunk_size chunk_overlap start in
        let chunks := chunks ++ [chunk] in
        if Z.of_nat (length t) <=? start' then Some chunks
        else chunk_loop fuel' t chunk_size chunk_overlap start' chunks
      else Some chunks
  end.

(** The default of the parameter [chunk_overlap]; every caller in the
    repository leaves the parameter out. *)
Definition default_chunk_overlap : Z := 100.

(** Truth value of a string: non-empty. *)
Definition nonempty (c : text) : bool :=
  match c with [] => false | _ => true end.

(** [split_into_chunks(text, chunk_size, chunk_overlap)]; [chunk_size] is
    [None] when the caller leaves it out. *)
Definition split_into_chunks (cfg : RuntimeConfig) (fuel : nat) (t : text)
    (chunk_size : option Z) (chunk_overlap : Z) : option (list text) :=
  let t := clean_text t in
  let chunk_size :=
    match chunk_size with
    | None => estimate_text_density cfg t
    | Some c => c
    end in
  if Z.of_nat (length t) <=? chunk_size then
    Some (if nonempty t then [t] else [])
  else
    List.filter nonempty <$> chunk_loop fuel t chunk_size chunk_overlap 0 [].

(** *** The variant without the newline preference

    The same function with the search for the last newline taken out of
    the loop body: the split point is the last sentence terminator when it
    lies beyond the overlap, and [-1] otherwise. *)

Definition best_split_point_sentence_only (split_search_area : text)
    (chunk_overlap : Z) : Z :=
  let last_sentence_end_char :=
    Z.max (Z.max (rfind 46 split_search_area) (rfind 63 split_search_area))
          (rfind 33 split_search_area) in
  if chunk_overlap <? last_sentence_end_char then last_sentence_end_char else -1.

Definition chunk_step_sentence_only (t : text) (chunk_size chunk_overlap start : Z)
    : text * Z :=
  let end_ := Z.min (start + chunk_size) (Z.of_nat (length t)) in
  if end_ <? Z.of_nat (length t) then
    let split_search_area :=
      slice t start (Z.min (start + chunk_size) (Z.of_nat (length t))) in
    let best := best_split_point_sentence_only split_search_area chunk_overlap in
    if negb (best =? -1) then
      let actual_end_in_text := start + best + 1 in
      (strip (slice t start actual_end_in_text), actual_end_in_text - chunk_overlap)
    else
      (strip (slice t start end_), end_ - chunk_overlap)
  else
    (strip (slice t start end_), end_).

Fixpoint chunk_loop_sentence_only (fuel : nat) (t : text)
    (chunk_size chunk_overlap start : Z) (chunks : list text) : option (list text) :=
  match fuel with
  | O => None
  | S fuel' =>
      if start <? Z.of_nat (length t) then
        let '(chunk, start') := chunk_step_sentence_only t chunk_size chunk_overlap start in
        let chunks := chunks ++ [chunk] in
        if Z.of_nat (length t) <=? start' then Some chunks
        else chunk_loop_sentence_only fuel' t chunk_size chunk_overlap start' chunks
      else Some chunks
  end.

Definition split_into_chunks_sentence_only (cfg : RuntimeConfig) (fuel : nat)
    (t : text) (chunk_size : option Z) (chunk_overlap : Z) : option (list text) :=
  let t := clean_text t in
  let chunk_size :=
    match chunk_size with
    | None => estimate_text_density cfg t
    | Some c => c
    end in
  if Z.of_nat (length t) <=? chunk_size then
    Some (if nonempty t then [t] else [])
  else
    List.filter nonempty
      <$> chunk_loop_sentence_only fuel t chunk_size chunk_overlap 0 [].

(** *** Windows

    The index pair [(start, stop)] of the slice that one run of the loop
    body appends (before [strip]), and the list of these pairs over the
    whole loop. *)

Definition window_end (t : text) (chunk_size chunk_overlap start : Z) : Z :=
  let end_ := Z.min (start + chunk_size) (Z.of_nat (length t)) in
  if end_ <? Z.of_nat (length t) then
    let best := best_split_point (slice t start end_) chunk_overlap in
    if negb (best =? -1) then start + best + 1 else end_
  else end_.

Fixpoint windows_from (fuel : nat) (t : text) (chunk_size chunk_overlap start : Z)
    : option (list (Z * Z)) :=
  match fuel with
  | O => None
  | S fuel' =>
      if start <? Z.of_nat (length t) then
        let w := (start, window_end t chunk_size chunk_overlap start) in
        let start' := (chunk_step t chunk_size chunk_overlap start).2 in
        if Z.of_nat (length t) <=? start' then Some [w]
        else (w ::.) <$> windows_from fuel' t chunk_size chunk_overlap start'
      else Some []
  end.

End with_unicode.

(** Every whitespace character of [t] is the plain space. *)
Definition only_plain_spaces (t : text) : Prop :=
  ∀ c, c ∈ t → pystr.isspace c = true → c = 32%N.

(** No two whitespace characters of [t] are adjacent. *)
Fixpoint single_spaced (t : text) : Prop :=
  match t with
  | [] => True
  | c :: t' =>
      match t' with
      | [] => True
      | d :: _ => ¬ (pystr.isspace c = true ∧ pystr.isspace d = true)
      end ∧ single_spaced t'
  end.

(** The number of whitespace characters [t] starts with, and the length of
    the longest run of whitespace characters in [t]. *)
Fixpoint leading_blanks (t : text) : nat :=
  match t with
  | [] => 0
  | c :: t' => if pystr.isspace c then S (leading_blanks t') else 0
  end.

Fixpoint max_blank_run (t : text) : nat :=
  match t with
  | [] => 0
  | _ :: t' => Nat.max (leading_blanks t) (max_blank_run t')
  end.

(** The text of a window, and the chunk made of it. *)
Definition window_text (t : text) (w : Z * Z) : text := slice t w.1 w.2.
Definition window_chunk (t : text) (w : Z * Z) : text := strip (window_text t w).

(** [chain ov len a ws]: the windows [ws] start at [a], each is wider than
    the overlap, each next one starts [ov] characters before the end of
    the previous one, and the last one ends at [len]. *)
Inductive chain (ov len : Z) : Z → list (Z * Z) → Prop :=
| chain_last a :
    0 ≤ a < len → chain ov len a [(a, len)]
| chain_cons a e ws :
    0 ≤ a → ov < e - a → e < len →
    chain ov len (e - ov) ws → chain ov len a ((a, e) :: ws).

(** Concatenation with the overlap removed: the first piece whole, every
    later piece without its first [ov] characters. *)
Definition merge_overlap (ov : Z) (pieces : list text) : text :=
  match pieces with
  | [] => []
  | p :: rest => p ++ concat (drop (Z.to_nat ov) <$> rest)
  end.

(** Concatenation of chunks after removing [os !! i] leading characters
    of chunk [i + 1]. *)
Definition reassemble (os : list nat) (chunks : list text) : text :=
  match chunks with
  | [] => []
  | c :: rest => c ++ concat (zip_with drop os rest)
  end.

(** Some removal of at most [ov] leading characters per later chunk
    reconstructs [t]. *)
Definition reconstructs (ov : Z) (chunks : list text) (t : text) : Prop :=
  ∃ os : list nat,
    length os = pred (length chunks)
    ∧ Forall (λ o, Z.of_nat o ≤ ov) os
    ∧ reassemble os chunks = t.

End text_processing.

(** ** Python values and dictionaries *)

(** The values the ingestion functions put into document summaries and
    chunk metadata. *)
Inductive pyval :=
| VNone
| VBool (b : bool)
| VInt (z : Z)
| VStr (s : string).

Global Instance pyval_eq_dec : EqDecision pyval.
Proof. solve_decision. Defined.

(** Python's [==] on these values; [True == 1] and [False == 0]. *)
Definition py_eq (a b : pyval) : bool :=
  match a, b with
  | VNone, VNone => true
  | VBool x, VBool y => bool_decide (x = y)
  | VInt x, VInt y => x =? y
  | VBool x, VInt y | VInt y, VBool x => y =? (if x then 1 else 0)
  | VStr x, VStr y => bool_decide (x = y)
  | _, _ => false
  end.

Abbreviation pydict := (gmap string pyval).

(** [d.get(k)] *)
Definition dict_get (d : pydict) (k : string) : pyval := default VNone (d !! k).

(** ** The index engine

    The calls that [chroma_store.py] makes on the chromadb client and its
    collection. The engine itself is outside the repository: it is a
    parameter, given by the state it keeps and its answer to each call.
    An answer [false] or [None] stands for a raised exception. *)

Module chroma.

(** The rows of a query answer for the single query text. *)
(** A Python [float]: an IEEE 754 binary64 number, with the arithmetic of
    the standard (53 bits of precision, round to nearest even). *)
Abbreviation float := SpecFloat.spec_float.

(** The float [1.0] and the float [0.0]. *)
Definition float_one : float := SpecFloat.S754_finite false 4503599627370496 (-52).
Definition float_zero : float := SpecFloat.S754_zero false.

(** [a - b] on floats. *)
Definition float_sub (a b : float) : float := SpecFloat.SFsub 53 1024 a b.
Global Arguments float_sub : simpl never.

Record QueryResult := {
  ids : list string;
  documents : list text;
  metadatas : list pydict;
  distances : list float
}.

Inductive call :=
| GetOrCreateCollection (name : string)
| Add (name : string) (documents : list text) (metadatas : list pydict)
      (ids : list string)
| Count (name : string)
| Query (name : string) (query_text : text) (n_results : Z)
| DeleteCollection (name : string).

Record Engine := {
  state : Type;
  get_or_create_collection : string → state → bool * state;
  add : string → list text → list pydict → list string → state → bool * state;
  count : string → state → option Z * state;
  query : string → text → Z → state → option QueryResult * state;
  delete_collection : string → state → bool * state
}.

(** What the process shares: the engine state, the calls made on the
    engine so far, and the number of UUIDs drawn so far. *)
Record World (E : Engine) := {
  engine : state E;
  calls : list call;
  uuids_drawn : nat
}.
Global Arguments engine {E} _.
Global Arguments calls {E} _.
Global Arguments uuids_drawn {E} _.

(** A stored record of the reference engine. *)
Record stored := {
  stored_id : string;
  stored_document : text;
  stored_metadata : pydict
}.

(** A reference engine for concrete scenarios: a collection is the list
    of its records in insertion order, [count] is its length, a query
    answers with the first [n_results] records at distance 0, and a call
    on a missing collection raises. *)
Definition memory : Engine := {|
  state := gmap string (list stored);
  get_or_create_collection name st :=
    (true, if st !! name is Some _ then st else <[name := []]> st);
  add name docs metas ids st :=
    match st !! name with
    | Some rows =>
        if bool_decide (length docs = length ids ∧ length docs = length metas) then
          (true,
           <[name := rows ++ zip_with (λ i dm, Build_stored i dm.1 dm.2)
                                ids (zip docs metas)]> st)
        else (false, st)
    | None => (false, st)
    end;
  count name st := (Z.of_nat ∘ length <$> st !! name, st);
  query name q n st :=
    match st !! name with
    | Some rows =>
        if 0 <? n then
          let top := take (Z.to_nat n) rows in
          (Some {| ids := stored_id <$> top;
                   documents := stored_document <$> top;
                   metadatas := stored_metadata <$> top;
                   distances := (λ _, float_zero) <$> top |}, st)
        else (None, st)
    | None => (None, st)
    end;
  delete_collection name st :=
    if st !! name is Some _ then (true, delete name st) else (false, st)
|}.

End chroma.

(** ** data_store/chroma_store.py *)

Module chroma_store.
Import chroma.

(** The fields of a [ChromaVectorStore]; a boolean field tells whether
    the attribute holds an object ([true]) or [None] ([false]). *)
Record ChromaVectorStore := {
  collection_name : string;
  client : bool;
  embedding_function : bool;
  collection : bool
}.

(** An entry of the list [similarity_search] returns. *)
Record result := {
  id : string;
  content : text;
  metadata : pydict;
  score : float
}.

(** The body of the formatting loop: the rows are the [zip] of documents,
    metadatas and distances; [ids !! i] out of range raises. The score is
    [1.0 - float(distance)], computed in double precision. *)
Fixpoint format_results (i : nat) (ids : list string)
    (rows : list (text * pydict * float)) : option (list result) :=
  match rows with
  | [] => Some []
  | (doc, md, distance) :: rows' =>
      match ids !! i, format_results (S i) ids rows' with
      | Some x, Some rest =>
          Some ({| id := x; content := doc; metadata := md;
                   score := float_sub float_one distance |} :: rest)
      | _, _ => None
      end
  end.

Section with_engine.
Variable E : Engine.
(** [uuid4 n] is the text of the [n]-th UUID drawn by the process. *)
Variable uuid4 : nat → string.

Definition log (c : call) (w : World E) (st : state E) : World E :=
  {| engine := st; calls := calls w ++ [c]; uuids_drawn := uuids_drawn w |}.

(** [[str(uuid.uuid4()) for _ in texts]] *)
Definition fresh_ids {A} (texts : list A) (w : World E) : list string * World E :=
  (uuid4 <$> seq (uuids_drawn w) (length texts),
   {| engine := engine w; calls := calls w;
      uuids_drawn := uuids_drawn w + length texts |}).

(** [ChromaVectorStore.__init__] with [_initialize_collection];
    [client_ok] and [embedding_ok] tell whether the two cached
    constructors returned an object. *)
Definition new_store (name : string) (client_ok embedding_ok : bool)
    (w : World E) : ChromaVectorStore * World E :=
  if negb client_ok || negb embedding_ok then
    ({| collection_name := name; client := client_ok;
        embedding_function := embedding_ok; collection := false |}, w)
  else
    let '(ok, st) := get_or_create_collection E name (engine w) in
    ({| collection_name := name; client := client_ok;
        embedding_function := embedding_ok; collection := ok |},
     log (GetOrCreateCollection name) w st).

(** [len(ids) != len(set(ids))] *)
Definition has_duplicates (ids : list string) : bool :=
  negb (length ids =? length (remove_dups ids))%nat.

Definition add_texts (self : ChromaVectorStore) (texts : list text)
    (metadatas : option (list pydict)) (ids : option (list string))
    (w : World E) : list string * World E :=
  if bool_decide (texts = []) then ([], w)
  else if negb (collection self) then ([], w)
  else
    let metadatas := default ((λ _, ∅) <$> texts) metadatas in
    let '(ids, w) :=
      match ids with
      | None => fresh_ids texts w
      | Some ids => (ids, w)
      end in
    let '(ids, w) :=
      if has_duplicates ids then fresh_ids texts w else (ids, w) in
    let '(ok, st) := add E (collection_name self) texts metadatas ids (engine w) in
    let w := log (Add (collection_name self) texts metadatas ids) w st in
    if ok then (ids, w) else ([], w).

Definition similarity_search (self : ChromaVectorStore) (query_text : text) (k : Z)
    (w : World E) : list result * World E :=
  if negb (collection self) then ([], w)
  else
    let '(n, st) := count E (collection_name self) (engine w) in
    let w := log (Count (collection_name self)) w st in
    match n with
    | None => ([], w)
    | Some n =>
        if n =? 0 then ([], w)
        else
          let '(results, st) :=
            query E (collection_name self) query_text (Z.min k n) (engine w) in
          let w := log (Query (collection_name self) query_text (Z.min k n)) w st in
          match results with
          | None => ([], w)
          | Some results =>
              match documents results with
              | [] => ([], w)
              | _ =>
                  (default []
                     (format_results 0 (chroma.ids results)
                        (zip (zip (documents results) (metadatas results))
                             (distances results))),
                   w)
              end
          end
    end.

Definition get_count (self : ChromaVectorStore) (w : World E) : Z * World E :=
  if negb (collection self) then (0, w)
  else
    let '(n, st) := count E (collection_name self) (engine w) in
    (default 0 n, log (Count (collection_name self)) w st).

Definition delete_collection (self : ChromaVectorStore) (w : World E)
    : bool * World E :=
  if negb (client self) then (false, w)
  else
    let '(ok, st) := chroma.delete_collection E (collection_name self) (engine w) in
    (ok, log (DeleteCollection (collection_name self)) w st).

End with_engine.

End chroma_store.

(** ** rag/instance_manager.py *)

Module instance_manager.
Import chroma chroma_store.

Record RAGInstance := {
  id : string;
  name : string;
  description : string;
  vector_store : ChromaVectorStore;
  documents_info : list pydict;
  created_at : string
}.

(** [st.session_state.conversation_context] (main.py, lines 30-37): the
    topics and entities mentioned, the inferred preferences, the recent
    queries and the unresolved ones. *)
Record ConversationContext := {
  topics : gset text;
  entities : gset text;
  user_preferences : gmap text string;
  last_queries : list text;
  unresolved_queries : list text
}.

(** The context main.py starts a session with. *)
Definition initial_conversation_context : ConversationContext :=
  {| topics := ∅; entities := ∅; user_preferences := ∅;
     last_queries := []; unresolved_queries := [] |}.

(** The part of [st.session_state] that holds the tenants and the
    conversation: the registry and the selection, which the registry
    functions read and write, the chat history [messages], and the
    conversation context, from which the prompts are built. *)
Record SessionState := {
  rag_instances : gmap string RAGInstance;
  current_rag_instance : option string;
  messages : list pydict;
  conversation_context : ConversationContext
}.

(** [s.replace(' ', '_')]. A string is held in its UTF-8 encoding, in which
    the byte 32 occurs as the space character only. *)
Fixpoint replace_spaces (s : string) : string :=
  match s with
  | EmptyString => EmptyString
  | String a s' =>
      String (if Ascii.eqb a " " then "_"%char else a) (replace_spaces s')
  end.

Definition key_field (doc_info : pydict) : string :=
  if py_eq (dict_get doc_info "type") (VStr "url") then "url" else "filename".

(** The summary with the fields of [doc_info] merged in, the chunk count
    taken from the store and the update time set. *)
Definition refreshed (existing_doc doc_info : pydict) (count : Z) (now : string)
    : pydict :=
  <["date_updated" := VStr now]> (<["chunks" := VInt count]> (doc_info ∪ existing_doc)).

Section with_engine.
Variable E : Engine.
Variable uuid4 : nat → string.
(** [str.lower], which follows the Unicode database of the interpreter. *)
Variable str_lower : string → string.

(** [name.lower().replace(' ', '_')] *)
Definition slug (name : string) : string := replace_spaces (str_lower name).

(** [RAGInstance.__init__]; [now] is the reading of the clock. *)
Definition new_instance (name description : string) (client_ok embedding_ok : bool)
    (now : string) (w : World E) : RAGInstance * World E :=
  let id := uuid4 (uuids_drawn w) in
  let w := {| engine := engine w; calls := calls w;
              uuids_drawn := S (uuids_drawn w) |} in
  let collection_name :=
    ("rag_" +:+ slug name +:+ "_" +:+ String.substring 0 8 id)%string in
  let '(store, w) := new_store E collection_name client_ok embedding_ok w in
  ({| id := id; name := name; description := description;
      vector_store := store; documents_info := []; created_at := now |}, w).

Definition get_vector_count (self : RAGInstance) (w : World E) : Z * World E :=
  get_count E (vector_store self) w.

(** [RAGInstance.add_document]; [now] is the reading of the clock on the
    update path. The summaries are separate objects: every caller passes
    a dictionary it has just built. *)
Definition add_document (self : RAGInstance) (doc_info : pydict) (now : string)
    (w : World E) : RAGInstance * World E :=
  let append :=
    ({| id := id self; name := name self; description := description self;
        vector_store := vector_store self;
        documents_info := documents_info self ++ [doc_info];
        created_at := created_at self |}, w) in
  match doc_info !! key_field doc_info with
  | Some key =>
      match list_find (λ d, py_eq (dict_get d (key_field doc_info)) key = true)
              (documents_info self) with
      | Some (i, existing_doc) =>
          if bool_decide (existing_doc ≠ ∅) then
            let '(count, w) := get_vector_count self w in
            ({| id := id self; name := name self; description := description self;
                vector_store := vector_store self;
                documents_info :=
                  <[i := refreshed existing_doc doc_info count now]>
                    (documents_info self);
                created_at := created_at self |}, w)
          else append
      | None => append
      end
  | None => append
  end.

(** [RAGInstance.add_texts] *)
Definition add_texts (self : RAGInstance) (texts : list text)
    (metadatas : option (list pydict)) (w : World E) : list string * World E :=
  chroma_store.add_texts E uuid4 (vector_store self) texts metadatas None w.

(** [RAGInstance.search] *)
Definition search (self : RAGInstance) (query_text : text) (k : Z) (w : World E)
    : list result * World E :=
  similarity_search E (vector_store self) query_text k w.

(** [RAGInstance.delete] *)
Definition delete (self : RAGInstance) (w : World E) : bool * World E :=
  chroma_store.delete_collection E (vector_store self) w.

Definition create_rag_instance (name description : string)
    (client_ok embedding_ok : bool) (now : string)
    (ss : SessionState) (w : World E) : string * SessionState * World E :=
  let '(instance, w) := new_instance name description client_ok embedding_ok now w in
  (id instance,
   {| rag_instances := <[id instance := instance]> (rag_instances ss);
      current_rag_instance := current_rag_instance ss;
      messages := messages ss;
      conversation_context := conversation_context ss |},
   w).

Definition get_rag_instance (instance_id : string) (ss : SessionState)
    : option RAGInstance :=
  rag_instances ss !! instance_id.

Definition switch_rag_instance (instance_id : string) (ss : SessionState)
    : bool * SessionState :=
  if bool_decide (is_Some (rag_instances ss !! instance_id)) then
    (true,
     {| rag_instances := rag_instances ss;
        current_rag_instance := Some instance_id;
        messages := [];
        conversation_context := conversation_context ss |})
  else (false, ss).

Definition delete_rag_instance (instance_id : string) (ss : SessionState)
    (w : World E) : bool * SessionState * World E :=
  match rag_instances ss !! instance_id with
  | Some instance =>
      let '(ok, w) := delete instance w in
      if ok then
        let registry := base.delete instance_id (rag_instances ss) in
        if bool_decide (current_rag_instance ss = Some instance_id) then
          (true,
           {| rag_instances := registry; current_rag_instance := None;
              messages := [];
              conversation_context := conversation_context ss |}, w)
        else
          (true,
           {| rag_instances := registry;
              current_rag_instance := current_rag_instance ss;
              messages := messages ss;
              conversation_context := conversation_context ss |}, w)
      else (false, ss, w)
  | None => (false, ss, w)
  end.

End with_engine.

(** *** Document summaries

    The key of a summary is its key field with the value it holds there. *)

Definition other_field (field : string) : string :=
  if bool_decide (field = "url") then "filename" else "url".

Definition summary_key (d : pydict) : option (string * pyval) :=
  (key_field d,.) <$> d !! key_field d.

(** A summary as the ingestion functions build it: it holds a string under
    its key field ([url] for type [url], [filename] for any other type) and
    nothing under the other one. *)
Definition well_formed (d : pydict) : Prop :=
  (∃ key : string, d !! key_field d = Some (VStr key))
  ∧ d !! other_field (key_field d) = None.

(** At most one summary per key. *)
Definition unique_keys (docs : list pydict) : Prop :=
  ∀ i j d1 d2 k,
    docs !! i = Some d1 → docs !! j = Some d2 →
    summary_key d1 = Some k → summary_key d2 = Some k → i = j.

Definition summaries_ok (docs : list pydict) : Prop :=
  Forall well_formed docs ∧ unique_keys docs.

(** A run of [add_document] calls, each with its summary and the reading
    of the clock. *)
Definition record_all (E : Engine) (instance : RAGInstance)
    (recorded : list (pydict * string)) (w : World E) : RAGInstance * World E :=
  foldl (λ iw r, add_document E iw.1 r.1 r.2 iw.2) (instance, w) recorded.

End instance_manager.

(** ** data_store/document_processor.py *)

Module document_processor.
Import chroma chroma_store instance_manager.

(** The dictionary [process_pdf] hands to [add_document]. *)
Definition pdf_summary (filename : string) (chunks size : Z) (now : string) : pydict :=
  <["type" := VStr "pdf"]>
    (<["filename" := VStr filename]>
       (<["chunks" := VInt chunks]>
          (<["size" := VInt size]>
             (<["date_added" := VStr now]> ∅)))).

Section with_engine.
Variable E : Engine.
Variable uuid4 : nat → string.

(** The end of [process_pdf] (lines 87-93), once the pages are chunked:
    one batched [add_texts], then the summary. [size] is the size of the
    file, [now] the clock when the summary is built and [later] the clock
    inside [add_document]. *)
Definition process_pdf_store (instance : RAGInstance) (filename : string)
    (all_chunks : list text) (all_metadatas : list pydict) (size : Z)
    (now later : string) (w : World E) : RAGInstance * World E :=
  if bool_decide (all_chunks ≠ []) then
    let '(_, w) := add_texts E uuid4 instance all_chunks (Some all_metadatas) w in
    add_document E instance
      (pdf_summary filename (Z.of_nat (length all_chunks)) size now) later w
  else (instance, w).

End with_engine.

End document_processor.

(** ** Concrete inputs *)

Module inputs.
Import config.

(** A Unicode table without alphanumerics outside ASCII. The inputs below
    are ASCII, so the table is never consulted on them. *)
Definition ascii_only : char → bool := λ _, false.

(** The settings after moving the slider [Small Chunk Size] of the
    sidebar, whose range is 100 to 500, to its minimum and applying. *)
Definition slider_minimum : RuntimeConfig :=
  update_chunking_settings runtime_config (Some 100) None None.

(** Thirty two-letter sentences, 120 characters. *)
Definition short_sentences : text :=
  concat (replicate 30 (of_string "Hi. ")).

(** Two letters around a thousand symbols that [clean_text] removes. *)
Definition symbol_run : text :=
  of_string "a" ++ concat (replicate 1000 (of_string " @")) ++ of_string " b".

(** The text of the end-to-end scenario of the segmentation engine. *)
Definition three_sentences : text :=
  of_string "Alpha sentence. Beta sentence! Gamma sentence?".

(** UUIDs numbered in the order they are drawn. *)
Definition uuid_numbered (n : nat) : string := pretty n.

(** [str.lower] on ASCII strings; the names below are ASCII. *)
Definition lower_char (a : ascii) : ascii :=
  let n := nat_of_ascii a in
  if (65 <=? n)%nat && (n <=? 90)%nat then ascii_of_nat (n + 32) else a.

Fixpoint lower_ascii (s : string) : string :=
  match s with
  | EmptyString => EmptyString
  | String a s' => String (lower_char a) (lower_ascii s')
  end.

(** The conversation context after one answered question:
    [generate_response] records the query before and after the answer. *)
Definition one_question : instance_manager.ConversationContext :=
  {| instance_manager.topics := ∅;
     instance_manager.entities := ∅;
     instance_manager.user_preferences := ∅;
     instance_manager.last_queries :=
       [of_string "status of alpha"; of_string "status of alpha"];
     instance_manager.unresolved_queries := [] |}.

Definition fresh_world : chroma.World chroma.memory :=
  {| chroma.engine := ∅; chroma.calls := []; chroma.uuids_drawn := 0 |}.

Definition n_chunks (n : nat) : list text := replicate n (of_string "chunk").

Definition n_metadatas (n : nat) : list pydict :=
  replicate n {[ "source_type" := VStr "pdf"; "filename" := VStr "a.txt" ]}.

(** The tenant "Docs", just created on the reference engine. *)
Definition docs_tenant : instance_manager.RAGInstance * chroma.World chroma.memory :=
  instance_manager.new_instance chroma.memory uuid_numbered lower_ascii "Docs" ""
    true true
    "2026-01-01T00:00:00" fresh_world.

(** A session with the tenant "Docs" created and selected. *)
Definition docs_session
    : instance_manager.SessionState * chroma.World chroma.memory :=
  let '(docs_id, ss, w) :=
    instance_manager.create_rag_instance chroma.memory uuid_numbered lower_ascii
      "Docs" "" true true "2026-01-01T00:00:00"
      {| instance_manager.rag_instances := ∅;
         instance_manager.current_rag_instance := None;
         instance_manager.messages := [ {[ "role" := VStr "user" ]} ];
         instance_manager.conversation_context :=
           instance_manager.initial_conversation_context |}
      fresh_world in
  ((instance_manager.switch_rag_instance docs_id ss).2, w).

(** The file ingested as 10 chunks. *)
Definition first_ingestion
    : instance_manager.RAGInstance * chroma.World chroma.memory :=
  document_processor.process_pdf_store chroma.memory uuid_numbered docs_tenant.1
    "a.txt" (n_chunks 10) (n_metadatas 10) 2048
    "2026-01-01T00:01:00" "2026-01-01T00:01:01" docs_tenant.2.

(** The same file name ingested again, as 15 chunks. *)
Definition second_ingestion
    : instance_manager.RAGInstance * chroma.World chroma.memory :=
  document_processor.process_pdf_store chroma.memory uuid_numbered first_ingestion.1
    "a.txt" (n_chunks 15) (n_metadatas 15) 4096
    "2026-01-01T00:02:00" "2026-01-01T00:02:01" first_ingestion.2.

(** The session after the tenant "Docs" has ingested the file and answered
    one question. *)
Definition answered_session
    : instance_manager.SessionState * chroma.World chroma.memory :=
  ({| instance_manager.rag_instances :=
        {[ instance_manager.id first_ingestion.1 := first_ingestion.1 ]};
      instance_manager.current_rag_instance :=
        Some (instance_manager.id first_ingestion.1);
      instance_manager.messages :=
        [ {[ "role" := VStr "user"; "content" := VStr "status of alpha" ]};
          {[ "role" := VStr "assistant"; "content" := VStr "Alpha is done." ]} ];
      instance_manager.conversation_context := one_question |},
   first_ingestion.2).

End inputs.

(** ** More of the sources

    The functions of the cited files that the properties above leave out,
    and the context store of [cag/context_manager.py]. *)

(** *** String operations they use *)

Module pystr_more.
Import pystr.

(** [s.startswith(p)] *)
Fixpoint startswith (p s : text) : bool :=
  match p, s with
  | [], _ => true
  | a :: p', b :: s' => (a =? b)%N && startswith p' s'
  | _ :: _, [] => false
  end.

(** [needle in hay] on strings: [needle] occurs as a contiguous part. *)
Fixpoint contains (needle hay : text) : bool :=
  startswith needle hay
  || match hay with
     | [] => false
     | _ :: hay' => contains needle hay'
     end.

(** [s.split()]: the maximal runs of non-whitespace characters, in order;
    [word] holds the characters of the run being read. *)
Fixpoint split_from (word : text) (s : text) : list text :=
  match s with
  | [] => match word with [] => [] | _ => [word] end
  | c :: s' =>
      if isspace c then
        match word with
        | [] => split_from [] s'
        | _ => word :: split_from [] s'
        end
      else split_from (word ++ [c]) s'
  end.

Definition split (s : text) : list text := split_from [] s.

(** [sep.join(parts)] *)
Fixpoint join (sep : text) (parts : list text) : text :=
  match parts with
  | [] => []
  | [p] => p
  | p :: rest => p ++ sep ++ join sep rest
  end.

End pystr_more.

(** *** chroma_store.py: the collection a call addresses *)

Module chroma_calls.
Import chroma.

Definition call_name (c : call) : string :=
  match c with
  | GetOrCreateCollection name => name
  | Add name _ _ _ => name
  | Count name => name
  | Query name _ _ => name
  | DeleteCollection name => name
  end.

(** The trace [after] extends [before] by calls on the collection [name]
    only. *)
Definition addressed_only (name : string) (before after : list call) : Prop :=
  ∃ new, after = before ++ new ∧ Forall (λ c, call_name c = name) new.

End chroma_calls.

(** *** rag/instance_manager.py: the reading functions *)

Module instance_reads.
Import chroma chroma_store instance_manager.

(** [RAGInstance.get_document_count] *)
Definition get_document_count (self : RAGInstance) : Z :=
  Z.of_nat (length (documents_info self)).

(** [RAGInstance.get_summary] *)
Definition get_summary (E : Engine) (self : RAGInstance) (w : World E)
    : pydict * World E :=
  let '(vector_count, w) := get_vector_count E self w in
  (<["id" := VStr (instance_manager.id self)]>
     (<["name" := VStr (name self)]>
        (<["description" := VStr (description self)]>
           (<["document_count" := VInt (get_document_count self)]>
              (<["vector_count" := VInt vector_count]>
                 (<["created_at" := VStr (created_at self)]> ∅))))),
   w).

End instance_reads.

(** *** data_store/document_processor.py: process_text, process_pdf,
    process_docx

    A process function works on the instance it is given or on the current
    one of the session; the instance it returns is that instance after the
    call (in Python the same object, changed in place). The result is
    [None] when a call of [split_into_chunks] does not return within
    [fuel] iterations. *)

Module processing.
Import pystr pystr_more config text_processing chroma chroma_store.
Import instance_manager document_processor.

(** [config.MAX_CONTENT_SIZE] *)
Definition MAX_CONTENT_SIZE : Z := 1024 * 1024 * 10.

(** The three configured chunk sizes all exceed the default overlap, as
    the shipped ones (300, 500, 800 against 100) do. *)
Definition sizes_exceed_overlap (cfg : RuntimeConfig) : Prop :=
  default_chunk_overlap < small_chunk_size cfg
  ∧ default_chunk_overlap < medium_chunk_size cfg
  ∧ default_chunk_overlap < large_chunk_size cfg.

(** The first lines of every process function: [instance], or else
    [rag_instances.get(current_rag_instance)]. *)
Definition resolve_instance (instance : option RAGInstance) (ss : SessionState)
    : option RAGInstance :=
  match instance with
  | Some i => Some i
  | None =>
      match current_rag_instance ss with
      | Some current => rag_instances ss !! current
      | None => None
      end
  end.

(** The metadata every chunk of a PDF page starts from, and the same with
    the page number. *)
Definition pdf_metadata_base (filename now : string) (total_pages : nat) : pydict :=
  <["source_type" := VStr "pdf"]>
    (<["filename" := VStr filename]>
       (<["date_added" := VStr now]>
          (<["total_pages" := VInt (Z.of_nat total_pages)]> ∅))).

Definition docx_metadata_base (filename now : string) (total_paragraphs : nat)
    : pydict :=
  <["source_type" := VStr "docx"]>
    (<["filename" := VStr filename]>
       (<["date_added" := VStr now]>
          (<["total_paragraphs" := VInt (Z.of_nat total_paragraphs)]> ∅))).

(** The dictionary [process_docx] hands to [add_document]. *)
Definition docx_summary (filename : string) (chunks size : Z) (now : string)
    : pydict :=
  <["type" := VStr "docx"]>
    (<["filename" := VStr filename]>
       (<["chunks" := VInt chunks]>
          (<["size" := VInt size]>
             (<["date_added" := VStr now]> ∅)))).

Section with_engine.
Variable E : Engine.
Variable uuid4 : nat → string.
Variable unicode_alnum : char → bool.

Definition process_text (cfg : RuntimeConfig) (fuel : nat) (text_content : text)
    (source_metadata : option pydict) (instance : option RAGInstance)
    (ss : SessionState) (w : World E) : option (Z * World E) :=
  match resolve_instance instance ss with
  | None => Some (0, w)
  | Some instance =>
      let text_content :=
        if MAX_CONTENT_SIZE <? Z.of_nat (length text_content)
        then take (Z.to_nat MAX_CONTENT_SIZE) text_content
        else text_content in
      let chunk_size := estimate_text_density unicode_alnum cfg text_content in
      match split_into_chunks unicode_alnum cfg fuel text_content (Some chunk_size)
              default_chunk_overlap with
      | None => None
      | Some chunks =>
          if bool_decide (chunks = []) then Some (0, w)
          else
            let metadatas := (λ _, default ∅ source_metadata) <$> chunks in
            let '(ids, w) := add_texts E uuid4 instance chunks (Some metadatas) w in
            Some (Z.of_nat (length ids), w)
      end
  end.

(** The page loop of [process_pdf]. A page is [None] when its extraction
    raises (logged, the page is skipped) and [Some page_text] otherwise;
    [i] is the index of the first page of [pages]. *)
Fixpoint pdf_pages (cfg : RuntimeConfig) (fuel : nat) (source_metadata_base : pydict)
    (i : nat) (pages : list (option text))
    (all_chunks : list text) (all_metadatas : list pydict)
    : option (list text * list pydict) :=
  match pages with
  | [] => Some (all_chunks, all_metadatas)
  | None :: pages' =>
      pdf_pages cfg fuel source_metadata_base (S i) pages' all_chunks all_metadatas
  | Some page_text :: pages' =>
      if nonempty (strip page_text) then
        let page_metadata :=
          <["page" := VInt (Z.of_nat i + 1)]> source_metadata_base in
        let chunk_size := estimate_text_density unicode_alnum cfg page_text in
        match split_into_chunks unicode_alnum cfg fuel page_text (Some chunk_size)
                default_chunk_overlap with
        | None => None
        | Some page_chunks_content =>
            pdf_pages cfg fuel source_metadata_base (S i) pages'
              (all_chunks ++ page_chunks_content)
              (all_metadatas ++ ((λ _, page_metadata) <$> page_chunks_content))
        end
      else
        pdf_pages cfg fuel source_metadata_base (S i) pages' all_chunks all_metadatas
  end.

(** [process_pdf]. [reader] is [None] when [PdfReader] raises and the list
    of its pages otherwise; [size] is the size of the file; [now] is the
    clock when the metadata is built, [now_added] when the summary is built
    and [later] inside [add_document]. *)
Definition process_pdf (cfg : RuntimeConfig) (fuel : nat)
    (reader : option (list (option text))) (size : Z) (filename : string)
    (instance : option RAGInstance) (ss : SessionState)
    (now now_added later : string) (w : World E)
    : option (Z * option RAGInstance * World E) :=
  match resolve_instance instance ss with
  | None => Some (0, None, w)
  | Some instance =>
      match reader with
      | None => Some (0, Some instance, w)
      | Some pages =>
          match pdf_pages cfg fuel (pdf_metadata_base filename now (length pages))
                  0 pages [] [] with
          | None => None
          | Some (all_chunks, all_metadatas) =>
              let '(instance, w) :=
                process_pdf_store E uuid4 instance filename all_chunks all_metadatas
                  size now_added later w in
              Some (Z.of_nat (length all_chunks), Some instance, w)
          end
      end
  end.

(** [process_docx]. [doc] is [None] when [docx.Document] raises and the
    texts of its paragraphs otherwise. Code point 10 is the newline. *)
Definition process_docx (cfg : RuntimeConfig) (fuel : nat)
    (doc : option (list text)) (size : Z) (filename : string)
    (instance : option RAGInstance) (ss : SessionState)
    (now now_added later : string) (w : World E)
    : option (Z * option RAGInstance * World E) :=
  match resolve_instance instance ss with
  | None => Some (0, None, w)
  | Some instance =>
      match doc with
      | None => Some (0, Some instance, w)
      | Some paragraphs =>
          let source_metadata_base :=
            docx_metadata_base filename now (length paragraphs) in
          let full_text_content :=
            join [10; 10]%N
              (List.filter (λ para, nonempty (strip para)) paragraphs) in
          let doc_chunks_content :=
            if nonempty full_text_content then
              split_into_chunks unicode_alnum cfg fuel full_text_content
                (Some (estimate_text_density unicode_alnum cfg full_text_content))
                default_chunk_overlap
            else Some [] in
          match doc_chunks_content with
          | None => None
          | Some all_chunks =>
              let all_metadatas :=
                imap (λ i _, <["chunk_index" := VInt (Z.of_nat i + 1)]>
                               source_metadata_base) all_chunks in
              if bool_decide (all_chunks ≠ []) then
                let '(_, w) :=
                  add_texts E uuid4 instance all_chunks (Some all_metadatas) w in
                let '(instance, w) :=
                  add_document E instance
                    (docx_summary filename (Z.of_nat (length all_chunks)) size
                       now_added) later w in
                Some (Z.of_nat (length all_chunks), Some instance, w)
              else Some (0, Some instance, w)
          end
      end
  end.

End with_engine.

(** The call the process functions make on a text: the chunk size is the
    one estimated from that text. *)
Abbreviation chunked unicode_alnum cfg fuel t :=
  (split_into_chunks unicode_alnum cfg fuel t
     (Some (estimate_text_density unicode_alnum cfg t)) default_chunk_overlap).

(** The metadata of the chunks of the page with index [i]. *)
Abbreviation page_metadata base i :=
  (<["page" := VInt (Z.of_nat i + 1)]> base).

End processing.

(** *** cag/context_manager.py: the user context *)

Module context_manager.
Import pystr pystr_more text_processing.

(** An entry of [st.session_state.user_context]. *)
Record entry := {
  value : text;
  timestamp : string
}.

(** [CAGSystem.update_user_context]; [now] is the reading of the clock. *)
Definition update_user_context (key value : text) (now : string)
    (user_context : gmap (list N) entry) : gmap (list N) entry :=
  if nonempty key && nonempty value then
    <[strip key := {| value := strip value; timestamp := now |}]> user_context
  else user_context.

(** [CAGSystem.get_user_context] *)
Definition get_user_context (user_context : gmap (list N) entry)
    : gmap (list N) entry :=
  user_context.

Section with_lower.
(** [str.lower] follows the Unicode database of the interpreter; it is a
    parameter here. *)
Variable lower : text → text.

(** The test of [get_relevant_context] on one key. *)
Definition relevant (query_lower key : text) : bool :=
  contains (lower key) query_lower
  || existsb (λ word, contains word (lower key)) (split query_lower).

(** [CAGSystem.get_relevant_context] *)
Definition get_relevant_context (query : text)
    (user_context : gmap (list N) entry) : gmap (list N) text :=
  if bool_decide (user_context = ∅) then ∅
  else
    let query_lower := lower query in
    value <$> filter (λ kd, relevant query_lower kd.1 = true) user_context.

End with_lower.

End context_manager.

(** *** Further inputs *)

Module inputs_more.
Import chroma.

(** The floats [0.25], [0.5] and [0.1] (the double nearest to one tenth). *)
Definition float_quarter : float :=
  SpecFloat.S754_finite false 4503599627370496 (-54).
Definition float_half : float :=
  SpecFloat.S754_finite false 4503599627370496 (-53).
Definition float_tenth : float :=
  SpecFloat.S754_finite false 7205759403792794 (-56).

(** An engine whose answers are one id short: it counts two records and
    answers every query with two documents and a single id. *)
Definition short_of_ids : Engine := {|
  state := unit;
  get_or_create_collection _ st := (true, st);
  add _ _ _ _ st := (true, st);
  count _ st := (Some 2, st);
  query _ _ _ st :=
    (Some {| ids := ["x"]%string;
             documents := [of_string "one"; of_string "two"];
             metadatas := [∅; ∅];
             distances := [float_quarter; float_half] |}, st);
  chroma.delete_collection _ st := (true, st)
|}.

(** [str.lower] on ASCII texts. *)
Definition ascii_lower (s : text) : text :=
  (λ c, if (65 <=? c)%N && (c <=? 90)%N then (c + 32)%N else c) <$> s.

(** A context with one entry, stored under the key [name]. *)
Definition one_entry : gmap (list N) context_manager.entry :=
  context_manager.update_user_context (of_string " name ") (of_string "Ada ")
    "2026-01-01T00:00:00" ∅.

(** A file of four pages: a page of text, a page whose extraction raises,
    a blank page and a second page of text. *)
Definition four_pages : list (option text) :=
  [ Some inputs.three_sentences; None; Some (of_string "   ");
    Some (of_string "Delta sentence.") ].

End inputs_more.

(** * Properties *)

(** ** Python strings *)

Module pystr_facts.
Import pystr.

Lemma clamp_index_id len i : 0 ≤ i ≤ len → clamp_index len i = i.
Proof. unfold clamp_index. intros. destruct (Z.ltb_spec i 0); lia. Qed.

Lemma clamp_index_range len i : 0 ≤ len → 0 ≤ clamp_index len i ≤ len.
Proof. unfold clamp_index. intros. destruct (Z.ltb_spec i 0); lia. Qed.

Lemma clamp_index_mono len i j : i ≤ j → i < 0 ≤ j ∨ clamp_index len i ≤ clamp_index len j.
Proof.
  unfold clamp_index. intros.
  destruct (Z.ltb_spec i 0), (Z.ltb_spec j 0); lia.
Qed.

(** Python's answers on a few slices of "abcdef". *)
Example slice_inside : slice (of_string "abcdef") 1 4 = of_string "bcd".
Proof. reflexivity. Qed.

Example slice_past_end : slice (of_string "abcdef") 4 20 = of_string "ef".
Proof. reflexivity. Qed.

Example slice_negative : slice (of_string "abcdef") (-4) (-1) = of_string "cde".
Proof. reflexivity. Qed.

Example slice_negative_to_zero : slice (of_string "abcdef") (-2) 0 = [].
Proof. reflexivity. Qed.

Example rfind_example :
  rfind 46 (of_string "a.b.c") = 3 ∧ rfind 33 (of_string "a.b.c") = -1.
Proof. split; reflexivity. Qed.

Lemma slice_take_drop {A} (s : list A) a b :
  0 ≤ a → a ≤ b → b ≤ Z.of_nat (length s) →
  slice s a b = take (Z.to_nat (b - a)) (drop (Z.to_nat a) s).
Proof.
  intros. unfold slice. by rewrite !clamp_index_id by lia.
Qed.

Lemma length_slice {A} (s : list A) a b :
  0 ≤ a → a ≤ b → b ≤ Z.of_nat (length s) →
  Z.of_nat (length (slice s a b)) = b - a.
Proof.
  intros. rewrite slice_take_drop by lia.
  rewrite length_take, length_drop. lia.
Qed.

(** A slice is never longer than the distance between its bounds,
    wherever they lie. *)
Lemma length_slice_le {A} (s : list A) a b :
  a ≤ b → Z.of_nat (length (slice s a b)) ≤ b - a.
Proof.
  intros. unfold slice. rewrite length_take, length_drop.
  unfold clamp_index.
  destruct (Z.ltb_spec a 0), (Z.ltb_spec b 0); lia.
Qed.

Lemma slice_all {A} (s : list A) a :
  0 ≤ a ≤ Z.of_nat (length s) →
  slice s a (Z.of_nat (length s)) = drop (Z.to_nat a) s.
Proof.
  intros. rewrite slice_take_drop by lia.
  apply take_ge. rewrite length_drop. lia.
Qed.

Lemma elem_of_slice {A} (s : list A) a b x : x ∈ slice s a b → x ∈ s.
Proof.
  unfold slice. intros Hx.
  apply elem_of_take in Hx as (i & Hi & _).
  rewrite lookup_drop in Hi. by eapply list_elem_of_lookup_2.
Qed.

Lemma elem_of_lstrip s x : x ∈ lstrip s → x ∈ s.
Proof.
  induction s as [|c s IH]; simpl; [done|].
  destruct (isspace c); [|done]. intros. right. auto.
Qed.

Lemma elem_of_strip s x : x ∈ strip s → x ∈ s.
Proof.
  unfold strip, rstrip. rewrite elem_of_reverse. intros Hx.
  apply elem_of_lstrip in Hx. rewrite elem_of_reverse in Hx.
  by apply elem_of_lstrip.
Qed.

Lemma rfind_range c s : -1 ≤ rfind c s < Z.of_nat (length s).
Proof.
  induction s as [|x s IH]; simpl; [lia|].
  destruct (Z.leb_spec 0 (rfind c s)); [lia|].
  destruct (x =? c)%N; lia.
Qed.

Lemma rfind_not_elem c s : c ∉ s → rfind c s = -1.
Proof.
  induction s as [|x s IH]; simpl; [done|].
  intros Hc. apply not_elem_of_cons in Hc as [Hne Hc].
  rewrite (IH Hc). simpl.
  destruct (N.eqb_spec x c); congruence.
Qed.

(** [rfind] returns the position of an occurrence, and no occurrence
    lies after it. *)
Lemma rfind_last c s i :
  rfind c s = i → 0 ≤ i →
  s !! Z.to_nat i = Some c
  ∧ ∀ j, (Z.to_nat i < j)%nat → s !! j ≠ Some c.
Proof.
  revert i. induction s as [|x s IH]; simpl; intros i Hi Hpos; [lia|].
  destruct (Z.leb_spec 0 (rfind c s)) as [Hr|Hr].
  - destruct (IH _ eq_refl Hr) as [Hat Hafter].
    subst i. replace (Z.to_nat (rfind c s + 1)) with (S (Z.to_nat (rfind c s))) by lia.
    split; [done|]. intros [|j] Hj; [lia|]. simpl. apply Hafter. lia.
  - destruct (N.eqb_spec x c); [|lia]. subst. split; [done|].
    intros [|j] Hj; [lia|]. simpl. intros Hin.
    apply list_elem_of_lookup_2 in Hin.
    pose proof (rfind_range c s).
    destruct (decide (c ∈ s)) as [_|Hn]; [|done].
    clear -Hr Hin. induction s as [|y s IH]; [by apply elem_of_nil in Hin|].
    simpl in Hr. destruct (Z.leb_spec 0 (rfind c s)); [lia|].
    destruct (N.eqb_spec y c); [lia|].
    apply elem_of_cons in Hin as [->|Hin]; [done|]. by apply IH.
Qed.

(** [strip] removes nothing from a string it has already trimmed. *)
Lemma lstrip_idemp s : lstrip (lstrip s) = lstrip s.
Proof.
  induction s as [|c s IH]; simpl; [done|].
  destruct (isspace c) eqn:Hc; [done|]. simpl. by rewrite Hc.
Qed.

Lemma lstrip_head s :
  lstrip s = [] ∨ ∃ c s', lstrip s = c :: s' ∧ isspace c = false.
Proof.
  induction s as [|c s IH]; simpl; [by left|].
  destruct (isspace c) eqn:Hc; [done|]. right. eauto.
Qed.

Lemma lstrip_app_nonspace l c k :
  isspace c = false → lstrip (l ++ c :: k) = lstrip l ++ c :: k.
Proof.
  intros Hc. induction l as [|x l IH]; simpl; [by rewrite Hc|].
  by destruct (isspace x).
Qed.

Lemma rstrip_cons_nonspace c s :
  isspace c = false → rstrip (c :: s) = c :: rstrip s.
Proof.
  intros Hc. unfold rstrip. rewrite reverse_cons.
  rewrite lstrip_app_nonspace by done.
  by rewrite reverse_app, reverse_singleton.
Qed.

Lemma rstrip_idemp s : rstrip (rstrip s) = rstrip s.
Proof. unfold rstrip. by rewrite reverse_involutive, lstrip_idemp. Qed.

Lemma strip_idemp s : strip (strip s) = strip s.
Proof.
  unfold strip. destruct (lstrip_head s) as [->|(c & s' & -> & Hc)]; [done|].
  rewrite rstrip_cons_nonspace by done. simpl. rewrite Hc.
  by rewrite rstrip_cons_nonspace, rstrip_idemp.
Qed.

End pystr_facts.

(** ** Segmentation engine *)

Module text_processing_facts.
Import pystr pystr_facts config text_processing.

Lemma sub_ws_plain b s : only_plain_spaces (sub_ws b s).
Proof.
  revert b. induction s as [|x s IH]; intros b c; simpl.
  - by intros ?%elem_of_nil.
  - destruct (isspace x) eqn:Hx.
    + destruct b; [apply IH|].
      intros [->|Hc]%elem_of_cons; [done|]. by apply (IH true).
    + intros [->|Hc]%elem_of_cons; [congruence|]. by apply (IH false).
Qed.

Lemma sub_ws_head b s :
  match sub_ws b s with
  | [] => True
  | d :: _ => b = true → isspace d = false
  end.
Proof.
  revert b. induction s as [|x s IH]; intros b; simpl; [done|].
  destruct (isspace x) eqn:Hx.
  - destruct b; [apply IH|done].
  - done.
Qed.

Lemma sub_ws_single b s : single_spaced (sub_ws b s).
Proof.
  revert b. induction s as [|x s IH]; intros b; simpl; [done|].
  destruct (isspace x) eqn:Hx.
  - destruct b; [apply IH|]. simpl. split; [|apply IH].
    pose proof (sub_ws_head true s) as Hh.
    destruct (sub_ws true s); [done|]. intros [_ Hd]. rewrite Hh in Hd; done.
  - simpl. split; [|apply IH].
    destruct (sub_ws false s); [done|]. intros [Hc _]. congruence.
Qed.

Lemma Qltb_lt a b : Qltb a b = true ↔ (a < b)%Q.
Proof.
  unfold Qltb. rewrite negb_true_iff, <-not_true_iff_false, Qle_bool_iff.
  split; [apply Qnot_le_lt|apply Qlt_not_le].
Qed.

(** *** One run of the loop body *)

Lemma best_split_point_range area ov :
  best_split_point area ov = -1
  ∨ ov < best_split_point area ov < Z.of_nat (length area).
Proof.
  unfold best_split_point.
  pose proof (rfind_range 46 area). pose proof (rfind_range 63 area).
  pose proof (rfind_range 33 area). pose proof (rfind_range 10 area).
  set (lse := Z.max _ _) in *.
  destruct (Z.ltb_spec ov lse), (Z.ltb_spec ov (rfind 10 area)); simpl;
    repeat match goal with |- context [ ?a <? ?b ] => destruct (Z.ltb_spec a b) end;
    lia.
Qed.

Lemma chunk_step_window t cs ov start :
  chunk_step t cs ov start
  = (strip (slice t start (window_end t cs ov start)),
     if Z.min (start + cs) (Z.of_nat (length t)) <? Z.of_nat (length t)
     then window_end t cs ov start - ov
     else window_end t cs ov start).
Proof.
  unfold chunk_step, window_end.
  destruct (_ <? Z.of_nat (length t)); [|done].
  by destruct (negb _).
Qed.

(** Inside the text, a window that does not reach the end is wider than
    the overlap, no wider than [cs], and the cursor moves to [ov]
    characters before its end. *)
Lemma chunk_step_inner t cs ov start :
  0 ≤ ov < cs → 0 ≤ start → start + cs < Z.of_nat (length t) →
  ov < window_end t cs ov start - start ≤ cs
  ∧ (chunk_step t cs ov start).2 = window_end t cs ov start - ov.
Proof.
  intros Hov Hs Hlt. rewrite chunk_step_window. simpl.
  unfold window_end. rewrite Z.min_l by lia.
  destruct (Z.ltb_spec (start + cs) (Z.of_nat (length t))); [|lia].
  split; [|done].
  destruct (best_split_point_range (slice t start (start + cs)) ov) as [->|Hb];
    simpl; [lia|].
  rewrite length_slice in Hb by lia.
  destruct (Z.eqb_spec (best_split_point (slice t start (start + cs)) ov) (-1));
    simpl; lia.
Qed.

(** The window that reaches the end of the text stops there, and so does
    the cursor. *)
Lemma chunk_step_final t cs ov start :
  Z.of_nat (length t) ≤ start + cs →
  window_end t cs ov start = Z.of_nat (length t)
  ∧ (chunk_step t cs ov start).2 = Z.of_nat (length t).
Proof.
  intros Hge. rewrite chunk_step_window. simpl.
  unfold window_end. rewrite Z.min_r by lia.
  destruct (Z.ltb_spec (Z.of_nat (length t)) (Z.of_nat (length t))); [lia|done].
Qed.

(** With [cs ≤ ov] a window that does not reach the end never finds a
    split point, and the cursor does not advance. *)
Lemma chunk_step_stuck t cs ov start :
  0 ≤ cs ≤ ov → start + cs < Z.of_nat (length t) →
  (chunk_step t cs ov start).2 = start + cs - ov.
Proof.
  intros Hov Hlt. unfold chunk_step. rewrite Z.min_l by lia.
  destruct (Z.ltb_spec (start + cs) (Z.of_nat (length t))); [|lia].
  destruct (best_split_point_range (slice t start (start + cs)) ov) as [->|Hb];
    [done|].
  pose proof (length_slice_le t start (start + cs)). lia.
Qed.

(** *** The loop *)

Lemma chunk_loop_windows fuel t cs ov start chunks :
  chunk_loop fuel t cs ov start chunks
  = (λ ws, chunks ++ (window_chunk t <$> ws)) <$> windows_from fuel t cs ov start.
Proof.
  revert start chunks.
  induction fuel as [|fuel IH]; intros start chunks; simpl; [done|].
  destruct (start <? _); simpl; [|by rewrite app_nil_r].
  rewrite chunk_step_window. simpl.
  set (start' := if _ <? _ then _ else _).
  destruct (_ <=? start'); simpl; [done|].
  rewrite IH. destruct (windows_from fuel t cs ov start'); simpl; [|done].
  by rewrite <-app_assoc.
Qed.

Lemma windows_from_chain fuel t cs ov start ws :
  0 ≤ ov < cs → 0 ≤ start < Z.of_nat (length t) →
  windows_from fuel t cs ov start = Some ws →
  chain ov (Z.of_nat (length t)) start ws.
Proof.
  intros Hov. revert start ws.
  induction fuel as [|fuel IH]; intros start ws Hs; simpl; [done|].
  destruct (Z.ltb_spec start (Z.of_nat (length t))); [|lia].
  destruct (Z_lt_le_dec (start + cs) (Z.of_nat (length t))) as [Hin|Hfin].
  - destruct (chunk_step_inner t cs ov start) as [Hw ->]; [lia..|].
    destruct (Z.leb_spec (Z.of_nat (length t)) (window_end t cs ov start - ov));
      [lia|].
    destruct (windows_from fuel _ _ _ _) as [ws'|] eqn:Hws'; [|done].
    intros [= <-]. apply chain_cons; [lia..|].
    apply IH; [lia|done].
  - destruct (chunk_step_final t cs ov start) as [-> ->]; [lia|].
    rewrite Z.leb_refl. intros [= <-]. by apply chain_last.
Qed.

(** The cursor gains at least one character per iteration, so [fuel]
    larger than the distance to the end is enough. *)
Lemma windows_from_terminates fuel t cs ov start :
  0 ≤ ov < cs → 0 ≤ start ≤ Z.of_nat (length t) →
  Z.of_nat (length t) - start < Z.of_nat fuel →
  is_Some (windows_from fuel t cs ov start).
Proof.
  intros Hov. revert start.
  induction fuel as [|fuel IH]; intros start Hs Hfuel; simpl; [lia|].
  destruct (Z.ltb_spec start (Z.of_nat (length t))); [|done].
  destruct (Z_lt_le_dec (start + cs) (Z.of_nat (length t))) as [Hin|Hfin].
  - destruct (chunk_step_inner t cs ov start) as [Hw ->]; [lia..|].
    destruct (Z.leb_spec (Z.of_nat (length t)) (window_end t cs ov start - ov));
      [done|].
    destruct (IH (window_end t cs ov start - ov)) as [ws ->]; [lia..|done].
  - destruct (chunk_step_final t cs ov start) as [_ ->]; [lia|].
    by rewrite Z.leb_refl.
Qed.

(** With [cs ≤ ov], from a cursor whose window does not reach the end
    the loop never exits. *)
Lemma chunk_loop_diverges fuel t cs ov start chunks :
  0 ≤ cs ≤ ov → start + cs < Z.of_nat (length t) →
  chunk_loop fuel t cs ov start chunks = None.
Proof.
  intros Hov. revert start chunks.
  induction fuel as [|fuel IH]; intros start chunks Hlt; simpl; [done|].
  destruct (Z.ltb_spec start (Z.of_nat (length t))); [|lia].
  pose proof (chunk_step_stuck t cs ov start Hov Hlt) as Hstep.
  destruct (chunk_step t cs ov start) as [chunk start']. simpl in Hstep. subst.
  destruct (Z.leb_spec (Z.of_nat (length t)) (start + cs - ov)); [lia|].
  apply IH. lia.
Qed.

(** *** Windows cover the text *)

Lemma chain_nonempty ov len a ws : chain ov len a ws → ∃ e ws', ws = (a, e) :: ws'.
Proof. destruct 1; eauto. Qed.

Lemma chain_head_wide ov len a e ws :
  chain ov len a ((a, e) :: ws) →
  0 ≤ a ∧ e ≤ len ∧ (e = len ∧ a < len ∨ ov < e - a).
Proof. inversion 1; subst; lia. Qed.

Lemma merge_overlap_chain (t : text) ov a ws :
  0 ≤ ov → chain ov (Z.of_nat (length t)) a ws →
  merge_overlap ov (window_text t <$> ws) = drop (Z.to_nat a) t.
Proof.
  intros Hov Hc. induction Hc as [a Ha|a e ws Ha Hw He Hc IH].
  - simpl. unfold window_text. simpl. rewrite app_nil_r. by apply slice_all; lia.
  - destruct (chain_nonempty _ _ _ _ Hc) as (e' & ws' & ->).
    apply chain_head_wide in Hc as (_ & He' & Hw').
    rewrite !fmap_cons in *. cbn [merge_overlap] in *.
    rewrite fmap_cons. cbn [concat].
    assert (Z.to_nat ov ≤ length (window_text t ((e - ov)%Z, e')))%nat as Hlen.
    { unfold window_text. simpl.
      apply Nat2Z.inj_le. rewrite length_slice by lia. lia. }
    rewrite <-drop_app_le by done. rewrite IH, drop_drop.
    replace (Z.to_nat (e - ov) + Z.to_nat ov)%nat with (Z.to_nat e) by lia.
    unfold window_text. simpl. rewrite slice_take_drop by lia.
    rewrite <-(take_drop (Z.to_nat (e - a)) (drop (Z.to_nat a) t)) at 2.
    rewrite drop_drop. do 2 f_equal. lia.
Qed.

Section with_unicode.
Variable unicode_alnum : char → bool.

Local Abbreviation clean_text := (clean_text unicode_alnum).
Local Abbreviation split_into_chunks := (split_into_chunks unicode_alnum).
Local Abbreviation split_into_chunks_sentence_only :=
  (split_into_chunks_sentence_only unicode_alnum).

Lemma elem_of_clean_text t c : c ∈ clean_text t → c ∈ sub_ws false t.
Proof.
  unfold text_processing.clean_text. intros Hc%elem_of_strip.
  apply list_elem_of_In, filter_In in Hc as [Hc _]. by apply list_elem_of_In.
Qed.

Lemma clean_text_plain t : only_plain_spaces (clean_text t).
Proof. intros c Hc. apply (sub_ws_plain false t), elem_of_clean_text, Hc. Qed.

Lemma clean_text_no_newline t : 10%N ∉ clean_text t.
Proof. intros Hc. by pose proof (clean_text_plain t _ Hc eq_refl). Qed.

Lemma best_split_point_no_newline area ov :
  10%N ∉ area →
  best_split_point area ov = best_split_point_sentence_only area ov.
Proof.
  intros Hn. unfold best_split_point, best_split_point_sentence_only.
  rewrite (rfind_not_elem _ _ Hn).
  pose proof (rfind_range 46 area). pose proof (rfind_range 63 area).
  pose proof (rfind_range 33 area).
  set (lse := Z.max _ _) in *.
  destruct (Z.ltb_spec ov (-1)); simpl; [|done].
  destruct (Z.ltb_spec ov lse); [|done].
  destruct (Z.ltb_spec lse (-1)); [lia|done].
Qed.

Lemma chunk_step_no_newline t cs ov start :
  10%N ∉ t →
  chunk_step t cs ov start = chunk_step_sentence_only t cs ov start.
Proof.
  intros Hn. unfold chunk_step, chunk_step_sentence_only.
  rewrite best_split_point_no_newline; [done|].
  intros Hin%elem_of_slice. done.
Qed.

Lemma chunk_loop_no_newline fuel t cs ov start chunks :
  10%N ∉ t →
  chunk_loop fuel t cs ov start chunks
  = chunk_loop_sentence_only fuel t cs ov start chunks.
Proof.
  intros Hn. revert start chunks.
  induction fuel as [|fuel IH]; intros start chunks; simpl; [done|].
  rewrite chunk_step_no_newline by done.
  destruct (start <? _); [|done].
  destruct (chunk_step_sentence_only t cs ov start) as [chunk start'].
  destruct (_ <=? start'); [done|]. apply IH.
Qed.

End with_unicode.

End text_processing_facts.

(** ** Trimmed windows *)

Module trimming.
Import pystr text_processing pystr_facts text_processing_facts.

Lemma lstrip_blank l : Forall (λ c, isspace c = true) l → lstrip l = [].
Proof. induction 1 as [|c l Hc _ IH]; simpl; [done|]. by rewrite Hc. Qed.

Lemma rstrip_blank l : Forall (λ c, isspace c = true) l → rstrip l = [].
Proof.
  intros Hl. unfold rstrip. rewrite lstrip_blank; [done|].
  by apply Forall_reverse.
Qed.

Lemma lstrip_length_le l : (length (lstrip l) ≤ length l)%nat.
Proof.
  induction l as [|c l IH]; simpl; [done|]. destruct (isspace c); simpl; lia.
Qed.

Lemma rstrip_app_nonspace l x k :
  isspace x = false → rstrip (l ++ x :: k) = l ++ x :: rstrip k.
Proof.
  intros Hx. unfold rstrip.
  rewrite reverse_app, reverse_cons, <-app_assoc. simpl.
  rewrite lstrip_app_nonspace by done.
  rewrite reverse_app, reverse_cons, reverse_involutive.
  by rewrite <-app_assoc.
Qed.

(** A list that is not all whitespace splits at its last character that
    is not whitespace. *)
Lemma last_nonspace_split l :
  ¬ Forall (λ c, isspace c = true) l →
  ∃ l1 x l2, l = l1 ++ x :: l2 ∧ isspace x = false
             ∧ Forall (λ c, isspace c = true) l2.
Proof.
  induction l as [|y l IH] using rev_ind; intros Hl.
  { destruct Hl. constructor. }
  destruct (isspace y) eqn:Hy.
  - destruct IH as (l1 & x & l2 & -> & Hx & Hl2).
    { intros Hall. apply Hl. apply Forall_app. split; [done|]. by constructor. }
    exists l1, x, (l2 ++ [y]). rewrite <-app_assoc. split; [done|].
    split; [done|]. apply Forall_app. split; [done|]. by constructor.
  - exists l, y, []. by repeat split.
Qed.

Lemma leading_blanks_app run post :
  Forall (λ c, isspace c = true) run →
  (length run ≤ leading_blanks (run ++ post))%nat.
Proof.
  induction 1 as [|c run Hc _ IH]; simpl; [lia|]. rewrite Hc. lia.
Qed.

Lemma leading_blanks_le_max t : (leading_blanks t ≤ max_blank_run t)%nat.
Proof. destruct t; [done|]. cbn [max_blank_run]. lia. Qed.

(** A run of whitespace inside [t] is no longer than [max_blank_run t]. *)
Lemma blank_run_bound pre run post :
  Forall (λ c, isspace c = true) run →
  (length run ≤ max_blank_run (pre ++ run ++ post))%nat.
Proof.
  intros Hrun. induction pre as [|c pre IH].
  - simpl. etrans; [by apply leading_blanks_app|apply leading_blanks_le_max].
  - change ((c :: pre) ++ run ++ post) with (c :: (pre ++ run ++ post)).
    cbn [max_blank_run]. lia.
Qed.

Lemma drop_slice {A} (T : list A) a b :
  0 ≤ a → a ≤ b → b ≤ Z.of_nat (length T) →
  drop (Z.to_nat a) T = slice T a b ++ drop (Z.to_nat b) T.
Proof.
  intros. rewrite slice_take_drop by lia.
  replace (Z.to_nat b) with (Z.to_nat a + Z.to_nat (b - a))%nat by lia.
  rewrite <-drop_drop. by rewrite take_drop.
Qed.

Lemma slice_app {A} (T : list A) a b c :
  0 ≤ a → a ≤ b → b ≤ c → c ≤ Z.of_nat (length T) →
  slice T a c = slice T a b ++ slice T b c.
Proof.
  intros. rewrite !slice_take_drop by lia.
  replace (Z.to_nat b) with (Z.to_nat a + Z.to_nat (b - a))%nat by lia.
  rewrite <-drop_drop, take_take_drop. f_equal. lia.
Qed.

(** A text that [strip] leaves alone starts and ends with a character
    that is not whitespace. *)
Lemma stripped_ends T :
  strip T = T → T ≠ [] →
  lstrip T = T ∧ ∃ T' y, T = T' ++ [y] ∧ isspace y = false.
Proof.
  intros Hs HT. split.
  - unfold strip in Hs. destruct (lstrip_head T) as [Hnil|(c & s' & Hl & Hc)].
    + rewrite Hnil in Hs. by destruct HT.
    + rewrite Hl, rstrip_cons_nonspace in Hs by done. rewrite <-Hs. simpl.
      by rewrite Hc.
  - unfold strip, rstrip in Hs.
    destruct (lstrip_head (reverse (lstrip T))) as [Hnil|(c & s' & Hl & Hc)].
    + rewrite Hnil in Hs. by destruct HT.
    + rewrite Hl, reverse_cons in Hs. by exists (reverse s'), c.
Qed.

Lemma filter_nonempty_id (l : list text) :
  Forall (λ c, c ≠ []) l → List.filter nonempty l = l.
Proof.
  induction 1 as [|c l Hc _ IH]; simpl; [done|].
  destruct c; [done|]. simpl. by rewrite IH.
Qed.

(** In a chain of more than one window every window is wider than the
    overlap. *)
Lemma chain_wide ov len a ws :
  chain ov len a ws →
  length ws ≠ 1%nat → Forall (λ w : Z * Z, ov < w.2 - w.1) ws.
Proof.
  induction 1 as [a Ha|a e ws Ha Hw He Hc IH]; [done|]. intros _.
  constructor; [done|].
  inversion Hc as [a' Ha'|a' e' ws' Ha' Hw' He' Hc']; subst.
  - constructor; [simpl; lia|constructor].
  - apply IH. destruct (chain_nonempty _ _ _ _ Hc') as (? & ? & ->).
    simpl. lia.
Qed.

(** The cursor gains at least one character per iteration and the loop
    exits with the iteration that reaches the end, so as many iterations
    as there are characters from the cursor on are enough. *)
Lemma windows_from_returns fuel t cs ov start :
  0 ≤ ov < cs → 0 ≤ start < Z.of_nat (length t) →
  Z.of_nat (length t) - start ≤ Z.of_nat fuel →
  is_Some (windows_from fuel t cs ov start).
Proof.
  intros Hov. revert start.
  induction fuel as [|fuel IH]; intros start Hs Hfuel; simpl; [lia|].
  destruct (Z.ltb_spec start (Z.of_nat (length t))); [|lia].
  destruct (Z_lt_le_dec (start + cs) (Z.of_nat (length t))) as [Hin|Hfin].
  - destruct (chunk_step_inner t cs ov start) as [Hw ->]; [lia..|].
    destruct (Z.leb_spec (Z.of_nat (length t)) (window_end t cs ov start - ov));
      [done|].
    destruct (IH (window_end t cs ov start - ov)) as [ws ->]; [lia..|done].
  - destruct (chunk_step_final t cs ov start) as [_ ->]; [lia|].
    by rewrite Z.leb_refl.
Qed.

(** Chunks of a text without a run of [ov] whitespace characters: no
    window is blank, and the chunks put together after removing at most
    [ov] leading characters from each later one give the text from the
    first character of the first chunk on. *)
Lemma chunks_reassemble (T : text) ov a ws :
  0 ≤ ov →
  (∃ T' y, T = T' ++ [y] ∧ isspace y = false) →
  Z.of_nat (max_blank_run T) < ov →
  chain ov (Z.of_nat (length T)) a ws →
  ∃ os,
    length os = pred (length ws)
    ∧ Forall (λ o, Z.of_nat o ≤ ov) os
    ∧ Forall (λ c, c ≠ []) (window_chunk T <$> ws)
    ∧ reassemble os (window_chunk T <$> ws) = lstrip (drop (Z.to_nat a) T).
Proof.
  intros Hov (T' & y & HT & Hy) Hrun Hc.
  induction Hc as [a Ha|a e ws Ha Hw He Hc IH].
  - exists []. unfold window_chunk, window_text. simpl.
    rewrite slice_all by lia. rewrite app_nil_r.
    assert (drop (Z.to_nat a) T = drop (Z.to_nat a) T' ++ [y]) as Hd.
    { rewrite HT. rewrite drop_app_le; [done|].
      rewrite HT, length_app in Ha. simpl in Ha. lia. }
    assert (strip (drop (Z.to_nat a) T) = lstrip (drop (Z.to_nat a) T)) as Hs.
    { unfold strip. rewrite Hd. rewrite lstrip_app_nonspace by done.
      by rewrite rstrip_app_nonspace by done. }
    split; [done|]. split; [done|]. split; [|done].
    constructor; [|constructor]. rewrite Hs, Hd, lstrip_app_nonspace by done.
    intros Hnil. by apply app_eq_nil in Hnil as [_ ?].
  - destruct IH as (os & Hlen & Hos & Hne & Hre).
    destruct (chain_nonempty _ _ _ _ Hc) as (e' & ws' & ->).
    apply chain_head_wide in Hc as (_ & He' & Hw').
    assert (e ≤ e') as Hee by lia.
    set (W' := slice T a (e - ov)). set (O := slice T (e - ov) e).
    set (Y := slice T e e'). set (D := drop (Z.to_nat e) T).
    assert (slice T a e = W' ++ O) as HW by (apply slice_app; lia).
    assert (slice T (e - ov) e' = O ++ Y) as HW1 by (apply slice_app; lia).
    assert (drop (Z.to_nat (e - ov)) T = O ++ D) as HdO
      by (apply drop_slice; lia).
    assert (drop (Z.to_nat a) T = W' ++ O ++ D) as Hda.
    { rewrite (drop_slice T a e) by lia. by rewrite HW, <-app_assoc. }
    assert (Z.of_nat (length O) = ov) as HlO.
    { subst O. rewrite length_slice by lia. lia. }
    assert (¬ Forall (λ c, isspace c = true) O) as HO.
    { intros Hall.
      pose proof (blank_run_bound (take (Z.to_nat (e - ov)) T) O D Hall) as Hb.
      rewrite <-HdO, take_drop in Hb. lia. }
    destruct (last_nonspace_split O HO) as (O1 & x & O2 & HOeq & Hx & HO2).
    set (L := lstrip (W' ++ O1)).
    assert (window_chunk T (a, e) = L ++ [x]) as Hc0.
    { unfold window_chunk, window_text, strip. simpl. rewrite HW, HOeq.
      rewrite app_assoc, lstrip_app_nonspace by done.
      rewrite rstrip_app_nonspace by done. by rewrite rstrip_blank. }
    assert (window_chunk T ((e - ov)%Z, e')
            = (lstrip O1 ++ [x]) ++ rstrip (O2 ++ Y)) as Hc1.
    { unfold window_chunk, window_text, strip. simpl. rewrite HW1, HOeq.
      rewrite <-app_assoc. simpl.
      rewrite lstrip_app_nonspace by done.
      rewrite rstrip_app_nonspace by done. by rewrite <-app_assoc. }
    rewrite !fmap_cons in *. rewrite Hc0, Hc1 in *.
    cbn [reassemble] in Hre.
    set (R := concat (zip_with drop os (window_chunk T <$> ws'))) in *.
    rewrite HdO, HOeq in Hre. rewrite <-!app_assoc in Hre. simpl in Hre.
    rewrite lstrip_app_nonspace in Hre by done.
    apply app_inv_head in Hre. injection Hre as Hre.
    exists (length (lstrip O1 ++ [x]) :: os).
    split; [simpl in *; lia|]. split.
    { constructor; [|done]. rewrite length_app. simpl.
      pose proof (lstrip_length_le O1). rewrite HOeq, length_app in HlO.
      simpl in HlO. lia. }
    split.
    { constructor; [|by inversion Hne].
      intros Hnil. by apply app_eq_nil in Hnil as [_ ?]. }
    cbn [reassemble zip_with concat]. rewrite drop_app_length. fold R.
    rewrite Hda, HOeq. rewrite Hre.
    rewrite <-!app_assoc. simpl.
    by rewrite (app_assoc W' O1), lstrip_app_nonspace by done.
Qed.

End trimming.

Module segmentation.
Import pystr pystr_facts config text_processing text_processing_facts inputs.

Section with_unicode.
Variable unicode_alnum : char → bool.

Local Abbreviation clean_text := (clean_text unicode_alnum).
Local Abbreviation estimate_text_density := (estimate_text_density unicode_alnum).
Local Abbreviation split_into_chunks := (split_into_chunks unicode_alnum).
Local Abbreviation split_into_chunks_sentence_only :=
  (split_into_chunks_sentence_only unicode_alnum).

(** With [chunk_size ≤ chunk_overlap], a text whose normalized form is
    longer than [chunk_size] makes [split_into_chunks] loop for ever. *)
Lemma split_into_chunks_diverges cfg fuel t cs ov :
  0 ≤ cs ≤ ov → cs < Z.of_nat (length (clean_text t)) →
  split_into_chunks cfg fuel t (Some cs) ov = None.
Proof.
  intros Hov Hlen. unfold text_processing.split_into_chunks.
  destruct (Z.leb_spec (Z.of_nat (length (clean_text t))) cs); [lia|].
  rewrite chunk_loop_diverges; [done|lia..].
Qed.

(** With [chunk_overlap < chunk_size], [split_into_chunks] returns, after
    at most as many iterations as the normalized text has characters. *)
Lemma split_into_chunks_terminates cfg t cs ov :
  0 ≤ ov < cs →
  is_Some (split_into_chunks cfg (S (length (clean_text t))) t (Some cs) ov).
Proof.
  intros Hov. unfold text_processing.split_into_chunks.
  destruct (_ <=? cs); [done|].
  rewrite chunk_loop_windows.
  destruct (windows_from_terminates (S (length (clean_text t))) (clean_text t) cs ov 0)
    as [ws ->]; [lia..|done].
Qed.

(** The same with the exact bound: as many iterations as the normalized
    text has characters are enough. *)
Lemma split_into_chunks_returns cfg fuel t cs ov :
  0 ≤ ov < cs → (length (clean_text t) ≤ fuel)%nat →
  is_Some (split_into_chunks cfg fuel t (Some cs) ov).
Proof.
  intros Hov Hfuel. unfold text_processing.split_into_chunks.
  destruct (Z.leb_spec (Z.of_nat (length (clean_text t))) cs); [done|].
  rewrite chunk_loop_windows.
  destruct (trimming.windows_from_returns fuel (clean_text t) cs ov 0)
    as [ws ->]; [lia..|done].
Qed.

(** C8. When the normalized text is no longer than the chunk size,
    [split_into_chunks] returns the normalized text as its only chunk, and
    the empty list when the normalized text is empty; no loop iteration
    is needed. *)
Theorem split_into_chunks_short cfg fuel t chunk_size ov :
  Z.of_nat (length (clean_text t))
    ≤ default (estimate_text_density cfg (clean_text t)) chunk_size →
  split_into_chunks cfg fuel t chunk_size ov
  = Some (match clean_text t with [] => [] | _ => [clean_text t] end).
Proof.
  intros Hlen. unfold text_processing.split_into_chunks.
  destruct chunk_size as [cs|]; simpl in *.
  - destruct (Z.leb_spec (Z.of_nat (length (clean_text t))) cs); [|lia].
    by destruct (clean_text t).
  - destruct (Z.leb_spec (Z.of_nat (length (clean_text t)))
                (estimate_text_density cfg (clean_text t))); [|lia].
    by destruct (clean_text t).
Qed.

(** C10. The first substitution of [clean_text] leaves the plain space as
    the only whitespace character and never two in a row, so the
    normalized text holds no newline and [rfind] of a newline fails in
    every slice of it. Hence [split_into_chunks] equals the variant
    without the newline preference, for every input and all fuel, and the
    end of every window that stops short of the text is either one past
    the last sentence terminator of the window, when that one lies beyond
    the overlap, or exactly [chunk_size] characters after the cursor. *)
Theorem newline_preference_is_dead cfg fuel t chunk_size ov :
  only_plain_spaces (sub_ws false t) ∧ single_spaced (sub_ws false t)
  ∧ (10%N ∉ clean_text t)
  ∧ (∀ a b, rfind 10 (slice (clean_text t) a b) = -1)
  ∧ split_into_chunks cfg fuel t chunk_size ov
    = split_into_chunks_sentence_only cfg fuel t chunk_size ov
  ∧ (∀ cs start,
      let len := Z.of_nat (length (clean_text t)) in
      let area := slice (clean_text t) start (Z.min (start + cs) len) in
      let last_sentence_end_char :=
        Z.max (Z.max (rfind 46 area) (rfind 63 area)) (rfind 33 area) in
      let boundary :=
        if start + cs <? len then
          if (ov <? last_sentence_end_char) && negb (last_sentence_end_char =? -1)
          then start + last_sentence_end_char + 1
          else start + cs
        else len in
      chunk_step (clean_text t) cs ov start
      = (strip (slice (clean_text t) start boundary),
         if start + cs <? len then boundary - ov else boundary)).
Proof.
  split; [apply sub_ws_plain|]. split; [apply sub_ws_single|].
  split; [apply clean_text_no_newline|].
  split.
  { intros a b. apply rfind_not_elem. intros Hin%elem_of_slice.
    by apply clean_text_no_newline in Hin. }
  split.
  { unfold text_processing.split_into_chunks,
      text_processing.split_into_chunks_sentence_only.
    destruct (_ <=? _); [done|].
    by rewrite chunk_loop_no_newline by apply clean_text_no_newline. }
  intros cs start. cbv zeta. rewrite chunk_step_window. unfold window_end.
  set (len := Z.of_nat (length (clean_text t))).
  destruct (Z.ltb_spec (start + cs) len).
  - rewrite !Z.min_l by lia.
    destruct (Z.ltb_spec (start + cs) len); [|lia].
    rewrite best_split_point_no_newline.
    2:{ intros Hin%elem_of_slice. by apply clean_text_no_newline in Hin. }
    unfold best_split_point_sentence_only.
    set (lse := Z.max _ _).
    destruct (Z.ltb_spec ov lse); simpl; [|done].
    by destruct (lse =? -1).
  - rewrite !Z.min_r by lia. by rewrite Z.ltb_irrefl.
Qed.

Lemma filter_nonempty_Forall (l : list text) :
  Forall (λ c, c ≠ []) (List.filter nonempty l).
Proof.
  apply Forall_forall. intros c Hc%list_elem_of_In%filter_In.
  destruct Hc as [_ Hc]. by destruct c.
Qed.

(** C2, amended. When the overlap is smaller than the chunk size,
    [split_into_chunks] returns within as many iterations as the normalized
    text has characters, and whenever it returns, every chunk is non-empty
    and the chunks are, in order, the trimmed non-empty contents of windows
    of the normalized text: the first window starts at 0, each next window
    starts exactly [ov] characters before the end of the previous one,
    every window but a lone one is wider than the overlap, and the last
    window ends where the text ends (an empty normalized text has no
    window and no chunk); concatenating the untrimmed windows with the
    overlap removed gives back the normalized text. When moreover
    the longest run of whitespace in the normalized text is shorter than
    the overlap, no window is blank, there is one chunk per window, and
    the chunks put together after removing at most [ov] leading characters
    from each chunk but the first give back the normalized text. *)
Theorem split_into_chunks_covers cfg t chunk_size ov :
  0 ≤ ov < default (estimate_text_density cfg (clean_text t)) chunk_size →
  (∀ fuel, (length (clean_text t) ≤ fuel)%nat →
     is_Some (split_into_chunks cfg fuel t chunk_size ov))
  ∧ ∀ fuel chunks,
      split_into_chunks cfg fuel t chunk_size ov = Some chunks →
      Forall (λ c, c ≠ []) chunks
      ∧ ∃ ws : list (Z * Z),
          chunks = List.filter nonempty (window_chunk (clean_text t) <$> ws)
          ∧ (ws = [] ∧ clean_text t = []
             ∨ chain ov (Z.of_nat (length (clean_text t))) 0 ws)
          ∧ (length ws ≠ 1%nat → Forall (λ w : Z * Z, ov < w.2 - w.1) ws)
          ∧ merge_overlap ov (window_text (clean_text t) <$> ws) = clean_text t
          ∧ (Z.of_nat (max_blank_run (clean_text t)) < ov →
             chunks = window_chunk (clean_text t) <$> ws
             ∧ reconstructs ov chunks (clean_text t)).
Proof.
  intros Hov. unfold text_processing.split_into_chunks.
  assert (default (estimate_text_density cfg (clean_text t)) chunk_size
          = match chunk_size with
            | Some c => c
            | None => estimate_text_density cfg (clean_text t)
            end) as Hcs by (by destruct chunk_size).
  rewrite Hcs in Hov. clear Hcs.
  set (cs := match chunk_size with Some c => c | None => _ end) in *.
  assert (strip (clean_text t) = clean_text t) as Hstrip
    by apply strip_idemp.
  set (T := clean_text t) in *.
  destruct (Z.leb_spec (Z.of_nat (length T)) cs) as [Hshort|Hlong].
  - split; [done|]. intros fuel chunks [= <-].
    destruct (decide (T = [])) as [HT|HT].
    + rewrite HT. simpl. split; [done|]. exists [].
      split; [done|]. split; [by left|]. split; [done|]. split; [done|].
      intros _. split; [done|]. by exists [].
    + assert (nonempty T = true) as Hne by (by destruct T).
      assert (0 < Z.of_nat (length T)) by (destruct T; [done|simpl; lia]).
      rewrite Hne. split; [by repeat constructor|].
      exists [(0, Z.of_nat (length T))]. simpl. unfold window_chunk, window_text.
      simpl. rewrite slice_all by lia.
      change (Z.to_nat 0) with 0%nat. rewrite drop_0.
      rewrite Hstrip, Hne, app_nil_r.
      split; [done|]. split; [right; apply chain_last; lia|].
      split; [done|]. split; [done|].
      intros _. split; [done|]. exists []. simpl. by rewrite app_nil_r.
  - assert (T ≠ []) as HT by (intros HT; rewrite HT in Hlong; simpl in Hlong; lia).
    split.
    + intros fuel Hfuel. rewrite chunk_loop_windows.
      destruct (trimming.windows_from_returns fuel T cs ov 0) as [ws ->];
        [lia..|done].
    + intros fuel chunks. rewrite chunk_loop_windows.
      destruct (windows_from fuel T cs ov 0) as [ws|] eqn:Hws; [|done].
      simpl. intros [= <-]. split; [apply filter_nonempty_Forall|].
      exists ws. split; [done|].
      assert (chain ov (Z.of_nat (length T)) 0 ws) as Hc
        by (eapply windows_from_chain; [done|lia|done]).
      split; [by right|].
      split; [by eapply trimming.chain_wide|].
      split; [by rewrite (merge_overlap_chain T ov 0 ws) by (done || lia)|].
      intros Hrun.
      destruct (trimming.stripped_ends T Hstrip HT) as [Hhead Hlast].
      destruct (trimming.chunks_reassemble T ov 0 ws) as (os & Hlen & Hos & Hne & Hre);
        [lia|done|done|done|].
      rewrite trimming.filter_nonempty_id by done. split; [done|].
      exists os. split; [by rewrite length_fmap|]. split; [done|].
      rewrite Hre. change (Z.to_nat 0) with 0%nat. by rewrite drop_0.
Qed.

(** C6. [estimate_text_density] is a total function of the text and the
    configured sizes. Its value is one of the three configured sizes: the
    medium size for the empty text; otherwise the large size when the
    average number of words per sentence exceeds 25 or the ratio of special
    characters is below 0.05; otherwise the small size when the average is
    below 10 or the ratio exceeds 0.15; otherwise the medium size. *)
Theorem estimate_text_density_table cfg t :
  let w := avg_words_per_sentence t in
  let r := special_char_ratio unicode_alnum t in
  estimate_text_density cfg t
    ∈ [small_chunk_size cfg; medium_chunk_size cfg; large_chunk_size cfg]
  ∧ (t = [] → estimate_text_density cfg t = medium_chunk_size cfg)
  ∧ (t ≠ [] → (25 < w ∨ r < 5 # 100)%Q →
     estimate_text_density cfg t = large_chunk_size cfg)
  ∧ (t ≠ [] → ¬ (25 < w ∨ r < 5 # 100)%Q → (w < 10 ∨ 15 # 100 < r)%Q →
     estimate_text_density cfg t = small_chunk_size cfg)
  ∧ (t ≠ [] → ¬ (25 < w ∨ r < 5 # 100)%Q → ¬ (w < 10 ∨ 15 # 100 < r)%Q →
     estimate_text_density cfg t = medium_chunk_size cfg).
Proof.
  intros w r.
  assert (t ≠ [] →
          estimate_text_density cfg t
          = if Qltb 25 w || Qltb r (5 # 100) then large_chunk_size cfg
            else if Qltb w 10 || Qltb (15 # 100) r then small_chunk_size cfg
            else medium_chunk_size cfg) as Hdef by (by destruct t).
  assert (t = [] → estimate_text_density cfg t = medium_chunk_size cfg)
    as Hnil by (by intros ->).
  pose proof (Qltb_lt 25 w) as H1. pose proof (Qltb_lt r (5 # 100)) as H2.
  pose proof (Qltb_lt w 10) as H3. pose proof (Qltb_lt (15 # 100) r) as H4.
  assert (∀ (b : bool) (P : Prop), (b = true ↔ P) → if b then P else ¬ P)
    as Hreflect.
  { intros [] P [Ha Hb]; [auto|]. intros HP. by apply Hb in HP. }
  apply Hreflect in H1, H2, H3, H4. clear Hreflect.
  generalize dependent (estimate_text_density cfg t). intros size Hdef Hnil.
  destruct (Qltb 25 w), (Qltb r (5 # 100)), (Qltb w 10), (Qltb (15 # 100) r);
    cbn [orb] in Hdef;
    (split; [destruct (decide (t = [])) as [E|E];
               [rewrite (Hnil E)|rewrite (Hdef E)]; rewrite !elem_of_cons; tauto|]);
    (split; [exact Hnil|]);
    repeat split; intros Hne; specialize (Hdef Hne); tauto.
Qed.

End with_unicode.

(** C1, failing input. With the small chunk size at the minimum of its
    slider (100) the density estimate of thirty short
    sentences is 100, equal to the default overlap, and the call that the
    ingestion makes for this text never returns: after the first run of the
    loop body the cursor is back at 0, and no amount of fuel reaches the
    exit. *)
Theorem split_into_chunks_hangs_at_slider_minimum fuel :
  estimate_text_density ascii_only slider_minimum short_sentences = 100
  ∧ snd (chunk_step (clean_text ascii_only short_sentences) 100 default_chunk_overlap 0) = 0
  ∧ split_into_chunks ascii_only slider_minimum fuel short_sentences
      (Some (estimate_text_density ascii_only slider_minimum short_sentences))
      default_chunk_overlap
    = None.
Proof.
  assert (estimate_text_density ascii_only slider_minimum short_sentences = 100)
    as Hest by (vm_compute; reflexivity).
  split; [done|]. split; [vm_compute; reflexivity|].
  rewrite Hest. apply split_into_chunks_diverges.
  - unfold default_chunk_overlap. lia.
  - vm_compute. reflexivity.
Qed.

(** C2, counterexample. With the default sizes, the text [symbol_run]
    normalizes to 1003 characters, of which 1001 are spaces between the two
    letters; the chunks returned are the two letters, and no removal of
    leading characters from the second one gives back the normalized
    text. *)
Lemma split_into_chunks_loses_whitespace :
  estimate_text_density ascii_only runtime_config symbol_run = 800
  ∧ length (clean_text ascii_only symbol_run) = 1003%nat
  ∧ split_into_chunks ascii_only runtime_config 10 symbol_run (Some 800)
      default_chunk_overlap
    = Some [of_string "a"; of_string "b"]
  ∧ ¬ reconstructs default_chunk_overlap [of_string "a"; of_string "b"]
        (clean_text ascii_only symbol_run).
Proof.
  assert (length (clean_text ascii_only symbol_run) = 1003%nat) as Hlen
    by (vm_compute; reflexivity).
  split; [vm_compute; reflexivity|]. split; [done|].
  split; [vm_compute; reflexivity|].
  intros (os & _ & _ & Heq). apply (f_equal length) in Heq.
  rewrite Hlen in Heq. destruct os as [|o os]; simpl in Heq; [lia|].
  rewrite length_app, length_drop in Heq. destruct os; simpl in Heq; lia.
Qed.

Lemma split_into_chunks_short_witness :
  split_into_chunks ascii_only runtime_config 0 three_sentences None 100
  = Some [three_sentences].
Proof.
  apply (split_into_chunks_short ascii_only runtime_config 0 three_sentences None 100).
  vm_compute. discriminate.
Defined.

Lemma split_into_chunks_covers_witness :
  let T := clean_text ascii_only three_sentences in
  let chunks :=
    of_string <$> ["Alpha senten"; "ntence."; "nce. Beta se"; "a sentence!";
                   "nce! Gamma s"; "ma sentence?"]%string in
  length T = 46%nat
  ∧ split_into_chunks ascii_only runtime_config 46 three_sentences (Some 12) 4
    = Some chunks
  ∧ Forall (λ c, c ≠ []) chunks
  ∧ (∃ ws : list (Z * Z),
      chunks = List.filter nonempty (window_chunk T <$> ws)
      ∧ (ws = [] ∧ T = [] ∨ chain 4 (Z.of_nat (length T)) 0 ws)
      ∧ (length ws ≠ 1%nat → Forall (λ w : Z * Z, 4 < w.2 - w.1) ws)
      ∧ merge_overlap 4 (window_text T <$> ws) = T
      ∧ (Z.of_nat (max_blank_run T) < 4 →
         chunks = window_chunk T <$> ws ∧ reconstructs 4 chunks T))
  ∧ reconstructs 4 chunks T.
Proof.
  assert (0 ≤ 4 < default (estimate_text_density ascii_only runtime_config
                             (clean_text ascii_only three_sentences)) (Some 12))
    as Hov by (simpl; lia).
  destruct (split_into_chunks_covers ascii_only runtime_config three_sentences
              (Some 12) 4 Hov) as [Hreturns Hcovers].
  assert (split_into_chunks ascii_only runtime_config 46 three_sentences (Some 12) 4
          = Some (of_string <$> ["Alpha senten"; "ntence."; "nce. Beta se";
                                 "a sentence!"; "nce! Gamma s"; "ma sentence?"]%string))
    as Hrun by (vm_compute; reflexivity).
  pose proof (Hcovers 46%nat _ Hrun) as Hall.
  split; [vm_compute; reflexivity|]. split; [exact Hrun|].
  split; [exact (proj1 Hall)|]. split; [exact (proj2 Hall)|].
  destruct Hall as (_ & ws & _ & _ & _ & _ & Hrec).
  apply Hrec. vm_compute. reflexivity.
Defined.

(** In the text of the scenario no two whitespace characters are adjacent,
    so its six chunks give it back after the removal of 4 leading
    characters from each chunk but the first. *)
Example three_sentences_reconstructed :
  max_blank_run (clean_text ascii_only three_sentences) = 1%nat
  ∧ reassemble [4; 4; 4; 4; 4]%nat
      (of_string <$> ["Alpha senten"; "ntence."; "nce. Beta se"; "a sentence!";
                      "nce! Gamma s"; "ma sentence?"]%string)
    = clean_text ascii_only three_sentences.
Proof. vm_compute. split; reflexivity. Qed.

End segmentation.

(** ** Tenant vector store *)

Module vector_store_facts.
Import chroma chroma_store.

Lemma length_remove_dups_le (l : list string) :
  (length (remove_dups l) ≤ length l)%nat.
Proof.
  induction l as [|x l IH]; simpl; [done|].
  destruct (decide_rel _ x l); simpl; lia.
Qed.

(** The test of [add_texts] on the ids holds exactly when an id occurs
    twice. *)
Lemma has_duplicates_spec (l : list string) :
  has_duplicates l = true ↔ ¬ NoDup l.
Proof.
  unfold has_duplicates. rewrite negb_true_iff, Nat.eqb_neq.
  induction l as [|x l IH]; simpl.
  - split; [done|]. intros []. constructor.
  - rewrite NoDup_cons. pose proof (length_remove_dups_le l).
    destruct (decide_rel _ x l) as [Hin|Hnin]; simpl.
    + split; [tauto|]. intros _. lia.
    + split.
      * intros Hne [_ Hnd].
        assert (length l ≠ length (remove_dups l)) as Hne' by lia.
        by apply IH in Hne'.
      * intros Hnd Heq. apply Hnd. split; [done|].
        destruct (decide (NoDup l)) as [|Hn]; [done|]. apply IH in Hn. lia.
Qed.

Section with_engine.
Variable E : Engine.
Variable uuid4 : nat → string.

(** C5. When the ids handed to [add_texts] hold a duplicate, no batch sent
    to the index carries the supplied ids: the only batch that can be sent
    is the one for the given texts with one freshly drawn UUID per text, in
    order. As long as the UUID source never repeats itself these ids are
    pairwise distinct, so two texts that came with one id go in under two
    ids. With texts to add and a collection to add them to, exactly that
    batch is sent, and the call returns the fresh ids when the index accepts
    it and the empty list when the index raises. *)
Theorem add_texts_regenerates_duplicate_ids
    (store : ChromaVectorStore) texts metadatas (ids : list string) (w : World E) :
  Inj (=) (=) uuid4 → ¬ NoDup ids →
  let fresh := uuid4 <$> seq (uuids_drawn w) (length texts) in
  let metas := default ((λ _, ∅) <$> texts) metadatas in
  let accepted :=
    (add E (collection_name store) texts metas fresh (engine w)).1 in
  length fresh = length texts
  ∧ NoDup fresh
  ∧ let '(returned, w') := add_texts E uuid4 store texts metadatas (Some ids) w in
    (returned = fresh ∨ returned = [])
    ∧ ∃ new : list call,
      calls w' = calls w ++ new
      ∧ (∀ name docs ms ids', Add name docs ms ids' ∈ new →
         name = collection_name store ∧ docs = texts ∧ ms = metas ∧ ids' = fresh)
      ∧ (texts ≠ [] → collection store = true →
         new = [Add (collection_name store) texts metas fresh]
         ∧ uuids_drawn w' = (uuids_drawn w + length texts)%nat
         ∧ returned = if accepted then fresh else []).
Proof.
  intros Hinj Hdup. cbv zeta.
  split; [by rewrite length_fmap, length_seq|].
  split; [apply NoDup_fmap_2; [done|apply NoDup_seq]|].
  assert (∀ name docs ms ids', Add name docs ms ids' ∉ ([] : list call)) as Hnil.
  { intros ???? Hin. by apply elem_of_nil in Hin. }
  unfold add_texts. case_bool_decide as Htexts.
  { split; [by right|]. exists []. rewrite app_nil_r. split; [done|].
    split; [intros ???? Hin; by apply Hnil in Hin|done]. }
  destruct (collection store); simpl.
  2:{ split; [by right|]. exists []. rewrite app_nil_r. split; [done|].
      split; [intros ???? Hin; by apply Hnil in Hin|done]. }
  apply has_duplicates_spec in Hdup. rewrite Hdup. simpl.
  destruct (add E _ _ _ _ _) as [ok st]. simpl.
  set (batch := Add _ _ _ _).
  assert (∀ name docs ms ids', Add name docs ms ids' ∈ [batch] →
          name = collection_name store ∧ docs = texts
          ∧ ms = default ((λ _, ∅) <$> texts) metadatas
          ∧ ids' = uuid4 <$> seq (uuids_drawn w) (length texts)) as Hbatch.
  { intros ???? [Heq|Hin%elem_of_nil]%elem_of_cons; [|done].
    by injection Heq as -> -> -> ->. }
  destruct ok; simpl.
  - split; [by left|]. exists [batch].
    split; [done|]. split; [done|]. by intros _ _.
  - split; [by right|]. exists [batch].
    split; [done|]. split; [done|]. by intros _ _.
Qed.

(** C9. [similarity_search] returns a list on every input. It touches the
    index only when a collection is there; with a record count of zero it
    returns the empty list after the count alone; and every query it
    sends is for the store's own collection and the given text, with
    [n_results] equal to [min(k, count)] for the non-zero count the
    index has just reported. *)
Theorem similarity_search_clamps_k
    (store : ChromaVectorStore) (query_text : text) (k : Z) (w : World E) :
  let counted := (count E (collection_name store) (engine w)).1 in
  let '(found, w') := similarity_search E store query_text k w in
  ∃ new : list call,
    calls w' = calls w ++ new
    ∧ (collection store = false → found = [] ∧ new = [])
    ∧ (collection store = true → counted = Some 0 →
       found = [] ∧ new = [Count (collection_name store)])
    ∧ (∀ name q n, Query name q n ∈ new →
       name = collection_name store ∧ q = query_text
       ∧ ∃ c, counted = Some c ∧ c ≠ 0 ∧ n = Z.min k c ∧ n ≤ k ∧ n ≤ c).
Proof.
  cbv zeta. unfold similarity_search.
  destruct (collection store) eqn:Hcoll; simpl.
  2:{ exists []. rewrite app_nil_r. split; [done|]. split; [done|].
      split; [done|]. by intros ??? ?%elem_of_nil. }
  destruct (count E _ _) as [counted st] eqn:Hcount; simpl.
  assert (∀ name q n, Query name q n ∉ [Count (collection_name store)])
    as Hnoquery.
  { intros ??? [?|?%elem_of_nil]%elem_of_cons; done. }
  destruct counted as [c|].
  2:{ exists [Count (collection_name store)]. split; [done|]. split; [done|].
      split; [done|]. intros ??? Hin. by apply Hnoquery in Hin. }
  destruct (Z.eqb_spec c 0) as [->|Hc].
  { exists [Count (collection_name store)]. split; [done|]. split; [done|].
    split; [done|]. intros ??? Hin. by apply Hnoquery in Hin. }
  destruct (query E _ _ _ _) as [results st'] eqn:Hquery.
  set (found := match results with Some _ => _ | None => _ end).
  assert (∃ l, found = (l, log E (Query (collection_name store) query_text (Z.min k c))
                             (log E (Count (collection_name store)) w st) st'))
    as [l ->].
  { subst found. destruct results as [results|]; [|by eexists].
    destruct (documents results); by eexists. }
  exists [Count (collection_name store);
          Query (collection_name store) query_text (Z.min k c)].
  simpl. split; [by rewrite <-app_assoc|]. split; [done|].
  split; [by intros _ [= ->]|].
  intros name q n Hin. rewrite !elem_of_cons in Hin.
  destruct Hin as [?|[[= -> -> ->]|?%elem_of_nil]]; try done.
  split; [done|]. split; [done|]. exists c. repeat split; try done; lia.
Qed.

End with_engine.

(** A search with the empty query on the tenant that holds nothing returns
    the empty list after one count; after the first ingestion, a search for
    50 results asks the index for 10. *)
Example search_empty_tenant :
  let '(found, w) :=
    instance_manager.search memory inputs.docs_tenant.1 [] 5 inputs.docs_tenant.2 in
  found = []
  ∧ calls w = [GetOrCreateCollection "rag_docs_0"; Count "rag_docs_0"].
Proof. vm_compute. split; reflexivity. Qed.

Example search_asks_for_count :
  let '(found, w) :=
    instance_manager.search memory inputs.first_ingestion.1 (of_string "chunk") 50
      inputs.first_ingestion.2 in
  length found = 10%nat
  ∧ last (calls w) = Some (Query "rag_docs_0" (of_string "chunk") 10).
Proof. vm_compute. split; reflexivity. Qed.

Lemma add_texts_regenerates_duplicate_ids_witness :
  let store := instance_manager.vector_store inputs.docs_tenant.1 in
  let texts := [of_string "first text"; of_string "second text"] in
  let w := inputs.docs_tenant.2 in
  let fresh := inputs.uuid_numbered <$> seq (uuids_drawn w) (length texts) in
  let metas := default ((λ _, ∅) <$> texts) None in
  let accepted :=
    (add memory (collection_name store) texts metas fresh (engine w)).1 in
  length fresh = length texts
  ∧ NoDup fresh
  ∧ let '(returned, w') :=
      add_texts memory inputs.uuid_numbered store texts None
        (Some ["same"; "same"]%string) w in
    (returned = fresh ∨ returned = [])
    ∧ ∃ new : list call,
      calls w' = calls w ++ new
      ∧ (∀ name docs ms ids', Add name docs ms ids' ∈ new →
         name = collection_name store ∧ docs = texts ∧ ms = metas ∧ ids' = fresh)
      ∧ (texts ≠ [] → collection store = true →
         new = [Add (collection_name store) texts metas fresh]
         ∧ uuids_drawn w' = (uuids_drawn w + length texts)%nat
         ∧ returned = if accepted then fresh else []).
Proof.
  apply (add_texts_regenerates_duplicate_ids memory inputs.uuid_numbered
           (instance_manager.vector_store inputs.docs_tenant.1)
           [of_string "first text"; of_string "second text"] None
           ["same"; "same"]%string inputs.docs_tenant.2).
  - unfold inputs.uuid_numbered. apply pretty_nat_inj.
  - rewrite NoDup_cons. intros [Hnin _]. apply Hnin. constructor.
Defined.

(** On the reference engine the two texts that came under one id are
    stored under the ids 1 and 2. *)
Example duplicate_ids_stored_apart :
  (add_texts memory inputs.uuid_numbered
     (instance_manager.vector_store inputs.docs_tenant.1)
     [of_string "first text"; of_string "second text"] None
     (Some ["same"; "same"]%string) inputs.docs_tenant.2).1
  = ["1"; "2"]%string.
Proof. vm_compute. reflexivity. Qed.

End vector_store_facts.

(** ** Instance registry *)

Module registry_facts.
Import chroma chroma_store instance_manager.


(** *** Document summaries *)

Lemma py_eq_str v s : py_eq v (VStr s) = true ↔ v = VStr s.
Proof.
  destruct v as [| |z|s']; simpl; try (split; [done|discriminate]).
  rewrite bool_decide_eq_true. split; [by intros ->|by intros [= ->]].
Qed.

Lemma dict_get_str (d : pydict) k s :
  dict_get d k = VStr s ↔ d !! k = Some (VStr s).
Proof.
  unfold dict_get. destruct (d !! k) as [v|]; simpl; [|done].
  split; [by intros ->|by intros [= ->]].
Qed.

Lemma key_field_cases d : key_field d = "url" ∨ key_field d = "filename".
Proof. unfold key_field. destruct (py_eq _ _); auto. Qed.

Lemma key_field_type d1 d2 :
  dict_get d1 "type" = dict_get d2 "type" → key_field d1 = key_field d2.
Proof. unfold key_field. by intros ->. Qed.

(** A well-formed summary holds a value under [url] or [filename] only if
    that field is its key field. *)
Lemma well_formed_field d f v :
  well_formed d → f = "url" ∨ f = "filename" → d !! f = Some v →
  key_field d = f.
Proof.
  intros [_ Hother] Hf Hv. unfold other_field in Hother.
  destruct (key_field_cases d) as [Hk|Hk]; rewrite Hk in *; simpl in Hother;
    destruct Hf as [->| ->]; congruence.
Qed.

(** The refreshed summary: update time, live chunk count, then the new
    fields, then the old ones. *)
Lemma refreshed_lookup d doc_info count now k :
  refreshed d doc_info count now !! k
  = if decide (k = "date_updated") then Some (VStr now)
    else if decide (k = "chunks") then Some (VInt count)
    else match doc_info !! k with
         | Some v => Some v
         | None => d !! k
         end.
Proof.
  unfold refreshed. destruct (decide (k = "date_updated")) as [->|Hk1].
  { by rewrite lookup_insert_eq. }
  rewrite lookup_insert_ne by done.
  destruct (decide (k = "chunks")) as [->|Hk2].
  { by rewrite lookup_insert_eq. }
  rewrite lookup_insert_ne by done.
  rewrite lookup_union. by destruct (doc_info !! k), (d !! k).
Qed.

Lemma refreshed_summary d doc_info count now key :
  well_formed d → well_formed doc_info →
  doc_info !! key_field doc_info = Some (VStr key) →
  d !! key_field doc_info = Some (VStr key) →
  well_formed (refreshed d doc_info count now)
  ∧ summary_key (refreshed d doc_info count now) = summary_key d
  ∧ summary_key d = summary_key doc_info.
Proof.
  intros Hd Hdoc Hkey Hdkey.
  assert (key_field d = key_field doc_info) as Hkf.
  { eapply well_formed_field; [done|apply key_field_cases|done]. }
  assert (key_field (refreshed d doc_info count now) = key_field doc_info) as Hkf'.
  { unfold key_field at 1, dict_get. rewrite refreshed_lookup. simpl.
    destruct (doc_info !! "type") as [v|] eqn:Hty.
    - unfold key_field, dict_get. by rewrite Hty.
    - rewrite <-Hkf. done. }
  assert (∀ f, f = "url" ∨ f = "filename" →
          refreshed d doc_info count now !! f
          = match doc_info !! f with Some v => Some v | None => d !! f end) as Hlook.
  { intros f Hf. rewrite refreshed_lookup.
    destruct Hf as [->| ->]; done. }
  split; [split|].
  - exists key. rewrite Hkf', Hlook by apply key_field_cases. by rewrite Hkey.
  - rewrite Hkf'. destruct Hdoc as [_ Hdoc]. destruct Hd as [_ Hd].
    rewrite Hkf in Hd.
    rewrite Hlook, Hdoc; [done|].
    unfold other_field. case_bool_decide; auto.
  - unfold summary_key. rewrite Hkf', Hkf, Hdkey, Hkey.
    rewrite Hlook by apply key_field_cases. by rewrite Hkey.
Qed.

Lemma unique_keys_insert docs i d d' :
  docs !! i = Some d → summary_key d' = summary_key d →
  unique_keys docs → unique_keys (<[i := d']> docs).
Proof.
  intros Hi Hkey Huniq a b d1 d2 k Ha Hb Hk1 Hk2.
  assert (∀ j x, <[i := d']> docs !! j = Some x →
          ∃ y, docs !! j = Some y ∧ summary_key y = summary_key x) as Hold.
  { intros j x Hj. destruct (decide (i = j)) as [<-|Hne].
    - rewrite list_lookup_insert_eq in Hj by (by eapply lookup_lt_Some).
      injection Hj as <-. eauto.
    - rewrite list_lookup_insert_ne in Hj by done. eauto. }
  destruct (Hold _ _ Ha) as (y1 & Hy1 & Hky1).
  destruct (Hold _ _ Hb) as (y2 & Hy2 & Hky2).
  eapply (Huniq a b y1 y2 k); congruence.
Qed.

Lemma unique_keys_snoc docs d :
  (∀ x, x ∈ docs → summary_key x ≠ summary_key d) →
  unique_keys docs → unique_keys (docs ++ [d]).
Proof.
  intros Hnew Huniq a b d1 d2 k Ha Hb Hk1 Hk2.
  apply lookup_snoc_Some in Ha as [[Hla Ha]|[Hla <-]];
    apply lookup_snoc_Some in Hb as [[Hlb Hb]|[Hlb <-]].
  - by eapply (Huniq a b d1 d2 k).
  - exfalso. eapply Hnew; [by eapply list_elem_of_lookup_2|]. congruence.
  - exfalso. eapply Hnew; [by eapply list_elem_of_lookup_2|]. congruence.
  - congruence.
Qed.

Section with_engine.
Variable E : Engine.

(** What [add_document] looks for: the first summary that holds the key of
    [doc_info] under its key field. *)
Lemma add_document_find (docs : list pydict) doc_info key :
  Forall well_formed docs → well_formed doc_info →
  doc_info !! key_field doc_info = Some (VStr key) →
  match list_find (λ d, py_eq (dict_get d (key_field doc_info)) (VStr key) = true)
          docs with
  | Some (i, d) =>
      docs !! i = Some d ∧ d !! key_field doc_info = Some (VStr key)
      ∧ summary_key d = summary_key doc_info
  | None => ∀ x, x ∈ docs → summary_key x ≠ summary_key doc_info
  end.
Proof.
  intros Hwf Hdoc Hkey.
  destruct (list_find _ docs) as [[i d]|] eqn:Hfind.
  - apply list_find_Some in Hfind as (Hi & HP & _).
    apply py_eq_str, dict_get_str in HP.
    split; [done|]. split; [done|].
    assert (key_field d = key_field doc_info) as Hkf.
    { eapply well_formed_field; [|apply key_field_cases|done].
      eapply Forall_lookup_1; done. }
    unfold summary_key. by rewrite Hkf, HP, Hkey.
  - intros x Hx Heq. apply list_find_None in Hfind.
    rewrite Forall_forall in Hfind. apply (Hfind x Hx).
    apply py_eq_str, dict_get_str.
    unfold summary_key in Heq. rewrite Hkey in Heq. simpl in Heq.
    destruct (x !! key_field x) as [v|] eqn:Hxk; simpl in Heq; [|done].
    injection Heq as Hkf ->. by rewrite <-Hkf.
Qed.

(** [add_document] keeps the summaries well formed and with at most one
    summary per key. *)
Lemma add_document_preserves (instance : RAGInstance) doc_info now (w : World E) :
  summaries_ok (documents_info instance) → well_formed doc_info →
  summaries_ok (documents_info (add_document E instance doc_info now w).1).
Proof.
  intros [Hwf Huniq] Hdoc. unfold add_document.
  destruct (Hdoc) as [[key Hkey] Hother]. rewrite Hkey.
  pose proof (add_document_find (documents_info instance) doc_info key Hwf Hdoc Hkey)
    as Hfind.
  destruct (list_find _ (documents_info instance)) as [[i d]|].
  - destruct Hfind as (Hi & Hdkey & Hsame).
    rewrite bool_decide_eq_true_2
      by (intros ->; by rewrite lookup_empty in Hdkey).
    destruct (get_vector_count E instance w) as [count w1]. simpl.
    assert (well_formed d) as Hd by (by eapply Forall_lookup_1).
    destruct (refreshed_summary d doc_info count now key Hd Hdoc Hkey Hdkey)
      as (Hwf' & Hkey' & _).
    split; [by apply Forall_insert|by eapply unique_keys_insert].
  - simpl. split; [|by apply unique_keys_snoc].
    apply Forall_app. split; [done|]. by constructor.
Qed.

(** The invariant holds in every state the ingestion can reach: a new
    tenant has no summaries, and every summary recorded is well formed. *)
Lemma summaries_ok_reachable (instance : RAGInstance) recorded (w : World E) :
  documents_info instance = [] → Forall (λ r, well_formed r.1) recorded →
  summaries_ok (documents_info (record_all E instance recorded w).1).
Proof.
  intros Hnew Hrec. unfold record_all.
  assert (summaries_ok (documents_info (instance, w).1)) as Hok.
  { simpl. rewrite Hnew. split; [constructor|].
    intros i j d1 d2 k Hi. by rewrite lookup_nil in Hi. }
  generalize dependent (instance, w). clear Hnew.
  induction Hrec as [|r recorded Hr _ IH]; intros iw Hok; simpl; [done|].
  apply IH. by apply add_document_preserves.
Qed.

(** C4. [add_document] keeps the summaries well formed and with at most one
    summary per key. When a summary with the key of [doc_info] is already
    there, the list keeps its length and that summary is replaced in place
    by the merge: the fields of [doc_info] over the old ones, the chunk count
    read from the vector store and the update time. Otherwise [doc_info] is
    appended. *)
Theorem add_document_upserts (instance : RAGInstance) doc_info now (w : World E) :
  summaries_ok (documents_info instance) → well_formed doc_info →
  let docs := documents_info instance in
  let live := get_vector_count E instance w in
  let '(instance', w') := add_document E instance doc_info now w in
  summaries_ok (documents_info instance')
  ∧ ((∃ d, d ∈ docs ∧ summary_key d = summary_key doc_info) →
     length (documents_info instance') = length docs
     ∧ w' = live.2
     ∧ ∃ i d d',
         docs !! i = Some d ∧ summary_key d = summary_key doc_info
         ∧ documents_info instance' = <[i := d']> docs
         ∧ summary_key d' = summary_key doc_info
         ∧ d' !! "chunks" = Some (VInt live.1)
         ∧ d' !! "date_updated" = Some (VStr now)
         ∧ ∀ k, k ≠ "chunks" → k ≠ "date_updated" →
             d' !! k = match doc_info !! k with
                       | Some v => Some v
                       | None => d !! k
                       end)
  ∧ ((∀ d, d ∈ docs → summary_key d ≠ summary_key doc_info) →
     documents_info instance' = docs ++ [doc_info] ∧ w' = w).
Proof.
  intros Hok Hdoc. cbv zeta.
  pose proof (add_document_preserves instance doc_info now w Hok Hdoc) as Hok'.
  destruct Hok as [Hwf Huniq].
  unfold add_document in *.
  destruct (Hdoc) as [[key Hkey] Hother]. rewrite Hkey in *.
  pose proof (add_document_find (documents_info instance) doc_info key Hwf Hdoc Hkey)
    as Hfind.
  destruct (list_find _ (documents_info instance)) as [[i d]|].
  - destruct Hfind as (Hi & Hdkey & Hsame).
    assert (d ≠ ∅) as Hne by (intros ->; by rewrite lookup_empty in Hdkey).
    rewrite bool_decide_eq_true_2 in * by done.
    destruct (get_vector_count E instance w) as [count w1]. simpl in *.
    assert (well_formed d) as Hd by (by eapply Forall_lookup_1).
    destruct (refreshed_summary d doc_info count now key Hd Hdoc Hkey Hdkey)
      as (_ & Hkey' & _).
    split; [done|]. split.
    + intros _. split; [by rewrite length_insert|]. split; [done|].
      exists i, d, (refreshed d doc_info count now).
      split; [done|]. split; [done|]. split; [done|].
      split; [congruence|].
      split; [by rewrite refreshed_lookup|].
      split; [by rewrite refreshed_lookup|].
      intros k Hk1 Hk2. rewrite refreshed_lookup.
      by rewrite !decide_False by done.
    + intros Hnone. exfalso. eapply Hnone; [by eapply list_elem_of_lookup_2|done].
  - simpl in *. split; [done|]. split; [|done].
    intros (d & Hd & Hsame). by apply Hfind in Hd.
Qed.

(** C7, amended. [delete_rag_instance] on an unknown id returns [False] and
    changes nothing. On a known id it runs the delete of the tenant's vector
    store on the world it was given, and the outcome of that delete is its
    own: on failure the session state is exactly what it was; on success
    the tenant is removed from the registry, and if it was the current one
    the current selection becomes [None] and the message history is
    emptied, while a different current selection and its messages are
    kept. The conversation context is what it was before the call in
    every case. *)
Theorem delete_rag_instance_two_phase
    (instance_id : string) (ss : SessionState) (w : World E) :
  let '(ok, ss', w') := delete_rag_instance E instance_id ss w in
  match rag_instances ss !! instance_id with
  | None => ok = false ∧ ss' = ss ∧ w' = w
  | Some instance =>
      (ok, w') = chroma_store.delete_collection E (vector_store instance) w
      ∧ conversation_context ss' = conversation_context ss
      ∧ (ok = false → ss' = ss)
      ∧ (ok = true →
         rag_instances ss' = base.delete instance_id (rag_instances ss)
         ∧ rag_instances ss' !! instance_id = None
         ∧ (current_rag_instance ss = Some instance_id →
            current_rag_instance ss' = None ∧ messages ss' = [])
         ∧ (current_rag_instance ss ≠ Some instance_id →
            current_rag_instance ss' = current_rag_instance ss
            ∧ messages ss' = messages ss))
  end.
Proof.
  unfold delete_rag_instance, delete.
  destruct (rag_instances ss !! instance_id) as [instance|]; [|done].
  destruct (chroma_store.delete_collection E (vector_store instance) w)
    as [[] w']; [|done].
  case_bool_decide as Hcur; simpl.
  - split; [done|]. split; [done|]. split; [done|]. intros _.
    split; [done|]. split; [apply lookup_delete_eq|]. done.
  - split; [done|]. split; [done|]. split; [done|]. intros _.
    split; [done|]. split; [apply lookup_delete_eq|]. done.
Qed.

End with_engine.

(** Deleting the selected tenant on the reference engine: the registry is
    empty afterwards, nothing is selected and the messages are gone; a
    second delete of the same id fails and changes nothing. *)
Example delete_selected_tenant :
  let '(ss, w) := inputs.docs_session in
  let '(ok, ss', w') := delete_rag_instance memory "0" ss w in
  current_rag_instance ss = Some "0"%string
  ∧ ok = true
  ∧ size (rag_instances ss') = 0%nat
  ∧ current_rag_instance ss' = None
  ∧ messages ss' = []
  ∧ last (calls w') = Some (DeleteCollection "rag_docs_0")
  ∧ (delete_rag_instance memory "0" ss' w').1.1 = false.
Proof. vm_compute. repeat split; reflexivity. Qed.

(** C7, counterexample. The tenant "Docs" holds a file and has answered
    one question; it is the active one. Its deletion succeeds, the
    selection becomes [None] and the messages are emptied, but the
    conversation context still holds the question: it is not the context a
    session starts with. *)
Lemma delete_keeps_conversation_context :
  let '(ss, w) := inputs.answered_session in
  let '(ok, ss', w') := delete_rag_instance memory "0" ss w in
  current_rag_instance ss = Some "0"%string
  ∧ ok = true
  ∧ rag_instances ss' !! "0"%string = None
  ∧ current_rag_instance ss' = None
  ∧ messages ss' = []
  ∧ last_queries (conversation_context ss')
    = [of_string "status of alpha"; of_string "status of alpha"]
  ∧ conversation_context ss' ≠ initial_conversation_context.
Proof.
  vm_compute. repeat split; try reflexivity.
  intros H. discriminate H.
Qed.

Lemma summaries_ok_singleton d : well_formed d → summaries_ok [d].
Proof.
  intros Hd. split; [by constructor|].
  intros i j d1 d2 k Hi Hj _ _.
  apply list_lookup_singleton_Some in Hi as [-> _].
  by apply list_lookup_singleton_Some in Hj as [-> _].
Qed.

Lemma add_document_upserts_witness :
  let instance := inputs.first_ingestion.1 in
  let doc_info :=
    document_processor.pdf_summary "a.txt" 15 4096 "2026-01-01T00:02:00" in
  let now := "2026-01-01T00:02:01"%string in
  let w := inputs.first_ingestion.2 in
  let docs := documents_info instance in
  let live := get_vector_count memory instance w in
  let '(instance', w') := add_document memory instance doc_info now w in
  summaries_ok (documents_info instance')
  ∧ ((∃ d, d ∈ docs ∧ summary_key d = summary_key doc_info) →
     length (documents_info instance') = length docs
     ∧ w' = live.2
     ∧ ∃ i d d',
         docs !! i = Some d ∧ summary_key d = summary_key doc_info
         ∧ documents_info instance' = <[i := d']> docs
         ∧ summary_key d' = summary_key doc_info
         ∧ d' !! "chunks" = Some (VInt live.1)
         ∧ d' !! "date_updated" = Some (VStr now)
         ∧ ∀ k, k ≠ "chunks" → k ≠ "date_updated" →
             d' !! k = match doc_info !! k with
                       | Some v => Some v
                       | None => d !! k
                       end)
  ∧ ((∀ d, d ∈ docs → summary_key d ≠ summary_key doc_info) →
     documents_info instance' = docs ++ [doc_info] ∧ w' = w).
Proof.
  apply (add_document_upserts memory inputs.first_ingestion.1
           (document_processor.pdf_summary "a.txt" 15 4096 "2026-01-01T00:02:00")
           "2026-01-01T00:02:01" inputs.first_ingestion.2).
  - apply summaries_ok_singleton. split; [by exists "a.txt"%string|reflexivity].
  - split; [by exists "a.txt"%string|reflexivity].
Defined.

End registry_facts.

(** ** Ingestion *)

Module ingestion_facts.
Import chroma chroma_store instance_manager document_processor registry_facts inputs.

Lemma pdf_summary_key_field f c s n : key_field (pdf_summary f c s n) = "filename".
Proof. reflexivity. Qed.

Lemma pdf_summary_filename f c s n :
  pdf_summary f c s n !! "filename" = Some (VStr f).
Proof. reflexivity. Qed.

Section with_engine.
Variable E : Engine.
Variable uuid4 : nat → string.

(** [add_document] when no summary holds the key of [doc_info]. *)
Lemma add_document_new (instance : RAGInstance) doc_info key now (w : World E) :
  doc_info !! key_field doc_info = Some (VStr key) →
  (∀ d, d ∈ documents_info instance →
        d !! key_field doc_info ≠ Some (VStr key)) →
  add_document E instance doc_info now w
  = ({| id := id instance; name := name instance;
        description := description instance;
        vector_store := vector_store instance;
        documents_info := documents_info instance ++ [doc_info];
        created_at := created_at instance |}, w).
Proof.
  intros Hkey Hnone. unfold add_document. rewrite Hkey.
  destruct (list_find _ _) as [[i d]|] eqn:Hfind; [|done].
  apply list_find_Some in Hfind as (Hi & HP & _).
  apply py_eq_str, dict_get_str in HP.
  exfalso. eapply Hnone; [by eapply list_elem_of_lookup_2|done].
Qed.

(** [add_document] when the last summary is the only one that holds the
    key of [doc_info]. *)
Lemma add_document_last (instance : RAGInstance) docs d doc_info key now (w : World E) :
  documents_info instance = docs ++ [d] →
  doc_info !! key_field doc_info = Some (VStr key) →
  (∀ x, x ∈ docs → x !! key_field doc_info ≠ Some (VStr key)) →
  d !! key_field doc_info = Some (VStr key) →
  add_document E instance doc_info now w
  = ({| id := id instance; name := name instance;
        description := description instance;
        vector_store := vector_store instance;
        documents_info :=
          docs ++ [refreshed d doc_info (get_vector_count E instance w).1 now];
        created_at := created_at instance |},
     (get_vector_count E instance w).2).
Proof.
  intros Hdocs Hkey Hnone Hd. unfold add_document. rewrite Hkey, Hdocs.
  rewrite list_find_app_r.
  2:{ apply list_find_None, Forall_forall. intros x Hx HP.
      apply py_eq_str, dict_get_str in HP. by eapply Hnone. }
  simpl. rewrite decide_True by (by apply py_eq_str, dict_get_str).
  simpl. rewrite bool_decide_eq_true_2
    by (intros ->; by rewrite lookup_empty in Hd).
  destruct (get_vector_count E instance w) as [count w']. simpl.
  do 2 f_equal.
  by rewrite (insert_app_r_alt docs [d] (length docs)), Nat.sub_diag by done.
Qed.

(** C3, amended. Ingesting a file name that has no summary yet and then
    ingesting the same name again leaves exactly one summary for it, after
    the summaries that were there. Its size and date are those of the
    second ingestion, and its chunk count is the count the vector store
    reports after the second batch was added: the count of the whole
    collection, not the number of chunks of the second batch. *)
Theorem reingest_refreshes_one_summary
    (instance : RAGInstance) (filename : string)
    chunks1 metas1 size1 now1 later1 chunks2 metas2 size2 now2 later2 (w : World E) :
  (∀ d, d ∈ documents_info instance → d !! "filename" ≠ Some (VStr filename)) →
  chunks1 ≠ [] → chunks2 ≠ [] →
  let '(i1, w1) :=
    process_pdf_store E uuid4 instance filename chunks1 metas1 size1 now1 later1 w in
  let live :=
    get_vector_count E i1 (add_texts E uuid4 i1 chunks2 (Some metas2) w1).2 in
  let '(i2, w2) :=
    process_pdf_store E uuid4 i1 filename chunks2 metas2 size2 now2 later2 w1 in
  w2 = live.2
  ∧ ∃ d,
      documents_info i2 = documents_info instance ++ [d]
      ∧ d !! "filename" = Some (VStr filename)
      ∧ d !! "chunks" = Some (VInt live.1)
      ∧ d !! "size" = Some (VInt size2)
      ∧ d !! "date_added" = Some (VStr now2)
      ∧ d !! "date_updated" = Some (VStr later2).
Proof.
  intros Hnone Hc1 Hc2. unfold process_pdf_store.
  rewrite !bool_decide_eq_true_2 by done.
  destruct (add_texts E uuid4 instance chunks1 (Some metas1) w) as [ids1 wa].
  rewrite (add_document_new _ _ filename) by done.
  set (i1 := {| documents_info := _ |}).
  destruct (add_texts E uuid4 i1 chunks2 (Some metas2) wa) as [ids2 wb]. simpl.
  rewrite (add_document_last i1 (documents_info instance) _ _ filename)
    by done.
  split; [done|]. eexists. split; [done|].
  rewrite !refreshed_lookup. simpl. done.
Qed.

End with_engine.

(** C3, counterexample. On the reference engine, the tenant "Docs" that
    ingested "a.txt" as 10 chunks and then as 15 chunks holds one summary
    for "a.txt", and its chunk count is 25. *)
Lemma reingest_counts_whole_collection :
  ∃ d,
    documents_info second_ingestion.1 = [d]
    ∧ d !! "filename" = Some (VStr "a.txt")
    ∧ d !! "chunks" = Some (VInt 25)
    ∧ d !! "chunks" ≠ Some (VInt 15).
Proof.
  exists (refreshed (pdf_summary "a.txt" 10 2048 "2026-01-01T00:01:00")
            (pdf_summary "a.txt" 15 4096 "2026-01-01T00:02:00") 25
            "2026-01-01T00:02:01").
  split; [vm_compute; reflexivity|].
  rewrite !refreshed_lookup. simpl. by repeat split.
Qed.

Lemma reingest_refreshes_one_summary_witness :
  let '(i1, w1) :=
    process_pdf_store memory uuid_numbered docs_tenant.1 "a.txt"
      (n_chunks 10) (n_metadatas 10) 2048
      "2026-01-01T00:01:00" "2026-01-01T00:01:01" docs_tenant.2 in
  let live :=
    get_vector_count memory i1
      (add_texts memory uuid_numbered i1 (n_chunks 15) (Some (n_metadatas 15)) w1).2 in
  let '(i2, w2) :=
    process_pdf_store memory uuid_numbered i1 "a.txt"
      (n_chunks 15) (n_metadatas 15) 4096
      "2026-01-01T00:02:00" "2026-01-01T00:02:01" w1 in
  w2 = live.2
  ∧ ∃ d,
      documents_info i2 = documents_info docs_tenant.1 ++ [d]
      ∧ d !! "filename" = Some (VStr "a.txt")
      ∧ d !! "chunks" = Some (VInt live.1)
      ∧ d !! "size" = Some (VInt 4096)
      ∧ d !! "date_added" = Some (VStr "2026-01-01T00:02:00")
      ∧ d !! "date_updated" = Some (VStr "2026-01-01T00:02:01").
Proof.
  apply (reingest_refreshes_one_summary memory uuid_numbered docs_tenant.1 "a.txt"
           (n_chunks 10) (n_metadatas 10) 2048
           "2026-01-01T00:01:00" "2026-01-01T00:01:01"
           (n_chunks 15) (n_metadatas 15) 4096
           "2026-01-01T00:02:00" "2026-01-01T00:02:01" docs_tenant.2).
  - intros d Hd. by apply elem_of_nil in Hd.
  - discriminate.
  - discriminate.
Defined.

End ingestion_facts.


(** * Further properties *)

(** ** Normalization and segmentation *)

Module segmentation_more.
Import pystr pystr_facts config text_processing text_processing_facts inputs.

Lemma length_lstrip_le s : (length (lstrip s) ≤ length s)%nat.
Proof.
  induction s as [|c s IH]; simpl; [done|].
  destruct (isspace c); simpl; lia.
Qed.

Lemma length_strip_le s : (length (strip s) ≤ length s)%nat.
Proof.
  unfold strip, rstrip. rewrite length_reverse.
  etrans; [apply length_lstrip_le|]. rewrite length_reverse.
  apply length_lstrip_le.
Qed.

Lemma length_sub_ws_le b s : (length (sub_ws b s) ≤ length s)%nat.
Proof.
  revert b. induction s as [|c s IH]; intros b; simpl; [done|].
  pose proof (IH true). pose proof (IH false).
  destruct (isspace c); [destruct b|]; simpl; lia.
Qed.

Lemma strip_head s c r : strip s = c :: r → isspace c = false.
Proof.
  unfold strip. destruct (lstrip_head s) as [->|(d & s' & -> & Hd)]; [done|].
  rewrite rstrip_cons_nonspace by done. by intros [= <- _].
Qed.

Lemma strip_last s c : last (strip s) = Some c → isspace c = false.
Proof.
  unfold strip, rstrip. rewrite last_reverse.
  destruct (lstrip_head (reverse (lstrip s))) as [->|(d & s' & -> & Hd)];
    [done|].
  by intros [= <-].
Qed.

Lemma lstrip_nil_iff s : lstrip s = [] ↔ Forall (λ c, isspace c = true) s.
Proof.
  induction s as [|c s IH]; simpl; [by split|].
  destruct (isspace c) eqn:Hc.
  - rewrite IH. split; [by constructor|by inversion 1].
  - split; [done|]. inversion 1; congruence.
Qed.

Lemma strip_nil_iff s : strip s = [] ↔ Forall (λ c, isspace c = true) s.
Proof.
  unfold strip, rstrip. split.
  - intros H. apply (f_equal reverse) in H. rewrite reverse_involutive in H.
    change (reverse []) with (@nil N) in H.
    apply lstrip_nil_iff in H. rewrite Forall_reverse in H.
    destruct (lstrip_head s) as [Hs|(d & s' & Hs & Hd)].
    + by apply lstrip_nil_iff.
    + rewrite Hs in H. inversion H; congruence.
  - intros H. apply lstrip_nil_iff in H. by rewrite H.
Qed.

Lemma elem_of_sub_ws b s c :
  c ∈ sub_ws b s → c = 32%N ∨ (c ∈ s ∧ isspace c = false).
Proof.
  revert b. induction s as [|x s IH]; intros b; simpl.
  - by intros ?%elem_of_nil.
  - destruct (isspace x) eqn:Hx.
    + destruct b.
      * intros [?|[? ?]]%IH; [by left|right]. split; [by right|done].
      * intros [->|[?|[? ?]]%IH]%elem_of_cons; [by left|by left|right].
        split; [by right|done].
    + intros [->|[?|[? ?]]%IH]%elem_of_cons.
      * right. split; [by left|done].
      * by left.
      * right. split; [by right|done].
Qed.

Lemma sub_ws_keeps b s c : c ∈ s → isspace c = false → c ∈ sub_ws b s.
Proof.
  revert b. induction s as [|x s IH]; intros b Hc Hsp; simpl.
  - by apply elem_of_nil in Hc.
  - apply elem_of_cons in Hc as [<-|Hc].
    + rewrite Hsp. by left.
    + destruct (isspace x); [destruct b|]; try right; by apply IH.
Qed.

Section with_unicode.
Variable unicode_alnum : char → bool.

Local Abbreviation clean_text := (clean_text unicode_alnum).
Local Abbreviation is_word := (is_word unicode_alnum).
Local Abbreviation is_kept := (is_kept unicode_alnum).
Local Abbreviation estimate_text_density := (estimate_text_density unicode_alnum).
Local Abbreviation split_into_chunks := (split_into_chunks unicode_alnum).

(** X1. The normalized text holds only word characters, plain spaces and
    the eighteen punctuation characters of the second pattern (full stop,
    comma, question mark, exclamation mark, colon, semicolon, round, square
    and curly brackets, hyphen, en dash, em dash, apostrophe, double quote
    and backtick); it neither starts nor ends with whitespace; and it is
    never longer than the text it comes from. *)
Theorem clean_text_shape t :
  (∀ c, c ∈ clean_text t →
        is_word c = true ∨ c = 32%N ∨ c ∈ kept_punctuation)
  ∧ (∀ c, head (clean_text t) = Some c ∨ last (clean_text t) = Some c →
          isspace c = false)
  ∧ (length (clean_text t) ≤ length t)%nat.
Proof.
  split; [|split].
  - intros c Hc. pose proof (clean_text_plain unicode_alnum t c Hc) as Hplain.
    unfold text_processing.clean_text in Hc. apply elem_of_strip in Hc.
    apply list_elem_of_In, filter_In in Hc as [_ Hkept].
    unfold text_processing.is_kept in Hkept.
    destruct (is_word c) eqn:Hw; [by left|]. right.
    destruct (isspace c) eqn:Hs; [left; by apply Hplain|]. right.
    simpl in Hkept. by apply bool_decide_eq_true in Hkept.
  - intros c [Hc|Hc].
    + unfold text_processing.clean_text in Hc.
      destruct (strip _) as [|d r] eqn:Hstrip; [done|].
      injection Hc as ->. by eapply strip_head.
    + by eapply strip_last.
  - unfold text_processing.clean_text.
    etrans; [apply length_strip_le|].
    etrans; [|apply (length_sub_ws_le false t)].
    induction (sub_ws false t) as [|x l IH]; simpl; [done|].
    destruct (is_kept x); simpl; lia.
Qed.

(** The normalized text is empty exactly when every character of the text
    is whitespace or is dropped by the second pattern. *)
Lemma clean_text_nil_iff t :
  clean_text t = [] ↔ ∀ c, c ∈ t → isspace c = true ∨ is_kept c = false.
Proof.
  unfold text_processing.clean_text. rewrite strip_nil_iff, Forall_forall.
  split.
  - intros Hall c Hc. destruct (isspace c) eqn:Hs; [by left|right].
    destruct (is_kept c) eqn:Hk; [|done]. exfalso.
    assert (isspace c = true) as Hs'; [|congruence].
    apply Hall, list_elem_of_In, filter_In. split; [|done].
    apply list_elem_of_In. by apply sub_ws_keeps.
  - intros Hall c [Hc Hk]%list_elem_of_In%filter_In.
    apply list_elem_of_In, elem_of_sub_ws in Hc as [->|[Hc Hs]]; [done|].
    destruct (Hall c Hc); congruence.
Qed.

Lemma first_window_chunk t ov e ws :
  clean_text t ≠ [] → 0 ≤ ov →
  chain ov (Z.of_nat (length (clean_text t))) 0 ((0, e) :: ws) →
  window_chunk (clean_text t) (0, e) ≠ [].
Proof.
  intros Hne Hov Hchain. apply chain_head_wide in Hchain as (_ & He & Hwide).
  assert (0 < e) by lia.
  unfold window_chunk, window_text. simpl. rewrite slice_take_drop by lia.
  change (Z.to_nat 0) with 0%nat. rewrite drop_0.
  destruct (clean_text t) as [|c r] eqn:HT; [done|].
  assert (isspace c = false) as Hc.
  { unfold text_processing.clean_text in HT. by eapply strip_head. }
  replace (Z.to_nat (e - 0)) with (S (Z.to_nat (e - 1))) by lia. simpl.
  unfold strip. simpl. rewrite Hc. by rewrite rstrip_cons_nonspace.
Qed.

(** X2. With an overlap smaller than the chunk size, a call that returns
    gives no chunk exactly when every character of the text is whitespace
    or dropped by the normalization; a text with anything else in it gives
    at least one chunk. *)
Theorem split_into_chunks_empty_iff cfg fuel t cs ov chunks :
  0 ≤ ov < cs →
  split_into_chunks cfg fuel t (Some cs) ov = Some chunks →
  (chunks = [] ↔ ∀ c, c ∈ t → isspace c = true ∨ is_kept c = false).
Proof.
  intros Hov. rewrite <-clean_text_nil_iff.
  unfold text_processing.split_into_chunks.
  destruct (Z.leb_spec (Z.of_nat (length (clean_text t))) cs) as [Hshort|Hlong].
  - intros [= <-]. by destruct (clean_text t).
  - rewrite chunk_loop_windows.
    destruct (windows_from fuel (clean_text t) cs ov 0)
      as [ws|] eqn:Hws; [|done].
    simpl. intros [= <-].
    assert (clean_text t ≠ []) as Hne by (intros Heq; rewrite Heq in Hlong; simpl in Hlong; lia).
    split; [|done]. intros Hnil. exfalso.
    assert (chain ov (Z.of_nat (length (clean_text t))) 0 ws) as Hc
      by (eapply windows_from_chain; [done|lia|done]).
    destruct (chain_nonempty _ _ _ _ Hc) as (e & ws' & ->).
    pose proof (first_window_chunk t ov e ws' Hne (proj1 Hov) Hc) as Hfirst.
    simpl in Hnil. destruct (window_chunk (clean_text t) (0, e)); done.
Qed.

Lemma windows_from_width fuel t cs ov start ws :
  0 ≤ ov < cs → 0 ≤ start < Z.of_nat (length t) →
  windows_from fuel t cs ov start = Some ws →
  Forall (λ w, 0 ≤ w.1 ∧ w.1 ≤ w.2 ∧ w.2 - w.1 ≤ cs) ws.
Proof.
  intros Hov. revert start ws.
  induction fuel as [|fuel IH]; intros start ws Hs; simpl; [done|].
  destruct (Z.ltb_spec start (Z.of_nat (length t))); [|lia].
  destruct (Z_lt_le_dec (start + cs) (Z.of_nat (length t))) as [Hin|Hfin].
  - destruct (chunk_step_inner t cs ov start) as [Hw ->]; [lia..|].
    destruct (Z.leb_spec (Z.of_nat (length t)) (window_end t cs ov start - ov));
      [lia|].
    destruct (windows_from fuel _ _ _ _) as [ws'|] eqn:Hws'; [|done].
    intros [= <-]. constructor; [simpl; lia|]. eapply IH; [|done]. lia.
  - destruct (chunk_step_final t cs ov start) as [-> ->]; [lia|].
    rewrite Z.leb_refl. intros [= <-]. constructor; [simpl; lia|constructor].
Qed.

Lemma chain_length ov len a ws :
  chain ov len a ws → Z.of_nat (length ws) ≤ len - a.
Proof. induction 1; simpl in *; lia. Qed.

Lemma estimate_cases cfg t :
  estimate_text_density cfg t = small_chunk_size cfg
  ∨ estimate_text_density cfg t = medium_chunk_size cfg
  ∨ estimate_text_density cfg t = large_chunk_size cfg.
Proof.
  unfold text_processing.estimate_text_density.
  destruct t; [auto|]. destruct (_ || _); [auto|]. destruct (_ || _); auto.
Qed.

(** X3. With an overlap smaller than the chunk size, every chunk of a call
    that returns is at most [chunk_size] characters long and has no
    whitespace at either end, and there are no more chunks than the
    normalized text has characters. *)
Theorem split_into_chunks_bounds cfg fuel t chunk_size ov chunks :
  0 ≤ ov < default (estimate_text_density cfg (clean_text t)) chunk_size →
  split_into_chunks cfg fuel t chunk_size ov = Some chunks →
  Forall (λ c, Z.of_nat (length c)
               ≤ default (estimate_text_density cfg (clean_text t)) chunk_size
               ∧ strip c = c) chunks
  ∧ (length chunks ≤ length (clean_text t))%nat.
Proof.
  intros Hov. unfold text_processing.split_into_chunks.
  assert (default (estimate_text_density cfg (clean_text t)) chunk_size
          = match chunk_size with
            | Some c => c
            | None => estimate_text_density cfg (clean_text t)
            end) as Hcs by (by destruct chunk_size).
  rewrite Hcs in *. clear Hcs.
  set (cs := match chunk_size with Some c => c | None => _ end) in *.
  assert (strip (clean_text t) = clean_text t) as Hstrip by apply strip_idemp.
  set (T := clean_text t) in *.
  destruct (Z.leb_spec (Z.of_nat (length T)) cs) as [Hshort|Hlong].
  - intros [= <-]. destruct (decide (T = [])) as [HT|HT].
    + rewrite HT. simpl. by split.
    + assert (nonempty T = true) as -> by (by destruct T).
      split; [by repeat constructor|]. destruct T; [done|simpl; lia].
  - rewrite chunk_loop_windows.
    destruct (windows_from fuel T cs ov 0) as [ws|] eqn:Hws; [|done].
    simpl. intros [= <-].
    pose proof (windows_from_width fuel T cs ov 0 ws Hov ltac:(lia) Hws) as Hwidth.
    pose proof (windows_from_chain fuel T cs ov 0 ws Hov ltac:(lia) Hws) as Hchain.
    apply chain_length in Hchain.
    split.
    + apply Forall_forall. intros c [Hc _]%list_elem_of_In%filter_In.
      apply list_elem_of_In, list_elem_of_fmap in Hc as (w & -> & Hw).
      rewrite Forall_forall in Hwidth. destruct (Hwidth w Hw) as (H0 & Hle & Hcs).
      unfold window_chunk, window_text. split; [|apply strip_idemp].
      pose proof (length_strip_le (slice T w.1 w.2)).
      pose proof (length_slice_le T w.1 w.2 Hle). lia.
    + etrans; [apply List.filter_length_le|]. rewrite length_fmap. lia.
Qed.

(** X4. A non-empty text without special characters, one made of word
    characters and whitespace only, gets the large chunk size, whatever its
    sentences; so does a text of whitespace alone, unlike the empty text. *)
Theorem estimate_text_density_plain cfg t :
  t ≠ [] → (∀ c, c ∈ t → is_word c || isspace c = true) →
  estimate_text_density cfg t = large_chunk_size cfg.
Proof.
  intros Hne Hplain. unfold text_processing.estimate_text_density.
  destruct t as [|c0 t0] eqn:Ht; [done|]. rewrite <-Ht in *. clear Ht Hne.
  assert (special_char_count unicode_alnum t = 0%nat) as Hzero.
  { unfold special_char_count. clear -Hplain.
    induction t as [|c t IH]; simpl; [done|].
    rewrite (Hplain c) by (by left). simpl. apply IH.
    intros d Hd. apply Hplain. by right. }
  assert (Qltb (special_char_ratio unicode_alnum t) (5 # 100) = true) as ->.
  { unfold special_char_ratio. rewrite Hzero. reflexivity. }
  by rewrite orb_true_r.
Qed.

(** X5. When the three configured sizes all exceed the default overlap, as
    the shipped ones do, the call every ingestion makes returns for every
    text: with the size estimated from any text, and with the size left
    out, the loop exits within as many iterations as the normalized text
    has characters. *)
Theorem ingestion_split_returns cfg fuel t measured :
  default_chunk_overlap < small_chunk_size cfg →
  default_chunk_overlap < medium_chunk_size cfg →
  default_chunk_overlap < large_chunk_size cfg →
  (length (clean_text t) ≤ fuel)%nat →
  is_Some (split_into_chunks cfg fuel t
             (Some (estimate_text_density cfg measured)) default_chunk_overlap)
  ∧ is_Some (split_into_chunks cfg fuel t None default_chunk_overlap).
Proof.
  intros Hs Hm Hl Hfuel. unfold default_chunk_overlap in *.
  assert (∀ x, 0 ≤ 100 < estimate_text_density cfg x) as Hest.
  { intros x. destruct (estimate_cases cfg x) as [->|[->| ->]]; lia. }
  split.
  - by apply segmentation.split_into_chunks_returns.
  - by apply (segmentation.split_into_chunks_returns unicode_alnum cfg fuel t
                (estimate_text_density cfg (clean_text t))).
Qed.

End with_unicode.

Lemma split_into_chunks_empty_iff_witness :
  ([] : list (list N)) = [] ↔
  ∀ c, c ∈ of_string "  @ #  " →
       isspace c = true ∨ is_kept ascii_only c = false.
Proof.
  apply (split_into_chunks_empty_iff ascii_only runtime_config 0
           (of_string "  @ #  ") 300 100 []).
  - lia.
  - reflexivity.
Defined.

Lemma split_into_chunks_bounds_witness :
  let chunks :=
    of_string <$> ["Alpha senten"; "ntence."; "nce. Beta se"; "a sentence!";
                   "nce! Gamma s"; "ma sentence?"]%string in
  Forall (λ c, Z.of_nat (length c) ≤ 12 ∧ strip c = c) chunks
  ∧ (length chunks ≤ length (clean_text ascii_only three_sentences))%nat.
Proof.
  apply (split_into_chunks_bounds ascii_only runtime_config 6 three_sentences
           (Some 12) 4).
  - simpl. lia.
  - vm_compute. reflexivity.
Defined.

Lemma estimate_text_density_plain_witness :
  estimate_text_density ascii_only runtime_config (of_string "  plain words  ")
  = 800.
Proof.
  apply (estimate_text_density_plain ascii_only runtime_config
           (of_string "  plain words  ")).
  - discriminate.
  - intros c Hc. vm_compute in Hc.
    repeat (apply elem_of_cons in Hc as [->|Hc]; [reflexivity|]).
    by apply elem_of_nil in Hc.
Defined.

Lemma ingestion_split_returns_witness :
  is_Some (split_into_chunks ascii_only runtime_config
             (length (clean_text ascii_only symbol_run)) symbol_run
             (Some (estimate_text_density ascii_only runtime_config symbol_run))
             default_chunk_overlap)
  ∧ is_Some (split_into_chunks ascii_only runtime_config
               (length (clean_text ascii_only symbol_run)) symbol_run None
               default_chunk_overlap).
Proof.
  apply (ingestion_split_returns ascii_only runtime_config
           (length (clean_text ascii_only symbol_run)) symbol_run symbol_run);
    [vm_compute; reflexivity..|lia].
Defined.

End segmentation_more.

(** ** Tenant vector store, further *)

Module vector_store_more.
Import chroma chroma_store chroma_calls vector_store_facts.

Lemma has_duplicates_NoDup (l : list string) : NoDup l → has_duplicates l = false.
Proof.
  intros Hnd. destruct (has_duplicates l) eqn:Hdup; [|done].
  by apply has_duplicates_spec in Hdup.
Qed.

(** What the formatting loop gives: one entry per row, in order, when the
    ids reach far enough, and an exception otherwise. *)
Lemma format_results_Some i ids rows :
  (i + length rows ≤ length ids)%nat →
  ∃ l, format_results i ids rows = Some l
     ∧ length l = length rows
     ∧ ∀ j doc md dist,
         rows !! j = Some (doc, md, dist) →
         ∃ x, ids !! (i + j)%nat = Some x
            ∧ l !! j = Some {| id := x; content := doc; metadata := md;
                               score := float_sub float_one dist |}.
Proof.
  revert i. induction rows as [|[[doc0 md0] dist0] rows IH]; intros i Hlen; simpl.
  - exists []. split; [done|]. split; [done|]. intros j ???. by rewrite lookup_nil.
  - simpl in Hlen.
    destruct (lookup_lt_is_Some_2 ids i) as [x Hx]; [lia|]. rewrite Hx.
    destruct (IH (S i)) as (l & -> & Hl & Hrows); [lia|].
    eexists. split; [done|]. split; [simpl; lia|].
    intros [|j] doc md dist Hj; simpl in *.
    + injection Hj as -> -> ->. exists x. by rewrite Nat.add_0_r.
    + destruct (Hrows j doc md dist Hj) as (y & Hy & Hlj).
      exists y. split; [|done]. by replace (i + S j)%nat with (S i + j)%nat by lia.
Qed.

Lemma format_results_None i ids rows :
  (length ids < i + length rows)%nat → rows ≠ [] →
  format_results i ids rows = None.
Proof.
  revert i. induction rows as [|[[doc0 md0] dist0] rows IH]; intros i Hlen Hne;
    [done|]. simpl in *.
  destruct (ids !! i) as [x|] eqn:Hx; [|done].
  apply lookup_lt_Some in Hx.
  rewrite IH; [done|lia|]. intros ->. simpl in Hlen. lia.
Qed.

Section with_engine.
Variable E : Engine.
Variable uuid4 : nat → string.

(** X6. A store without a collection, because the client or the embedding
    function is missing or because opening the collection raised, answers
    every call with the empty result and leaves the index alone: adding
    returns no ids, searching returns nothing, the count is 0. Only with
    both the client and the embedding function present is the index asked
    for the collection at all. *)
Theorem store_without_collection name client_ok embedding_ok (w : World E) :
  client_ok && embedding_ok
    && (get_or_create_collection E name (engine w)).1 = false →
  let '(store, w1) := new_store E name client_ok embedding_ok w in
  collection store = false
  ∧ (client_ok && embedding_ok = false → w1 = w)
  ∧ ∀ texts metadatas ids query_text k (w' : World E),
      add_texts E uuid4 store texts metadatas ids w' = ([], w')
      ∧ similarity_search E store query_text k w' = ([], w')
      ∧ get_count E store w' = (0, w').
Proof.
  intros Hmissing. unfold new_store.
  destruct client_ok, embedding_ok; simpl in *;
    try (split; [done|]; split; [done|]; intros;
         unfold add_texts, similarity_search, get_count; simpl;
         by case_bool_decide).
  destruct (get_or_create_collection E name (engine w)) as [ok st].
  simpl in Hmissing. subst ok. split; [done|]. split; [done|]. intros.
  unfold add_texts, similarity_search, get_count; simpl. by case_bool_decide.
Qed.

(** X7. Called without ids, as the instances do, and with at least one
    text, [add_texts] on a store with a collection sends one batch: the texts, their metadata (an empty
    dictionary each when none is given) and one fresh UUID per text. With a
    UUID source that never repeats itself, it returns these ids, pairwise
    distinct and as many as the texts, when the index accepts the batch,
    and the empty list when the index raises. *)
Theorem add_texts_without_ids
    (store : ChromaVectorStore) texts metadatas (w : World E) :
  Inj (=) (=) uuid4 → texts ≠ [] → collection store = true →
  let fresh := uuid4 <$> seq (uuids_drawn w) (length texts) in
  let metas := default ((λ _, ∅) <$> texts) metadatas in
  let accepted :=
    (add E (collection_name store) texts metas fresh (engine w)).1 in
  NoDup fresh ∧ length fresh = length texts
  ∧ let '(returned, w') := add_texts E uuid4 store texts metadatas None w in
    calls w' = calls w ++ [Add (collection_name store) texts metas fresh]
    ∧ uuids_drawn w' = (uuids_drawn w + length texts)%nat
    ∧ returned = (if accepted then fresh else []).
Proof.
  intros Hinj Htexts Hcoll. cbv zeta.
  assert (NoDup (uuid4 <$> seq (uuids_drawn w) (length texts))) as Hnd.
  { apply NoDup_fmap_2; [done|apply NoDup_seq]. }
  split; [done|]. split; [by rewrite length_fmap, length_seq|].
  unfold add_texts. rewrite bool_decide_eq_false_2 by done.
  rewrite Hcoll. simpl. rewrite has_duplicates_NoDup by done. simpl.
  destruct (add E _ _ _ _ _) as [[] st]; simpl; done.
Qed.

(** X8. With at least one text and on a store with a collection, ids that
    are pairwise distinct go to the index as they are, and no UUID is
    drawn, whether or not there are as many ids as texts: the lengths are
    not compared. *)
Theorem add_texts_keeps_distinct_ids
    (store : ChromaVectorStore) texts metadatas (ids : list string) (w : World E) :
  NoDup ids → texts ≠ [] → collection store = true →
  let metas := default ((λ _, ∅) <$> texts) metadatas in
  let accepted :=
    (add E (collection_name store) texts metas ids (engine w)).1 in
  let '(returned, w') := add_texts E uuid4 store texts metadatas (Some ids) w in
  calls w' = calls w ++ [Add (collection_name store) texts metas ids]
  ∧ uuids_drawn w' = uuids_drawn w
  ∧ returned = (if accepted then ids else []).
Proof.
  intros Hnd Htexts Hcoll. cbv zeta.
  unfold add_texts. rewrite bool_decide_eq_false_2 by done.
  rewrite Hcoll. simpl. rewrite has_duplicates_NoDup by done.
  destruct (add E _ _ _ _ _) as [[] st]; simpl; done.
Qed.

(** X9. When the index reports a non-zero count and answers the query,
    [similarity_search] returns the rows of the answer in the order of the
    answer, as many as the shortest of its documents, metadatas and
    distances, each with the id at the same position and the score
    [1.0 - distance] computed in double precision; if the answer holds
    fewer ids than that, the search returns nothing at all. *)
Theorem similarity_search_rows
    (store : ChromaVectorStore) (query_text : text) (k : Z) (w : World E)
    c st1 r st2 :
  collection store = true →
  count E (collection_name store) (engine w) = (Some c, st1) → c ≠ 0 →
  query E (collection_name store) query_text (Z.min k c) st1 = (Some r, st2) →
  let rows := zip (zip (documents r) (metadatas r)) (distances r) in
  let found := (similarity_search E store query_text k w).1 in
  ((length (ids r) < length rows)%nat → found = [])
  ∧ ((length rows ≤ length (ids r))%nat →
     length found = length rows
     ∧ ∀ j x doc md dist,
         ids r !! j = Some x → documents r !! j = Some doc →
         metadatas r !! j = Some md → distances r !! j = Some dist →
         found !! j = Some {| id := x; content := doc; metadata := md;
                              score := float_sub float_one dist |}).
Proof.
  intros Hcoll Hcount Hc Hquery. cbv zeta.
  unfold similarity_search. rewrite Hcoll. simpl. rewrite Hcount. simpl.
  destruct (Z.eqb_spec c 0); [done|]. rewrite Hquery.
  set (rows := zip (zip (documents r) (metadatas r)) (distances r)).
  assert (∀ j doc md dist,
            documents r !! j = Some doc → metadatas r !! j = Some md →
            distances r !! j = Some dist →
            rows !! j = Some (doc, md, dist)) as Hlookup.
  { intros j doc md dist Hdoc Hmd Hdist. subst rows.
    rewrite !lookup_zip_with. by rewrite Hdoc, Hmd, Hdist. }
  assert (documents r = [] → rows = []) as Hnone.
  { intros Hd. subst rows. by rewrite Hd. }
  clearbody rows.
  destruct (documents r) as [|doc0 docs].
  { rewrite Hnone by done. simpl. split; [done|]. intros _. split; [done|].
    intros j ???? _ Hj. by rewrite lookup_nil in Hj. }
  simpl. split.
  - intros Hshort. rewrite format_results_None; [done|simpl; lia|].
    intros Hrows. rewrite Hrows in Hshort. simpl in Hshort. lia.
  - intros Hlong.
    destruct (format_results_Some 0 (ids r) rows) as (l & -> & Hl & Hrows);
      [simpl; lia|].
    simpl. split; [done|]. intros j x doc md dist Hx Hdoc Hmd Hdist.
    destruct (Hrows j doc md dist) as (y & Hy & Hlj); [by apply Hlookup|].
    simpl in Hy. assert (y = x) as -> by congruence. exact Hlj.
Qed.

(** X10. Every call that a store sends to the index names the store's own
    collection: adding, searching, counting and deleting extend the trace
    by calls on [collection_name] only, and so does the creation of the
    store. *)
Theorem store_calls_own_collection
    (store : ChromaVectorStore) texts metadatas ids query_text k (w : World E) :
  addressed_only (collection_name store) (calls w)
    (calls (add_texts E uuid4 store texts metadatas ids w).2)
  ∧ addressed_only (collection_name store) (calls w)
      (calls (similarity_search E store query_text k w).2)
  ∧ addressed_only (collection_name store) (calls w)
      (calls (get_count E store w).2)
  ∧ addressed_only (collection_name store) (calls w)
      (calls (delete_collection E store w).2)
  ∧ ∀ name client_ok embedding_ok,
      let '(created, w') := new_store E name client_ok embedding_ok w in
      collection_name created = name
      ∧ addressed_only name (calls w) (calls w').
Proof.
  assert (∀ name (l : list call), addressed_only name l l) as Hsame.
  { intros name l. exists []. by rewrite app_nil_r. }
  assert (∀ name (l : list call) c,
            call_name c = name → addressed_only name l (l ++ [c])) as Hone.
  { intros name l c Hc. exists [c]. split; [done|]. by repeat constructor. }
  assert (∀ name (l : list call) c d,
            call_name c = name → call_name d = name →
            addressed_only name l ((l ++ [c]) ++ [d])) as Htwo.
  { intros name l c d Hc Hd. exists [c; d]. rewrite <-app_assoc.
    split; [done|]. by repeat constructor. }
  split; [|split; [|split; [|split]]].
  - unfold add_texts. case_bool_decide; [apply Hsame|].
    destruct (collection store); simpl; [|apply Hsame].
    destruct ids as [ids|]; simpl.
    + destruct (has_duplicates ids); simpl;
        destruct (add E _ _ _ _ _) as [[] st]; simpl; by apply Hone.
    + destruct (has_duplicates _); simpl;
        destruct (add E _ _ _ _ _) as [[] st]; simpl; by apply Hone.
  - unfold similarity_search.
    destruct (collection store); simpl; [|apply Hsame].
    destruct (count E _ _) as [[c|] st]; simpl; [|by apply Hone].
    destruct (c =? 0); simpl; [by apply Hone|].
    destruct (query E _ _ _ _) as [[r|] st']; simpl; [|by apply Htwo].
    destruct (documents r); simpl; by apply Htwo.
  - unfold get_count. destruct (collection store); simpl; [|apply Hsame].
    destruct (count E _ _) as [n st]; simpl. by apply Hone.
  - unfold delete_collection. destruct (client store); simpl; [|apply Hsame].
    destruct (chroma.delete_collection E _ _) as [ok st]; simpl. by apply Hone.
  - intros name client_ok embedding_ok. unfold new_store.
    destruct (negb client_ok || negb embedding_ok); simpl; [by split|].
    destruct (get_or_create_collection E _ _) as [ok st]; simpl.
    split; [done|]. by apply Hone.
Qed.

End with_engine.

Lemma store_without_collection_witness :
  true && false
    && (get_or_create_collection memory "docs" (engine inputs.fresh_world)).1
    = false
  ∧ let '(store, w1) :=
      new_store memory "docs" true false inputs.fresh_world in
    collection store = false
    ∧ (true && false = false → w1 = inputs.fresh_world)
    ∧ ∀ texts metadatas ids query_text k (w' : World memory),
        add_texts memory inputs.uuid_numbered store texts metadatas ids w'
          = ([], w')
        ∧ similarity_search memory store query_text k w' = ([], w')
        ∧ get_count memory store w' = (0, w').
Proof.
  split; [reflexivity|].
  apply (store_without_collection memory inputs.uuid_numbered "docs" true false
           inputs.fresh_world).
  reflexivity.
Defined.

Lemma add_texts_without_ids_witness :
  let store := instance_manager.vector_store inputs.docs_tenant.1 in
  let texts := [of_string "first text"; of_string "second text"] in
  let w := inputs.docs_tenant.2 in
  let fresh := inputs.uuid_numbered <$> seq (uuids_drawn w) (length texts) in
  let metas := default ((λ _, ∅) <$> texts) None in
  let accepted :=
    (add memory (collection_name store) texts metas fresh (engine w)).1 in
  NoDup fresh ∧ length fresh = length texts
  ∧ let '(returned, w') :=
      add_texts memory inputs.uuid_numbered store texts None None w in
    calls w' = calls w ++ [Add (collection_name store) texts metas fresh]
    ∧ uuids_drawn w' = (uuids_drawn w + length texts)%nat
    ∧ returned = (if accepted then fresh else []).
Proof.
  apply (add_texts_without_ids memory inputs.uuid_numbered
           (instance_manager.vector_store inputs.docs_tenant.1)
           [of_string "first text"; of_string "second text"] None
           inputs.docs_tenant.2).
  - unfold inputs.uuid_numbered. apply pretty_nat_inj.
  - discriminate.
  - vm_compute. reflexivity.
Defined.

Lemma add_texts_keeps_distinct_ids_witness :
  let store := instance_manager.vector_store inputs.docs_tenant.1 in
  let texts := [of_string "first text"; of_string "second text"] in
  let ids := ["a"; "b"; "c"]%string in
  let w := inputs.docs_tenant.2 in
  let metas := default ((λ _, ∅) <$> texts) None in
  let accepted :=
    (add memory (collection_name store) texts metas ids (engine w)).1 in
  let '(returned, w') :=
    add_texts memory inputs.uuid_numbered store texts None (Some ids) w in
  calls w' = calls w ++ [Add (collection_name store) texts metas ids]
  ∧ uuids_drawn w' = uuids_drawn w
  ∧ returned = (if accepted then ids else []).
Proof.
  apply (add_texts_keeps_distinct_ids memory inputs.uuid_numbered
           (instance_manager.vector_store inputs.docs_tenant.1)
           [of_string "first text"; of_string "second text"] None
           ["a"; "b"; "c"]%string inputs.docs_tenant.2).
  - apply (bool_decide_unpack _). vm_compute. reflexivity.
  - discriminate.
  - vm_compute. reflexivity.
Defined.

(** The score of the distance 0.1, the double nearest to one tenth, is the
    double nearest to nine tenths. *)
Example score_of_one_tenth :
  format_results 0 ["x"]%string [(of_string "one", ∅, inputs_more.float_tenth)]
  = Some [ {| id := "x"; content := of_string "one"; metadata := ∅;
              score := SpecFloat.S754_finite false 8106479329266893 (-53) |} ].
Proof. vm_compute. reflexivity. Qed.

Lemma similarity_search_rows_witness :
  let store := {| collection_name := "docs"; client := true;
                  embedding_function := true; collection := true |} in
  let w := @Build_World inputs_more.short_of_ids tt [] 0 in
  let r := {| ids := ["x"]%string;
              documents := [of_string "one"; of_string "two"];
              metadatas := [∅; ∅];
              distances := [inputs_more.float_quarter; inputs_more.float_half] |} in
  let rows := zip (zip (documents r) (metadatas r)) (distances r) in
  let found := (similarity_search inputs_more.short_of_ids store (of_string "q") 5 w).1 in
  ((length (ids r) < length rows)%nat → found = [])
  ∧ ((length rows ≤ length (ids r))%nat →
     length found = length rows
     ∧ ∀ j x doc md dist,
         ids r !! j = Some x → documents r !! j = Some doc →
         metadatas r !! j = Some md → distances r !! j = Some dist →
         found !! j = Some {| id := x; content := doc; metadata := md;
                              score := float_sub float_one dist |}).
Proof.
  apply (similarity_search_rows inputs_more.short_of_ids
           {| collection_name := "docs"; client := true;
              embedding_function := true; collection := true |}
           (of_string "q") 5
           (@Build_World inputs_more.short_of_ids tt [] 0)
           2 tt
           {| ids := ["x"]%string;
              documents := [of_string "one"; of_string "two"];
              metadatas := [∅; ∅];
              distances := [inputs_more.float_quarter; inputs_more.float_half] |} tt).
  - reflexivity.
  - reflexivity.
  - discriminate.
  - reflexivity.
Defined.

End vector_store_more.

(** ** Tenant registry, further *)

Module registry_more.
Import chroma chroma_store chroma_calls instance_manager instance_reads.
Import registry_facts.

(** With well-formed summaries, at most one summary per key means that
    the keys of the list are pairwise distinct. *)
Lemma summaries_ok_NoDup docs : summaries_ok docs → NoDup (summary_key <$> docs).
Proof.
  intros [Hwf Huniq]. apply NoDup_alt. intros i j k Hi Hj.
  rewrite list_lookup_fmap in Hi, Hj.
  destruct (docs !! i) as [d1|] eqn:H1; [|done].
  destruct (docs !! j) as [d2|] eqn:H2; [|done].
  simpl in *. injection Hi as Hi. injection Hj as Hj.
  assert (well_formed d1) as [[key Hkey] _] by (by eapply Forall_lookup_1).
  assert (summary_key d1 = Some (key_field d1, VStr key)) as Hk1.
  { unfold summary_key. by rewrite Hkey. }
  eapply (Huniq i j d1 d2); [done..|congruence].
Qed.

Section with_engine.
Variable E : Engine.
Variable uuid4 : nat → string.

(** One [add_document]: the keys of the list stay as they are when the key
    of [doc_info] is among them, and gain it at the end otherwise. *)
Lemma add_document_keys (instance : RAGInstance) doc_info now (w : World E) :
  summaries_ok (documents_info instance) → well_formed doc_info →
  let keys := summary_key <$> documents_info instance in
  summary_key <$> documents_info (add_document E instance doc_info now w).1
  = if decide (summary_key doc_info ∈ keys) then keys
    else keys ++ [summary_key doc_info].
Proof.
  intros [Hwf Huniq] Hdoc. cbv zeta. unfold add_document.
  destruct (Hdoc) as [[key Hkey] Hother]. rewrite Hkey.
  pose proof (add_document_find (documents_info instance) doc_info key Hwf Hdoc Hkey)
    as Hfind.
  destruct (list_find _ (documents_info instance)) as [[i d]|].
  - destruct Hfind as (Hi & Hdkey & Hsame).
    rewrite bool_decide_eq_true_2
      by (intros ->; by rewrite lookup_empty in Hdkey).
    destruct (get_vector_count E instance w) as [count w1]. simpl.
    assert (well_formed d) as Hd by (by eapply Forall_lookup_1).
    destruct (refreshed_summary d doc_info count now key Hd Hdoc Hkey Hdkey)
      as (_ & Hkey' & _).
    rewrite decide_True.
    + rewrite list_fmap_insert, Hkey'. apply list_insert_id.
      by rewrite list_lookup_fmap, Hi.
    + rewrite <-Hsame. apply list_elem_of_fmap. exists d. split; [done|].
      by eapply list_elem_of_lookup_2.
  - simpl. rewrite decide_False; [by rewrite fmap_app|].
    intros (d & Hsame & Hd)%list_elem_of_fmap. by apply Hfind in Hd.
Qed.

(** A run of [add_document] calls: the keys at the end are the keys at the
    start and those recorded. *)
Lemma record_all_keys (instance : RAGInstance) recorded (w : World E) :
  summaries_ok (documents_info instance) →
  Forall (λ r, well_formed r.1) recorded →
  let final := (record_all E instance recorded w).1 in
  summaries_ok (documents_info final)
  ∧ ∀ k, k ∈ summary_key <$> documents_info final
         ↔ k ∈ summary_key <$> documents_info instance
           ∨ k ∈ (λ r, summary_key r.1) <$> recorded.
Proof.
  intros Hok Hrec. cbv zeta. unfold record_all.
  change instance with (instance, w).1 in Hok.
  change (summary_key <$> documents_info instance)
    with (summary_key <$> documents_info (instance, w).1).
  generalize dependent (instance, w). clear instance w.
  induction Hrec as [|r recorded Hr _ IH]; intros iw Hok; simpl.
  - split; [done|]. intros k. rewrite elem_of_nil. tauto.
  - destruct (IH (add_document E iw.1 r.1 r.2 iw.2)) as [Hfin Hkeys].
    { by apply add_document_preserves. }
    split; [done|]. intros k. rewrite Hkeys.
    rewrite (add_document_keys iw.1 r.1 r.2 iw.2) by done.
    rewrite elem_of_cons. case_decide as Hin.
    + split; [tauto|]. intros [?|[->|?]]; tauto.
    + rewrite elem_of_app, list_elem_of_singleton. tauto.
Qed.

(** X11. [create_rag_instance] returns the next UUID and registers under it
    a tenant with the given name and description, no summaries, and the
    collection [rag_<name>_<first eight characters of the id>], where the
    name is lower-cased by [str.lower] and then has its spaces replaced by
    underscores. Every other id resolves as before, the current selection,
    the messages and the conversation context are untouched (the new
    tenant is not selected), a switch to the new id succeeds, and the index
    is only asked for that collection. *)
Theorem create_rag_instance_registers (str_lower : string → string)
    name description client_ok embedding_ok now
    (ss : SessionState) (w : World E) :
  let '(new_id, ss', w') :=
    create_rag_instance E uuid4 str_lower name description client_ok
      embedding_ok now ss w in
  let collection :=
    ("rag_" +:+ replace_spaces (str_lower name) +:+ "_"
     +:+ String.substring 0 8 new_id)%string in
  new_id = uuid4 (uuids_drawn w)
  ∧ (∃ instance,
       get_rag_instance new_id ss' = Some instance
       ∧ instance_manager.id instance = new_id
       ∧ instance_manager.name instance = name
       ∧ instance_manager.description instance = description
       ∧ documents_info instance = []
       ∧ created_at instance = now
       ∧ collection_name (vector_store instance) = collection)
  ∧ (∀ other, other ≠ new_id →
       get_rag_instance other ss' = get_rag_instance other ss)
  ∧ current_rag_instance ss' = current_rag_instance ss
  ∧ messages ss' = messages ss
  ∧ conversation_context ss' = conversation_context ss
  ∧ switch_rag_instance new_id ss'
    = (true, {| rag_instances := rag_instances ss';
                current_rag_instance := Some new_id; messages := [];
                conversation_context := conversation_context ss |})
  ∧ addressed_only collection (calls w) (calls w').
Proof.
  unfold create_rag_instance, new_instance, slug.
  set (new_id := uuid4 (uuids_drawn w)).
  set (collection := ("rag_" +:+ _)%string).
  set (w0 := {| engine := engine w; calls := calls w;
                uuids_drawn := S (uuids_drawn w) |}).
  assert (collection_name (new_store E collection client_ok embedding_ok w0).1
          = collection
          ∧ addressed_only collection (calls w)
              (calls (new_store E collection client_ok embedding_ok w0).2))
    as [Hname Hcalls].
  { unfold new_store. destruct (negb client_ok || negb embedding_ok); simpl.
    - split; [done|]. exists []. by rewrite app_nil_r.
    - destruct (get_or_create_collection E _ _) as [ok st]; simpl.
      split; [done|]. exists [GetOrCreateCollection collection].
      split; [done|]. by repeat constructor. }
  destruct (new_store E collection client_ok embedding_ok w0) as [store w1].
  simpl in *. split; [done|]. split.
  { eexists. unfold get_rag_instance. simpl. rewrite lookup_insert_eq.
    split; [done|]. by simpl. }
  split.
  { intros other Hother. unfold get_rag_instance. simpl.
    by rewrite lookup_insert_ne. }
  split; [done|]. split; [done|]. split; [done|]. split; [|done].
  unfold switch_rag_instance. simpl. rewrite lookup_insert_eq.
  by rewrite bool_decide_eq_true_2.
Qed.

(** X12. After a [delete_rag_instance] that returned [True], the id no
    longer resolves, a switch to it fails and leaves the session as it
    is, a second delete fails without a call to the index, and every other
    id resolves as before. The tenant had a client, and the delete made
    exactly one call: the removal of the tenant's own collection. *)
Theorem delete_rag_instance_forgets instance_id (ss : SessionState) (w : World E) :
  (delete_rag_instance E instance_id ss w).1.1 = true →
  let '(_, ss', w') := delete_rag_instance E instance_id ss w in
  get_rag_instance instance_id ss' = None
  ∧ switch_rag_instance instance_id ss' = (false, ss')
  ∧ (∀ w'' : World E,
       delete_rag_instance E instance_id ss' w'' = (false, ss', w''))
  ∧ (∀ other, other ≠ instance_id →
       get_rag_instance other ss' = get_rag_instance other ss)
  ∧ ∃ instance,
      get_rag_instance instance_id ss = Some instance
      ∧ client (vector_store instance) = true
      ∧ calls w'
        = calls w ++ [DeleteCollection (collection_name (vector_store instance))].
Proof.
  unfold delete_rag_instance, delete, chroma_store.delete_collection,
    get_rag_instance, switch_rag_instance.
  destruct (rag_instances ss !! instance_id) as [instance|] eqn:Hreg; [|done].
  destruct (client (vector_store instance)) eqn:Hclient; simpl; [|done].
  destruct (chroma.delete_collection E _ _) as [[] st]; simpl; [|done].
  intros _.
  assert (∀ other, other ≠ instance_id →
            base.delete instance_id (rag_instances ss) !! other
            = rag_instances ss !! other) as Hothers.
  { intros other Hother. by apply lookup_delete_ne. }
  case_bool_decide; simpl; rewrite lookup_delete_eq;
    (split; [done|]); (split; [by rewrite bool_decide_eq_false_2 by
                                 (by intros [? ?])|]);
    (split; [done|]); (split; [done|]); by exists instance.
Qed.

(** X13. [add_document], for any dictionary and any list of summaries,
    changes nothing of the tenant but the list of summaries (the id, the
    name, the description, the vector store and the creation time stay),
    and the list in one of two ways. Either the dictionary is appended and the index is
    not asked anything; that is the case whenever the dictionary lacks its
    key field. Or one non-empty summary, which holds under that field a
    value equal (Python [==]) to the one of the dictionary, is replaced in
    place by the merge with the live count, after one count of the tenant's
    collection. No summary is ever removed. *)
Theorem add_document_frame (instance : RAGInstance) doc_info now (w : World E) :
  let docs := documents_info instance in
  let live := get_vector_count E instance w in
  let '(instance', w') := add_document E instance doc_info now w in
  instance_manager.id instance' = instance_manager.id instance
  ∧ instance_manager.name instance' = instance_manager.name instance
  ∧ instance_manager.description instance'
    = instance_manager.description instance
  ∧ vector_store instance' = vector_store instance
  ∧ created_at instance' = created_at instance
  ∧ (documents_info instance' = docs ++ [doc_info] ∧ w' = w
     ∨ ∃ i d,
         docs !! i = Some d ∧ d ≠ ∅
         ∧ is_Some (doc_info !! key_field doc_info)
         ∧ py_eq (dict_get d (key_field doc_info))
             (dict_get doc_info (key_field doc_info)) = true
         ∧ documents_info instance'
           = <[i := refreshed d doc_info live.1 now]> docs
         ∧ w' = live.2)
  ∧ (doc_info !! key_field doc_info = None →
     documents_info instance' = docs ++ [doc_info] ∧ w' = w)
  ∧ (length docs ≤ length (documents_info instance') ≤ S (length docs))%nat.
Proof.
  cbv zeta. unfold add_document.
  destruct (doc_info !! key_field doc_info) as [key|] eqn:Hkey; cycle 1.
  { simpl. repeat (split; [done|]). split; [by left|]. split; [done|].
    rewrite length_app. simpl. lia. }
  destruct (list_find _ (documents_info instance)) as [[i d]|] eqn:Hfind; cycle 1.
  { simpl. repeat (split; [done|]). split; [by left|]. split; [done|].
    rewrite length_app. simpl. lia. }
  case_bool_decide as Hne; cycle 1.
  { simpl. repeat (split; [done|]). split; [by left|]. split; [done|].
    rewrite length_app. simpl. lia. }
  apply list_find_Some in Hfind as (Hi & HP & _).
  destruct (get_vector_count E instance w) as [count w1]. simpl.
  repeat (split; [done|]). split; [|split; [done|by rewrite length_insert; lia]].
  right. exists i, d. split; [done|]. split; [done|]. split; [done|].
  split; [|done]. unfold dict_get at 2. by rewrite Hkey.
Qed.

(** X14. On a tenant that starts without summaries, after any run of
    [add_document] calls with well-formed summaries the list holds every
    recorded key, no other key, and each of them once; so the document
    count, also the one [get_summary] reports, is the number of distinct
    files and addresses recorded, however often each was ingested. *)
Theorem documents_listed_once (instance : RAGInstance) recorded (w : World E) :
  documents_info instance = [] → Forall (λ r, well_formed r.1) recorded →
  let recorded_keys := (λ r, summary_key r.1) <$> recorded in
  let '(final, w') := record_all E instance recorded w in
  let keys := summary_key <$> documents_info final in
  NoDup keys
  ∧ (∀ k, k ∈ keys ↔ k ∈ recorded_keys)
  ∧ get_document_count final = Z.of_nat (length (remove_dups recorded_keys))
  ∧ (get_summary E final w').1 !! "document_count"
    = Some (VInt (Z.of_nat (length (remove_dups recorded_keys)))).
Proof.
  intros Hnew Hrec. cbv zeta.
  assert (summaries_ok (documents_info instance)) as Hok.
  { rewrite Hnew. split; [constructor|].
    intros i j d1 d2 k Hi. by rewrite lookup_nil in Hi. }
  destruct (record_all_keys instance recorded w Hok Hrec) as [Hfin Hkeys].
  destruct (record_all E instance recorded w) as [final w']. simpl in *.
  assert (∀ k, k ∈ summary_key <$> documents_info final
               ↔ k ∈ (λ r, summary_key r.1) <$> recorded) as Hsame.
  { intros k. rewrite Hkeys, Hnew. simpl. rewrite elem_of_nil. tauto. }
  pose proof (summaries_ok_NoDup _ Hfin) as Hnd.
  assert (get_document_count final
          = Z.of_nat (length (remove_dups ((λ r, summary_key r.1) <$> recorded))))
    as Hcount.
  { unfold get_document_count. f_equal.
    rewrite <-(length_fmap summary_key). apply Permutation_length.
    apply NoDup_Permutation; [done|apply NoDup_remove_dups|].
    intros k. by rewrite elem_of_remove_dups. }
  split; [done|]. split; [done|]. split; [done|].
  unfold get_summary. destruct (get_vector_count E final w') as [n w1]. simpl.
  rewrite !lookup_insert_ne by done. rewrite lookup_insert_eq. by rewrite Hcount.
Qed.

End with_engine.

Lemma delete_rag_instance_forgets_witness :
  let ss := inputs.docs_session.1 in
  let w := inputs.docs_session.2 in
  let '(_, ss', w') := delete_rag_instance memory "0" ss w in
  get_rag_instance "0" ss' = None
  ∧ switch_rag_instance "0" ss' = (false, ss')
  ∧ (∀ w'' : World memory,
       delete_rag_instance memory "0" ss' w'' = (false, ss', w''))
  ∧ (∀ other, other ≠ "0"%string →
       get_rag_instance other ss' = get_rag_instance other ss)
  ∧ ∃ instance,
      get_rag_instance "0" ss = Some instance
      ∧ client (vector_store instance) = true
      ∧ calls w'
        = calls w ++ [DeleteCollection (collection_name (vector_store instance))].
Proof.
  apply (delete_rag_instance_forgets memory "0" inputs.docs_session.1
           inputs.docs_session.2).
  vm_compute. reflexivity.
Defined.

Lemma documents_listed_once_witness :
  let instance := inputs.docs_tenant.1 in
  let recorded :=
    [ (document_processor.pdf_summary "a.txt" 10 2048 "2026-01-01T00:01:00",
       "2026-01-01T00:01:01");
      (document_processor.pdf_summary "b.txt" 3 512 "2026-01-01T00:02:00",
       "2026-01-01T00:02:01");
      (document_processor.pdf_summary "a.txt" 15 4096 "2026-01-01T00:03:00",
       "2026-01-01T00:03:01") ]%string in
  let recorded_keys := (λ r, summary_key r.1) <$> recorded in
  let '(final, w') := record_all memory instance recorded inputs.docs_tenant.2 in
  let keys := summary_key <$> documents_info final in
  NoDup keys
  ∧ (∀ k, k ∈ keys ↔ k ∈ recorded_keys)
  ∧ get_document_count final = Z.of_nat (length (remove_dups recorded_keys))
  ∧ (get_summary memory final w').1 !! "document_count"
    = Some (VInt (Z.of_nat (length (remove_dups recorded_keys)))).
Proof.
  apply (documents_listed_once memory inputs.docs_tenant.1
           [ (document_processor.pdf_summary "a.txt" 10 2048 "2026-01-01T00:01:00",
              "2026-01-01T00:01:01");
             (document_processor.pdf_summary "b.txt" 3 512 "2026-01-01T00:02:00",
              "2026-01-01T00:02:01");
             (document_processor.pdf_summary "a.txt" 15 4096 "2026-01-01T00:03:00",
              "2026-01-01T00:03:01") ]%string
           inputs.docs_tenant.2).
  - vm_compute. reflexivity.
  - repeat constructor; simpl;
      first [by exists "a.txt"%string | by exists "b.txt"%string | reflexivity].
Defined.

(** The run of the three ingestions above lists two files. *)
Example two_files_listed :
  instance_reads.get_document_count
    (record_all memory inputs.docs_tenant.1
       [ (document_processor.pdf_summary "a.txt" 10 2048 "2026-01-01T00:01:00",
          "2026-01-01T00:01:01");
         (document_processor.pdf_summary "b.txt" 3 512 "2026-01-01T00:02:00",
          "2026-01-01T00:02:01");
         (document_processor.pdf_summary "a.txt" 15 4096 "2026-01-01T00:03:00",
          "2026-01-01T00:03:01") ]%string
       inputs.docs_tenant.2).1 = 2.
Proof. vm_compute. reflexivity. Qed.

End registry_more.

(** ** Ingestion of text, PDF and DOCX *)

Module processing_facts.
Import pystr pystr_more config text_processing chroma chroma_store chroma_calls.
Import instance_manager document_processor processing.

Lemma truncated_text (t : text) :
  (if MAX_CONTENT_SIZE <? Z.of_nat (length t)
   then take (Z.to_nat MAX_CONTENT_SIZE) t else t)
  = take (Z.to_nat MAX_CONTENT_SIZE) t.
Proof.
  assert (0 ≤ MAX_CONTENT_SIZE) as Hpos by (unfold MAX_CONTENT_SIZE; lia).
  set (M := MAX_CONTENT_SIZE) in *. clearbody M.
  destruct (Z.ltb_spec M (Z.of_nat (length t))); [done|].
  rewrite take_ge; [done|lia].
Qed.

Section with_engine.
Variable E : Engine.
Variable uuid4 : nat → string.
Variable unicode_alnum : char → bool.

Lemma length_clean_text_le t :
  (length (clean_text unicode_alnum t) ≤ length t)%nat.
Proof.
  unfold clean_text.
  etrans; [apply segmentation_more.length_strip_le|].
  etrans; [|apply (segmentation_more.length_sub_ws_le false t)].
  induction (sub_ws false t) as [|x l IH]; simpl; [done|].
  destruct (is_kept unicode_alnum x); simpl; lia.
Qed.

(** The call every ingestion makes returns when the fuel exceeds the
    length of the text. *)
Lemma ingestion_split cfg fuel t measured :
  sizes_exceed_overlap cfg → (length t < fuel)%nat →
  is_Some (split_into_chunks unicode_alnum cfg fuel t
             (Some (estimate_text_density unicode_alnum cfg measured))
             default_chunk_overlap).
Proof.
  intros (Hs & Hm & Hl) Hfuel. unfold split_into_chunks.
  destruct (_ <=? _); [done|].
  rewrite text_processing_facts.chunk_loop_windows.
  pose proof (length_clean_text_le t) as Hlen.
  destruct (text_processing_facts.windows_from_terminates fuel
              (clean_text unicode_alnum t)
              (estimate_text_density unicode_alnum cfg measured)
              default_chunk_overlap 0) as [ws ->]; [|lia|lia|done].
  unfold default_chunk_overlap in *.
  destruct (segmentation_more.estimate_cases unicode_alnum cfg measured)
    as [->|[->| ->]]; lia.
Qed.

(** A text of whitespace only has no chunks. *)
Lemma blank_split cfg fuel t measured :
  sizes_exceed_overlap cfg → strip t = [] →
  split_into_chunks unicode_alnum cfg fuel t
    (Some (estimate_text_density unicode_alnum cfg measured))
    default_chunk_overlap = Some [].
Proof.
  intros (Hs & Hm & Hl) Hblank. unfold split_into_chunks.
  assert (clean_text unicode_alnum t = []) as ->.
  { apply segmentation_more.clean_text_nil_iff. intros c Hc. left.
    apply segmentation_more.strip_nil_iff in Hblank.
    rewrite Forall_forall in Hblank. by apply Hblank. }
  assert ((Z.of_nat (length (@nil char))
           <=? estimate_text_density unicode_alnum cfg measured) = true) as ->;
    [|done].
  apply Z.leb_le. unfold default_chunk_overlap in *. simpl.
  destruct (segmentation_more.estimate_cases unicode_alnum cfg measured)
    as [->|[->| ->]]; lia.
Qed.

(** One batch without ids on a store with a collection: one [Add] with as
    many ids as texts, which are returned when the index accepts it. *)
Lemma add_texts_batch (store : ChromaVectorStore) texts metadatas (w : World E) :
  texts ≠ [] → collection store = true →
  ∃ ids,
    length ids = length texts
    ∧ (chroma_store.add_texts E uuid4 store texts (Some metadatas) None w).1
      = (if (add E (collection_name store) texts metadatas ids (engine w)).1
         then ids else [])
    ∧ calls (chroma_store.add_texts E uuid4 store texts (Some metadatas) None w).2
      = calls w ++ [Add (collection_name store) texts metadatas ids].
Proof.
  intros Htexts Hcoll. unfold chroma_store.add_texts.
  rewrite bool_decide_eq_false_2 by done. rewrite Hcoll. simpl.
  destruct (has_duplicates _); simpl.
  - exists (uuid4 <$> seq (uuids_drawn w + length texts) (length texts)).
    split; [by rewrite length_fmap, length_seq|].
    destruct (add E _ _ _ _ _) as [[] st]; simpl; done.
  - exists (uuid4 <$> seq (uuids_drawn w) (length texts)).
    split; [by rewrite length_fmap, length_seq|].
    destruct (add E _ _ _ _ _) as [[] st]; simpl; done.
Qed.

(** X15. [process_text] reads the first [MAX_CONTENT_SIZE] characters of
    the text only: the result is the one for the text cut there. *)
Theorem process_text_truncates cfg fuel text_content source_metadata instance ss
    (w : World E) :
  process_text E uuid4 unicode_alnum cfg fuel text_content source_metadata
    instance ss w
  = process_text E uuid4 unicode_alnum cfg fuel
      (take (Z.to_nat MAX_CONTENT_SIZE) text_content) source_metadata
      instance ss w.
Proof.
  unfold process_text. destruct (resolve_instance instance ss); [|done].
  rewrite !truncated_text. by rewrite take_take, Nat.min_id.
Qed.

(** X16. With the configured sizes above the overlap and fuel beyond the
    length of the text, [process_text] returns, and what it returns is all
    or nothing: 0, or the number of chunks of the text cut at
    [MAX_CONTENT_SIZE]. Without a tenant, without chunks or without a
    collection it returns 0 and asks the index nothing. Otherwise it sends
    one batch with every chunk, each with a copy of the source metadata
    (an empty dictionary when there is none), and returns the number of
    chunks when the index accepts the batch and 0 when it raises. *)
Theorem process_text_all_or_nothing cfg fuel text_content source_metadata
    instance ss (w : World E) :
  sizes_exceed_overlap cfg → (length text_content < fuel)%nat →
  let cut := take (Z.to_nat MAX_CONTENT_SIZE) text_content in
  ∃ n w' chunks,
    process_text E uuid4 unicode_alnum cfg fuel text_content source_metadata
      instance ss w = Some (n, w')
    ∧ split_into_chunks unicode_alnum cfg fuel cut
        (Some (estimate_text_density unicode_alnum cfg cut))
        default_chunk_overlap = Some chunks
    ∧ (n = 0 ∨ n = Z.of_nat (length chunks))
    ∧ match resolve_instance instance ss with
      | None => n = 0 ∧ w' = w
      | Some tenant =>
          let store := vector_store tenant in
          let metas := (λ _, default ∅ source_metadata) <$> chunks in
          (chunks = [] ∨ collection store = false → n = 0 ∧ w' = w)
          ∧ (chunks ≠ [] → collection store = true →
             ∃ ids,
               length ids = length chunks
               ∧ calls w' = calls w ++ [Add (collection_name store) chunks metas ids]
               ∧ n = if (add E (collection_name store) chunks metas ids
                           (engine w)).1
                     then Z.of_nat (length chunks) else 0)
      end.
Proof.
  intros Hsizes Hfuel. cbv zeta. unfold process_text. rewrite truncated_text.
  set (cut := take (Z.to_nat MAX_CONTENT_SIZE) text_content).
  assert (length cut ≤ length text_content)%nat as Hcut.
  { subst cut. rewrite length_take. apply Nat.le_min_r. }
  clearbody cut.
  destruct (ingestion_split cfg fuel cut cut Hsizes) as [chunks Hsplit]; [lia|].
  rewrite Hsplit.
  destruct (resolve_instance instance ss) as [tenant|].
  2:{ exists 0, w, chunks. split; [done|]. split; [done|]. split; [by left|done]. }
  case_bool_decide as Hchunks.
  { exists 0, w, chunks. split; [done|]. split; [done|]. split; [by left|].
    split; [done|]. intros Hne. by destruct Hne. }
  unfold add_texts.
  destruct (collection (vector_store tenant)) eqn:Hcoll.
  - destruct (add_texts_batch (vector_store tenant) chunks
                ((λ _, default ∅ source_metadata) <$> chunks) w Hchunks Hcoll)
      as (ids & Hlen & Hret & Hcalls).
    destruct (chroma_store.add_texts E uuid4 (vector_store tenant) chunks _ None w)
      as [returned w1]. simpl in *.
    exists (Z.of_nat (length returned)), w1, chunks.
    split; [done|]. split; [done|]. subst returned.
    destruct (add E _ _ _ _ _) as [[] st] eqn:Hadd; simpl.
    + split; [right; by rewrite Hlen|]. split; [intros [?|?]; done|].
      intros _ _. exists ids. rewrite Hadd. simpl. by rewrite Hlen.
    + split; [by left|]. split; [intros [?|?]; done|].
      intros _ _. exists ids. rewrite Hadd. by simpl.
  - unfold chroma_store.add_texts. rewrite bool_decide_eq_false_2 by done.
    rewrite Hcoll. simpl.
    exists 0, w, chunks. split; [done|]. split; [done|]. split; [by left|].
    split; [done|]. intros _ ?. done.
Qed.

(** The page loop from page [i] on, with what it has collected so far. *)
Lemma pdf_pages_acc cfg fuel base pages :
  sizes_exceed_overlap cfg →
  Forall (λ p, ∀ t, p = Some t → (length t < fuel)%nat) pages →
  ∀ i acc_c acc_m,
  ∃ cs ms,
    pdf_pages unicode_alnum cfg fuel base i pages acc_c acc_m
    = Some (acc_c ++ cs, acc_m ++ ms)
    ∧ length ms = length cs
    ∧ (∀ j c m, cs !! j = Some c → ms !! j = Some m →
         ∃ k t pc,
           pages !! k = Some (Some t) ∧ chunked unicode_alnum cfg fuel t = Some pc
           ∧ c ∈ pc ∧ m = page_metadata base (i + k)%nat)
    ∧ (∀ k t pc c,
         pages !! k = Some (Some t) → chunked unicode_alnum cfg fuel t = Some pc → c ∈ pc →
         ∃ j, cs !! j = Some c ∧ ms !! j = Some (page_metadata base (i + k)%nat)).
Proof.
  intros Hsizes Hfuel.
  induction Hfuel as [|p pages Hp _ IH]; intros i acc_c acc_m.
  { exists [], []. simpl. rewrite !app_nil_r. split; [done|]. split; [done|].
    split; intros ? ? ? ? H; by rewrite lookup_nil in H. }
  assert (∀ acc_c acc_m,
            (∀ t pc c, p = Some t → chunked unicode_alnum cfg fuel t = Some pc → c ∈ pc → False) →
            ∃ cs ms,
              pdf_pages unicode_alnum cfg fuel base (S i) pages acc_c acc_m
              = Some (acc_c ++ cs, acc_m ++ ms)
              ∧ length ms = length cs
              ∧ (∀ j c m, cs !! j = Some c → ms !! j = Some m →
                   ∃ k t pc,
                     (p :: pages) !! k = Some (Some t)
                     ∧ chunked unicode_alnum cfg fuel t = Some pc
                     ∧ c ∈ pc ∧ m = page_metadata base (i + k)%nat)
              ∧ (∀ k t pc c,
                   (p :: pages) !! k = Some (Some t) →
                   chunked unicode_alnum cfg fuel t = Some pc → c ∈ pc →
                   ∃ j, cs !! j = Some c
                        ∧ ms !! j = Some (page_metadata base (i + k)%nat)))
    as Hskip.
  { intros acc_c' acc_m' Hnone.
    destruct (IH (S i) acc_c' acc_m') as (cs & ms & Heq & Hlen & Hsound & Hcompl).
    exists cs, ms. split; [done|]. split; [done|]. split.
    - intros j c m Hc Hm.
      destruct (Hsound j c m Hc Hm) as (k & t & pc & Hk & Hpc & Hin & ->).
      exists (S k), t, pc. split; [done|]. split; [done|]. split; [done|].
      by replace (i + S k)%nat with (S i + k)%nat by lia.
    - intros [|k] t pc c Hk Hpc Hin; simpl in Hk.
      + exfalso. eapply Hnone; [|done..]. congruence.
      + destruct (Hcompl k t pc c Hk Hpc Hin) as (j & Hj & Hmj).
        exists j. split; [done|].
        by replace (i + S k)%nat with (S i + k)%nat by lia. }
  destruct p as [t|]; simpl; [|by apply Hskip].
  destruct (nonempty (strip t)) eqn:Hblank; cycle 1.
  { apply Hskip. intros t' pc c [= <-] Hpc Hin.
    rewrite blank_split in Hpc; [|done|by destruct (strip t)].
    injection Hpc as <-. by apply elem_of_nil in Hin. }
  destruct (ingestion_split cfg fuel t t Hsizes) as [pc Hpc]; [by apply Hp|].
  rewrite Hpc.
  destruct (IH (S i) (acc_c ++ pc)
              (acc_m ++ ((λ _, page_metadata base i) <$> pc)))
    as (cs & ms & Heq & Hlen & Hsound & Hcompl).
  exists (pc ++ cs), (((λ _, page_metadata base i) <$> pc) ++ ms).
  rewrite Heq, <-!app_assoc. split; [done|].
  split; [by rewrite !length_app, length_fmap, Hlen|]. split.
  - intros j c m Hc Hm. destruct (decide (j < length pc)%nat) as [Hj|Hj].
    + rewrite lookup_app_l in Hc by done.
      rewrite lookup_app_l in Hm by (by rewrite length_fmap).
      rewrite list_lookup_fmap, Hc in Hm. simpl in Hm. injection Hm as <-.
      exists 0%nat, t, pc. split; [done|]. split; [done|].
      split; [by eapply list_elem_of_lookup_2|]. by rewrite Nat.add_0_r.
    + rewrite lookup_app_r in Hc by lia.
      rewrite lookup_app_r in Hm by (rewrite length_fmap; lia).
      rewrite length_fmap in Hm.
      destruct (Hsound _ c m Hc Hm) as (k & t' & pc' & Hk & Hpc' & Hin & ->).
      exists (S k), t', pc'. split; [done|]. split; [done|]. split; [done|].
      by replace (i + S k)%nat with (S i + k)%nat by lia.
  - intros [|k] t' pc' c Hk Hpc' Hin; simpl in Hk.
    + injection Hk as <-. rewrite Hpc in Hpc'. injection Hpc' as <-.
      apply list_elem_of_lookup_1 in Hin as [j Hj]. exists j.
      pose proof (lookup_lt_Some _ _ _ Hj) as Hlt.
      rewrite lookup_app_l by done. split; [done|].
      rewrite lookup_app_l by (by rewrite length_fmap).
      rewrite list_lookup_fmap, Hj. simpl. by rewrite Nat.add_0_r.
    + destruct (Hcompl k t' pc' c Hk Hpc' Hin) as (j & Hj & Hmj).
      exists (length pc + j)%nat.
      rewrite lookup_app_r by lia.
      rewrite lookup_app_r by (rewrite length_fmap; lia).
      rewrite length_fmap.
      replace (length pc + j - length pc)%nat with j by lia.
      split; [done|].
      by replace (i + S k)%nat with (S i + k)%nat by lia.
Qed.

(** X17. With the configured sizes above the overlap and fuel beyond the
    length of every page, the page loop of [process_pdf] returns one
    metadata per chunk. Every chunk it collects is a chunk of some page
    whose text was extracted, and its metadata is the base with the number
    of that page, counted from 1 over all the pages, also those that were
    blank or whose extraction raised. Conversely every chunk of every
    extracted page is collected with that page number. *)
Theorem pdf_pages_tags_chunks cfg fuel base pages :
  sizes_exceed_overlap cfg →
  Forall (λ p, ∀ t, p = Some t → (length t < fuel)%nat) pages →
  ∃ all_chunks all_metadatas,
    pdf_pages unicode_alnum cfg fuel base 0 pages [] []
    = Some (all_chunks, all_metadatas)
    ∧ length all_metadatas = length all_chunks
    ∧ (∀ j c m, all_chunks !! j = Some c → all_metadatas !! j = Some m →
         ∃ k t pc,
           pages !! k = Some (Some t) ∧ chunked unicode_alnum cfg fuel t = Some pc
           ∧ c ∈ pc ∧ m = page_metadata base k)
    ∧ (∀ k t pc c,
         pages !! k = Some (Some t) → chunked unicode_alnum cfg fuel t = Some pc → c ∈ pc →
         ∃ j, all_chunks !! j = Some c
              ∧ all_metadatas !! j = Some (page_metadata base k)).
Proof.
  intros Hsizes Hfuel.
  destruct (pdf_pages_acc cfg fuel base pages Hsizes Hfuel 0 [] [])
    as (cs & ms & Heq & Hlen & Hsound & Hcompl).
  exists cs, ms. split; [done|]. split; [done|]. split; [exact Hsound|exact Hcompl].
Qed.

(** What [add_document] leaves in the list: a summary with the fields of
    the dictionary, the chunk count and the update time apart. *)
Lemma add_document_holds (tenant : RAGInstance) doc_info now (w : World E) :
  ∃ d, d ∈ documents_info (add_document E tenant doc_info now w).1
       ∧ ∀ k v, doc_info !! k = Some v → k ≠ "chunks" → k ≠ "date_updated" →
                d !! k = Some v.
Proof.
  assert (doc_info ∈ documents_info tenant ++ [doc_info]
          ∧ ∀ k v, doc_info !! k = Some v → k ≠ "chunks" → k ≠ "date_updated" →
                   doc_info !! k = Some v) as Happend.
  { split; [|done]. apply elem_of_app. right. constructor. }
  unfold add_document.
  destruct (doc_info !! key_field doc_info) as [key|]; [|by exists doc_info].
  destruct (list_find _ (documents_info tenant)) as [[i d]|] eqn:Hfind;
    [|by exists doc_info].
  case_bool_decide; [|by exists doc_info].
  apply list_find_Some in Hfind as (Hi & _ & _).
  destruct (get_vector_count E tenant w) as [count w1]. simpl.
  exists (refreshed d doc_info count now). split.
  - eapply list_elem_of_lookup_2. apply list_lookup_insert_eq.
    by eapply lookup_lt_Some.
  - intros k v Hk Hk1 Hk2. rewrite registry_facts.refreshed_lookup.
    rewrite !decide_False by done. by rewrite Hk.
Qed.

Lemma add_document_calls (tenant : RAGInstance) doc_info now (w : World E) :
  (∃ extra, calls (add_document E tenant doc_info now w).2 = calls w ++ extra)
  ∧ (collection (vector_store tenant) = false →
     (add_document E tenant doc_info now w).2 = w).
Proof.
  assert (∃ extra : list call, calls w = calls w ++ extra) as Hsame.
  { exists []. by rewrite app_nil_r. }
  unfold add_document.
  destruct (doc_info !! key_field doc_info) as [key|]; [|done].
  destruct (list_find _ (documents_info tenant)) as [[i d]|]; [|done].
  case_bool_decide; [|done].
  unfold get_vector_count, get_count.
  destruct (collection (vector_store tenant)); simpl; [|done].
  destruct (count E _ _) as [n st]. simpl. split; [by eexists|done].
Qed.

(** The end of [process_pdf] and of [process_docx]: the batch, then the
    summary. *)
Lemma store_and_record (tenant : RAGInstance) chunks metas doc_info later
    (w : World E) :
  chunks ≠ [] →
  let '(tenant', w') :=
    (let '(_, w1) := add_texts E uuid4 tenant chunks (Some metas) w in
     add_document E tenant doc_info later w1) in
  (∃ d, d ∈ documents_info tenant'
        ∧ ∀ k v, doc_info !! k = Some v → k ≠ "chunks" → k ≠ "date_updated" →
                 d !! k = Some v)
  ∧ (collection (vector_store tenant) = false → w' = w)
  ∧ (collection (vector_store tenant) = true →
     ∃ ids, length ids = length chunks
            ∧ Add (collection_name (vector_store tenant)) chunks metas ids
              ∈ calls w').
Proof.
  intros Hne. unfold add_texts.
  destruct (collection (vector_store tenant)) eqn:Hcoll.
  - destruct (add_texts_batch (vector_store tenant) chunks metas w Hne Hcoll)
      as (ids & Hlen & _ & Hcalls).
    destruct (chroma_store.add_texts E uuid4 (vector_store tenant) chunks _ None w)
      as [returned w1]. simpl in Hcalls.
    pose proof (add_document_holds tenant doc_info later w1) as Hd.
    destruct (add_document_calls tenant doc_info later w1) as [[extra Hextra] _].
    destruct (add_document E tenant doc_info later w1) as [tenant' w'].
    simpl in *. split; [done|]. split; [done|]. intros _.
    exists ids. split; [done|]. rewrite Hextra, Hcalls.
    apply elem_of_app. left. apply elem_of_app. right. constructor.
  - unfold chroma_store.add_texts. rewrite bool_decide_eq_false_2 by done.
    rewrite Hcoll. simpl.
    pose proof (add_document_holds tenant doc_info later w) as Hd.
    destruct (add_document_calls tenant doc_info later w) as [_ Hw].
    destruct (add_document E tenant doc_info later w) as [tenant' w'].
    simpl in *. split; [done|]. split; [by intros _; apply Hw|done].
Qed.

(** X18. With the configured sizes above the overlap and fuel beyond the
    length of every page, [process_pdf] on a readable file returns, and it
    returns the number of chunks cut from its pages, whatever becomes of
    them in the index. With no
    chunk the tenant and the index stay as they are. With chunks the
    tenant lists a summary with the type, the name and the size of the
    file afterwards; on a store without a collection no call is made and
    the count is reported all the same, and on a store with one the batch
    holds every chunk with its metadata and one id per chunk. A file that
    cannot be read gives 0 and changes nothing. *)
Theorem process_pdf_reports_chunks cfg fuel pages size filename
    (tenant : RAGInstance) ss now now_added later (w : World E) :
  sizes_exceed_overlap cfg →
  Forall (λ p, ∀ t, p = Some t → (length t < fuel)%nat) pages →
  (∃ all_chunks all_metadatas tenant' w',
     pdf_pages unicode_alnum cfg fuel
       (pdf_metadata_base filename now (length pages)) 0 pages [] []
     = Some (all_chunks, all_metadatas)
     ∧ process_pdf E uuid4 unicode_alnum cfg fuel (Some pages) size filename
         (Some tenant) ss now now_added later w
       = Some (Z.of_nat (length all_chunks), Some tenant', w')
     ∧ (all_chunks = [] → tenant' = tenant ∧ w' = w)
     ∧ (all_chunks ≠ [] →
        (∃ d, d ∈ documents_info tenant'
              ∧ d !! "type" = Some (VStr "pdf")
              ∧ d !! "filename" = Some (VStr filename)
              ∧ d !! "size" = Some (VInt size))
        ∧ (collection (vector_store tenant) = false → w' = w)
        ∧ (collection (vector_store tenant) = true →
           ∃ ids, length ids = length all_chunks
                  ∧ Add (collection_name (vector_store tenant)) all_chunks
                      all_metadatas ids ∈ calls w')))
  ∧ process_pdf E uuid4 unicode_alnum cfg fuel None size filename
      (Some tenant) ss now now_added later w
    = Some (0, Some tenant, w).
Proof.
  intros Hsizes Hfuel. split; [|done].
  destruct (pdf_pages_acc cfg fuel
              (pdf_metadata_base filename now (length pages)) pages Hsizes Hfuel
              0 [] []) as (cs & ms & Heq & _).
  simpl in Heq. unfold process_pdf. simpl. rewrite Heq.
  unfold process_pdf_store. case_bool_decide as Hcs; cycle 1.
  { exists cs, ms, tenant, w. split; [done|]. split; [done|]. split; [done|].
    intros Hne. by destruct Hcs. }
  pose proof (store_and_record tenant cs ms
                (pdf_summary filename (Z.of_nat (length cs)) size now_added)
                later w Hcs) as Hrec.
  destruct (add_texts E uuid4 tenant cs (Some ms) w) as [returned w1].
  destruct (add_document E tenant _ later w1) as [tenant' w'].
  exists cs, ms, tenant', w'. split; [done|]. split; [done|].
  split; [intros ->; done|]. intros _.
  destruct Hrec as ((d & Hd & Hfields) & Hoff & Hon).
  split; [|done]. exists d. split; [done|].
  split; [by apply Hfields|]. split; by apply Hfields.
Qed.

(** Only blank paragraphs: nothing is joined. *)
Lemma blank_paragraphs (paragraphs : list text) :
  Forall (λ para, strip para = []) paragraphs →
  join [10; 10]%N (List.filter (λ para, nonempty (strip para)) paragraphs) = [].
Proof.
  induction 1 as [|para paragraphs Hp _ IH]; simpl; [done|]. by rewrite Hp.
Qed.

(** X19. With the configured sizes above the overlap and fuel beyond the
    length of the joined text, [process_docx] on a readable document
    returns, and it returns the number of chunks of its non-blank
    paragraphs joined by blank lines. A document
    with blank paragraphs only has none, and then nothing changes. With
    chunks, the tenant lists a summary with the type and the name of the
    file, and on a store with a collection the batch holds every chunk;
    the metadata of the chunk at position [j] holds the position counted
    from 1 and the number of all paragraphs, blank ones included. A
    document that cannot be read gives 0 and changes nothing. *)
Theorem process_docx_indexes_chunks cfg fuel paragraphs size filename
    (tenant : RAGInstance) ss now now_added later (w : World E) :
  sizes_exceed_overlap cfg →
  let full_text :=
    join [10; 10]%N (List.filter (λ para, nonempty (strip para)) paragraphs) in
  let base := docx_metadata_base filename now (length paragraphs) in
  (length full_text < fuel)%nat →
  (∃ chunks tenant' w',
     chunked unicode_alnum cfg fuel full_text = Some chunks
     ∧ process_docx E uuid4 unicode_alnum cfg fuel (Some paragraphs) size
         filename (Some tenant) ss now now_added later w
       = Some (Z.of_nat (length chunks), Some tenant', w')
     ∧ (Forall (λ para, strip para = []) paragraphs → chunks = [])
     ∧ (chunks = [] → tenant' = tenant ∧ w' = w)
     ∧ (chunks ≠ [] →
        (∃ d, d ∈ documents_info tenant'
              ∧ d !! "type" = Some (VStr "docx")
              ∧ d !! "filename" = Some (VStr filename))
        ∧ (collection (vector_store tenant) = true →
           ∃ metas ids,
             Add (collection_name (vector_store tenant)) chunks metas ids
               ∈ calls w'
             ∧ length ids = length chunks
             ∧ length metas = length chunks
             ∧ ∀ j, (j < length chunks)%nat →
                 metas !! j
                 = Some (<["chunk_index" := VInt (Z.of_nat j + 1)]> base))))
  ∧ process_docx E uuid4 unicode_alnum cfg fuel None size filename
      (Some tenant) ss now now_added later w
    = Some (0, Some tenant, w).
Proof.
  intros Hsizes full_text base Hfuel. split; [|done].
  destruct (ingestion_split cfg fuel full_text full_text Hsizes Hfuel)
    as [chunks Hsplit].
  assert (Forall (λ para, strip para = []) paragraphs → chunks = []) as Hblank.
  { intros Hall. subst full_text. rewrite blank_paragraphs in Hsplit by done.
    rewrite blank_split in Hsplit by done. congruence. }
  assert ((if nonempty full_text
           then chunked unicode_alnum cfg fuel full_text else Some [])
          = Some chunks) as Hchunks.
  { destruct full_text eqn:Hfull; simpl; [|done].
    rewrite blank_split in Hsplit by done. done. }
  unfold process_docx. simpl. fold full_text. fold base. rewrite Hchunks.
  case_bool_decide as Hcs; cycle 1.
  { exists chunks, tenant, w.
    assert (chunks = []) as -> by (by destruct chunks; [|destruct Hcs]).
    split; [done|]. split; [done|]. split; [done|]. split; [done|]. done. }
  set (metas := imap (λ i _, <["chunk_index" := VInt (Z.of_nat i + 1)]> base)
                  chunks).
  pose proof (store_and_record tenant chunks metas
                (docx_summary filename (Z.of_nat (length chunks)) size now_added)
                later w Hcs) as Hrec.
  destruct (add_texts E uuid4 tenant chunks (Some metas) w) as [returned w1].
  destruct (add_document E tenant _ later w1) as [tenant' w'].
  exists chunks, tenant', w'. split; [done|]. split; [done|].
  split; [done|]. split; [intros ->; done|]. intros _.
  destruct Hrec as ((d & Hd & Hfields) & _ & Hon).
  split.
  { exists d. split; [done|]. split; by apply Hfields. }
  intros Hcoll. destruct (Hon Hcoll) as (ids & Hlen & Hin).
  exists metas, ids. split; [done|]. split; [done|].
  split; [by subst metas; rewrite length_imap|].
  intros j Hj. subst metas. rewrite list_lookup_imap.
  destruct (lookup_lt_is_Some_2 chunks j Hj) as [c ->]. done.
Qed.

End with_engine.

Lemma shipped_sizes : sizes_exceed_overlap runtime_config.
Proof. unfold sizes_exceed_overlap. vm_compute. repeat split; reflexivity. Qed.

Lemma four_pages_fuel :
  Forall (λ p, ∀ t, p = Some t → (length t < 100)%nat) inputs_more.four_pages.
Proof.
  unfold inputs_more.four_pages.
  repeat (apply List.Forall_cons;
          [intros t Ht;
           first [discriminate | injection Ht as <-; vm_compute; lia]|]).
  apply List.Forall_nil.
Qed.

Lemma process_text_all_or_nothing_witness :
  let cut := take (Z.to_nat MAX_CONTENT_SIZE) inputs.three_sentences in
  ∃ n w' chunks,
    process_text memory inputs.uuid_numbered inputs.ascii_only runtime_config
      100 inputs.three_sentences None (Some inputs.docs_tenant.1)
      inputs.docs_session.1 inputs.docs_tenant.2 = Some (n, w')
    ∧ split_into_chunks inputs.ascii_only runtime_config 100 cut
        (Some (estimate_text_density inputs.ascii_only runtime_config cut))
        default_chunk_overlap = Some chunks
    ∧ (n = 0 ∨ n = Z.of_nat (length chunks))
    ∧ match resolve_instance (Some inputs.docs_tenant.1) inputs.docs_session.1 with
      | None => n = 0 ∧ w' = inputs.docs_tenant.2
      | Some tenant =>
          let store := vector_store tenant in
          let metas := (λ _, default ∅ None) <$> chunks in
          (chunks = [] ∨ collection store = false
           → n = 0 ∧ w' = inputs.docs_tenant.2)
          ∧ (chunks ≠ [] → collection store = true →
             ∃ ids,
               length ids = length chunks
               ∧ calls w'
                 = calls inputs.docs_tenant.2
                   ++ [Add (collection_name store) chunks metas ids]
               ∧ n = if (add memory (collection_name store) chunks metas ids
                           (engine inputs.docs_tenant.2)).1
                     then Z.of_nat (length chunks) else 0)
      end.
Proof.
  apply (process_text_all_or_nothing memory inputs.uuid_numbered
           inputs.ascii_only runtime_config 100 inputs.three_sentences None
           (Some inputs.docs_tenant.1) inputs.docs_session.1
           inputs.docs_tenant.2).
  - exact shipped_sizes.
  - vm_compute. lia.
Defined.

Lemma pdf_pages_tags_chunks_witness :
  let base := pdf_metadata_base "a.pdf" "2026-01-01T00:01:00" 4 in
  ∃ all_chunks all_metadatas,
    pdf_pages inputs.ascii_only runtime_config 100 base 0
      inputs_more.four_pages [] []
    = Some (all_chunks, all_metadatas)
    ∧ length all_metadatas = length all_chunks
    ∧ (∀ j c m, all_chunks !! j = Some c → all_metadatas !! j = Some m →
         ∃ k t pc,
           inputs_more.four_pages !! k = Some (Some t)
           ∧ chunked inputs.ascii_only runtime_config 100 t = Some pc
           ∧ c ∈ pc ∧ m = page_metadata base k)
    ∧ (∀ k t pc c,
         inputs_more.four_pages !! k = Some (Some t) →
         chunked inputs.ascii_only runtime_config 100 t = Some pc → c ∈ pc →
         ∃ j, all_chunks !! j = Some c
              ∧ all_metadatas !! j = Some (page_metadata base k)).
Proof.
  apply (pdf_pages_tags_chunks inputs.ascii_only runtime_config 100
           (pdf_metadata_base "a.pdf" "2026-01-01T00:01:00" 4)
           inputs_more.four_pages).
  - exact shipped_sizes.
  - exact four_pages_fuel.
Defined.

(** The four pages give two chunks, tagged with the pages 1 and 4. *)
Example four_pages_chunks :
  pdf_pages inputs.ascii_only runtime_config 100 ∅ 0 inputs_more.four_pages [] []
  = Some ([inputs.three_sentences; of_string "Delta sentence."],
          [ {[ "page" := VInt 1 ]}; {[ "page" := VInt 4 ]} ]).
Proof. vm_compute. reflexivity. Qed.

Lemma process_pdf_reports_chunks_witness :
  let tenant := inputs.docs_tenant.1 in
  let w := inputs.docs_tenant.2 in
  (∃ all_chunks all_metadatas tenant' w',
     pdf_pages inputs.ascii_only runtime_config 100
       (pdf_metadata_base "a.pdf" "2026-01-01T00:01:00"
          (length inputs_more.four_pages)) 0 inputs_more.four_pages [] []
     = Some (all_chunks, all_metadatas)
     ∧ process_pdf memory inputs.uuid_numbered inputs.ascii_only runtime_config
         100 (Some inputs_more.four_pages) 2048 "a.pdf" (Some tenant)
         inputs.docs_session.1 "2026-01-01T00:01:00" "2026-01-01T00:01:01"
         "2026-01-01T00:01:02" w
       = Some (Z.of_nat (length all_chunks), Some tenant', w')
     ∧ (all_chunks = [] → tenant' = tenant ∧ w' = w)
     ∧ (all_chunks ≠ [] →
        (∃ d, d ∈ documents_info tenant'
              ∧ d !! "type" = Some (VStr "pdf")
              ∧ d !! "filename" = Some (VStr "a.pdf")
              ∧ d !! "size" = Some (VInt 2048))
        ∧ (collection (vector_store tenant) = false → w' = w)
        ∧ (collection (vector_store tenant) = true →
           ∃ ids, length ids = length all_chunks
                  ∧ Add (collection_name (vector_store tenant)) all_chunks
                      all_metadatas ids ∈ calls w')))
  ∧ process_pdf memory inputs.uuid_numbered inputs.ascii_only runtime_config
      100 None 2048 "a.pdf" (Some tenant) inputs.docs_session.1
      "2026-01-01T00:01:00" "2026-01-01T00:01:01" "2026-01-01T00:01:02" w
    = Some (0, Some tenant, w).
Proof.
  apply (process_pdf_reports_chunks memory inputs.uuid_numbered
           inputs.ascii_only runtime_config 100 inputs_more.four_pages 2048
           "a.pdf" inputs.docs_tenant.1 inputs.docs_session.1
           "2026-01-01T00:01:00" "2026-01-01T00:01:01" "2026-01-01T00:01:02"
           inputs.docs_tenant.2).
  - exact shipped_sizes.
  - exact four_pages_fuel.
Defined.

Lemma process_docx_indexes_chunks_witness :
  let paragraphs :=
    [of_string "First paragraph."; of_string "  "; of_string "Second one."] in
  let tenant := inputs.docs_tenant.1 in
  let w := inputs.docs_tenant.2 in
  let full_text :=
    join [10; 10]%N (List.filter (λ para, nonempty (strip para)) paragraphs) in
  let base :=
    docx_metadata_base "a.docx" "2026-01-01T00:01:00" (length paragraphs) in
  (∃ chunks tenant' w',
     chunked inputs.ascii_only runtime_config 100 full_text = Some chunks
     ∧ process_docx memory inputs.uuid_numbered inputs.ascii_only runtime_config
         100 (Some paragraphs) 2048 "a.docx" (Some tenant)
         inputs.docs_session.1 "2026-01-01T00:01:00" "2026-01-01T00:01:01"
         "2026-01-01T00:01:02" w
       = Some (Z.of_nat (length chunks), Some tenant', w')
     ∧ (Forall (λ para, strip para = []) paragraphs → chunks = [])
     ∧ (chunks = [] → tenant' = tenant ∧ w' = w)
     ∧ (chunks ≠ [] →
        (∃ d, d ∈ documents_info tenant'
              ∧ d !! "type" = Some (VStr "docx")
              ∧ d !! "filename" = Some (VStr "a.docx"))
        ∧ (collection (vector_store tenant) = true →
           ∃ metas ids,
             Add (collection_name (vector_store tenant)) chunks metas ids
               ∈ calls w'
             ∧ length ids = length chunks
             ∧ length metas = length chunks
             ∧ ∀ j, (j < length chunks)%nat →
                 metas !! j
                 = Some (<["chunk_index" := VInt (Z.of_nat j + 1)]> base))))
  ∧ process_docx memory inputs.uuid_numbered inputs.ascii_only runtime_config
      100 None 2048 "a.docx" (Some tenant) inputs.docs_session.1
      "2026-01-01T00:01:00" "2026-01-01T00:01:01" "2026-01-01T00:01:02" w
    = Some (0, Some tenant, w).
Proof.
  apply (process_docx_indexes_chunks memory inputs.uuid_numbered
           inputs.ascii_only runtime_config 100
           [of_string "First paragraph."; of_string "  "; of_string "Second one."]
           2048 "a.docx" inputs.docs_tenant.1 inputs.docs_session.1
           "2026-01-01T00:01:00" "2026-01-01T00:01:01" "2026-01-01T00:01:02"
           inputs.docs_tenant.2).
  - exact shipped_sizes.
  - vm_compute. lia.
Defined.

End processing_facts.

(** ** The user context *)

Module context_facts.
Import pystr pystr_more text_processing context_manager.

Lemma startswith_spec p s : startswith p s = true ↔ ∃ post, s = p ++ post.
Proof.
  revert s. induction p as [|a p IH]; intros s; simpl.
  { split; [by exists s|done]. }
  destruct s as [|b s].
  { split; [done|]. by intros [post Hpost]. }
  rewrite andb_true_iff, N.eqb_eq, IH. split.
  - intros [-> [post ->]]. by exists post.
  - intros [post [= -> ->]]. split; [done|]. by exists post.
Qed.

Lemma contains_cons needle c hay :
  contains needle (c :: hay) = startswith needle (c :: hay) || contains needle hay.
Proof. done. Qed.

(** [needle in hay] holds exactly when [needle] is a contiguous part of
    [hay]. *)
Lemma contains_spec needle hay :
  contains needle hay = true ↔ ∃ pre post, hay = pre ++ needle ++ post.
Proof.
  induction hay as [|c hay IH].
  - simpl. rewrite orb_false_r, startswith_spec. split.
    + intros [post Hpost]. by exists [], post.
    + intros (pre & post & Heq). symmetry in Heq.
      apply app_eq_nil in Heq as [-> Heq]. by exists post.
  - rewrite contains_cons, orb_true_iff, startswith_spec, IH. split.
    + intros [[post Hpost]|(pre & post & Heq)].
      * by exists [], post.
      * exists (c :: pre), post. by rewrite Heq.
    + intros ([|d pre] & post & Heq); simpl in Heq.
      * left. by exists post.
      * right. injection Heq as -> ->. by exists pre, post.
Qed.

(** The words of [s.split()] are not empty and hold no whitespace. *)
Lemma split_from_words word s :
  Forall (λ c, isspace c = false) word →
  Forall (λ x, x ≠ [] ∧ Forall (λ c, isspace c = false) x) (split_from word s).
Proof.
  revert word. induction s as [|c s IH]; intros word Hword; simpl.
  - destruct word; [constructor|]. constructor; [by split|constructor].
  - destruct (isspace c) eqn:Hc.
    + destruct word as [|d word]; [by apply IH|].
      constructor; [done|]. by apply IH.
    + apply IH. apply Forall_app. split; [done|]. by repeat constructor.
Qed.

Section with_lower.
Variable lower : text → text.

(** X20. [get_relevant_context] returns, for a key of the context, the
    value stored under it, and it returns the key exactly when its
    lower-case form is a contiguous part of the lower-case query, or some
    word of the lower-case query is a contiguous part of the lower-case
    key; nothing else is returned. The words of the query are its maximal
    runs without whitespace, so none of them is empty. *)
Theorem get_relevant_context_spec query user_context key v :
  (get_relevant_context lower query user_context !! key = Some v
   ↔ ∃ e, user_context !! key = Some e ∧ v = value e
          ∧ ((∃ pre post, lower query = pre ++ lower key ++ post)
             ∨ ∃ word pre post,
                 word ∈ split (lower query)
                 ∧ lower key = pre ++ word ++ post))
  ∧ Forall (λ word, word ≠ [] ∧ Forall (λ c, isspace c = false) word)
      (split (lower query)).
Proof.
  split; [|by apply split_from_words].
  assert (∀ k, relevant lower (lower query) k = true
               ↔ (∃ pre post, lower query = pre ++ lower k ++ post)
                 ∨ ∃ word pre post,
                     word ∈ split (lower query)
                     ∧ lower k = pre ++ word ++ post) as Hrel.
  { intros k. unfold relevant.
    rewrite orb_true_iff, contains_spec, existsb_exists. split.
    - intros [?|(word & Hin & Hc)]; [by left|right].
      apply contains_spec in Hc as (pre & post & Heq).
      exists word, pre, post. split; [by apply list_elem_of_In|done].
    - intros [?|(word & pre & post & Hin & Heq)]; [by left|right].
      exists word. split; [by apply list_elem_of_In|].
      apply contains_spec. by exists pre, post. }
  unfold get_relevant_context. case_bool_decide as Hempty.
  { subst. rewrite lookup_empty. split; [done|].
    intros (e & He & _). by rewrite lookup_empty in He. }
  rewrite lookup_fmap_Some. split.
  - intros (e & <- & [He Hr]%map_lookup_filter_Some).
    exists e. split; [done|]. split; [done|]. by apply Hrel.
  - intros (e & He & -> & Hr). exists e. split; [done|].
    apply map_lookup_filter_Some. split; [done|]. by apply Hrel.
Qed.

(** X21. A key of whitespace only is not rejected by
    [update_user_context]: with a non-empty value it is stored under the
    empty key, and from then on [get_relevant_context] returns that entry
    for every query. *)
Theorem blank_key_matches_every_query key value now user_context :
  lower [] = [] →
  key ≠ [] → Forall (λ c, isspace c = true) key → value ≠ [] →
  let stored := update_user_context key value now user_context in
  stored !! [] = Some {| value := strip value; timestamp := now |}
  ∧ ∀ query, get_relevant_context lower query stored !! [] = Some (strip value).
Proof.
  intros Hlower Hkey Hblank Hvalue. cbv zeta. unfold update_user_context.
  destruct key as [|c key]; [done|]. destruct value as [|d value]; [done|].
  simpl. apply segmentation_more.strip_nil_iff in Hblank. rewrite Hblank.
  split; [by rewrite lookup_insert_eq|]. intros query.
  unfold get_relevant_context.
  rewrite bool_decide_eq_false_2 by apply insert_non_empty.
  apply lookup_fmap_Some.
  exists {| value := strip (d :: value); timestamp := now |}. split; [done|].
  apply map_lookup_filter_Some. split; [by rewrite lookup_insert_eq|].
  simpl. unfold relevant. rewrite Hlower. by destruct (lower query).
Qed.

End with_lower.

(** X22. [update_user_context] keeps the context trimmed: when no key and
    no value of the context has whitespace at either end, the same holds
    afterwards. With a non-empty key and value the entry is found under
    the trimmed key, with the trimmed value and the time of the call, and
    every other key keeps its entry; with an empty key or value nothing
    changes. A later update whose key differs by surrounding whitespace
    only replaces the entry: the context is the one the later update
    alone would give. *)
Theorem update_user_context_trims key value now user_context :
  (∀ k e, user_context !! k = Some e →
          strip k = k ∧ strip (context_manager.value e) = context_manager.value e) →
  let stored := update_user_context key value now user_context in
  (∀ k e, stored !! k = Some e →
          strip k = k ∧ strip (context_manager.value e) = context_manager.value e)
  ∧ (key ≠ [] → value ≠ [] →
     stored !! strip key = Some {| value := strip value; timestamp := now |})
  ∧ (∀ k, k ≠ strip key → stored !! k = user_context !! k)
  ∧ (key = [] ∨ value = [] → stored = user_context)
  ∧ ∀ key2 value2 now2,
      key ≠ [] → value ≠ [] → key2 ≠ [] → value2 ≠ [] →
      strip key2 = strip key →
      update_user_context key2 value2 now2 stored
      = update_user_context key2 value2 now2 user_context.
Proof.
  intros Htrim. cbv zeta. unfold update_user_context.
  split; [|split; [|split; [|split]]].
  - intros k e. destruct (nonempty key && nonempty value); [|by apply Htrim].
    destruct (decide (k = strip key)) as [->|Hk].
    + rewrite lookup_insert_eq. intros [= <-]. simpl.
      split; apply pystr_facts.strip_idemp.
    + rewrite lookup_insert_ne by done. apply Htrim.
  - intros Hkey Hvalue. destruct key; [done|]. destruct value; [done|].
    simpl. by rewrite lookup_insert_eq.
  - intros k Hk. destruct (nonempty key && nonempty value); [|done].
    by rewrite lookup_insert_ne.
  - intros [->| ->]; [done|]. by rewrite andb_false_r.
  - intros key2 value2 now2 Hkey Hvalue Hkey2 Hvalue2 Hsame.
    destruct key; [done|]. destruct value; [done|].
    destruct key2; [done|]. destruct value2; [done|].
    simpl nonempty. simpl andb. cbv iota. rewrite Hsame. apply insert_insert_eq.
Qed.

Lemma blank_key_matches_every_query_witness :
  let stored :=
    update_user_context (of_string "  ") (of_string "v") "2026-01-01T00:00:00" ∅ in
  stored !! [] = Some {| value := strip (of_string "v");
                         timestamp := "2026-01-01T00:00:00" |}
  ∧ ∀ query,
      get_relevant_context inputs_more.ascii_lower query stored !! []
      = Some (strip (of_string "v")).
Proof.
  apply (blank_key_matches_every_query inputs_more.ascii_lower (of_string "  ")
           (of_string "v") "2026-01-01T00:00:00" ∅).
  - reflexivity.
  - discriminate.
  - repeat constructor.
  - discriminate.
Defined.

Lemma update_user_context_trims_witness :
  let key := of_string " name" in
  let value := of_string "Grace " in
  let now := "2026-01-02T00:00:00"%string in
  let user_context := inputs_more.one_entry in
  let stored := update_user_context key value now user_context in
  (∀ k e, stored !! k = Some e →
          strip k = k ∧ strip (context_manager.value e) = context_manager.value e)
  ∧ (key ≠ [] → value ≠ [] →
     stored !! strip key = Some {| value := strip value; timestamp := now |})
  ∧ (∀ k, k ≠ strip key → stored !! k = user_context !! k)
  ∧ (key = [] ∨ value = [] → stored = user_context)
  ∧ ∀ key2 value2 now2,
      key ≠ [] → value ≠ [] → key2 ≠ [] → value2 ≠ [] →
      strip key2 = strip key →
      update_user_context key2 value2 now2 stored
      = update_user_context key2 value2 now2 user_context.
Proof.
  apply (update_user_context_trims (of_string " name") (of_string "Grace ")
           "2026-01-02T00:00:00" inputs_more.one_entry).
  intros k e. unfold inputs_more.one_entry, update_user_context.
  change (nonempty (of_string " name ") && nonempty (of_string "Ada "))
    with true. cbv iota.
  intros [[<- <-]|[_ H]]%lookup_insert_Some; [|by rewrite lookup_empty in H].
  simpl context_manager.value. split; apply pystr_facts.strip_idemp.
Defined.

(** The entry of the one-entry context is found by a query that names its
    key in any case, and not by a query without it. *)
Example name_is_relevant :
  get_relevant_context inputs_more.ascii_lower (of_string "My NAME is?")
    inputs_more.one_entry !! of_string "name" = Some (of_string "Ada")
  ∧ get_relevant_context inputs_more.ascii_lower (of_string "Who?")
      inputs_more.one_entry !! of_string "name" = None.
Proof. vm_compute. split; reflexivity. Qed.

End context_facts.
